(** * ETL pipeline DAG engine: graph validation and execution

    A shallow embedding of [backend/app/services/validation.py] and
    [backend/app/services/runner.py].  Python dictionaries are kept as
    insertion-ordered association lists, exceptions as an error result,
    the run log as state threaded through the executor. *)

From Stdlib Require Import List String Ascii ZArith Lia Bool Arith.
From Stdlib Require Import Permutation Relations DecimalString.
Import ListNotations.
Open Scope string_scope.
Open Scope list_scope.

Infix "+++" := String.append (right associativity, at level 60).

Set Implicit Arguments.

(** ** Python values, truthiness, exceptions *)

(** The values a decoded JSON document can hold. *)
#[warnings="-register-all"]
Inductive pyval : Type :=
| VNone
| VBool (b : bool)
| VInt (z : Z)
| VStr (s : string)
| VList (l : list pyval)
| VDict (d : list (string * pyval)).

(** Python truthiness: [None], [False], [0], the empty string, list and
    dict are falsy. *)
Definition truthy (v : pyval) : bool :=
  match v with
  | VNone => false
  | VBool b => b
  | VInt z => negb (z =? 0)%Z
  | VStr s => negb (s =? EmptyString)
  | VList l => match l with [] => false | _ => true end
  | VDict d => match d with [] => false | _ => true end
  end.

(** [v == 'lit'] for a string literal. *)
Definition is_str (v : pyval) (lit : string) : bool :=
  match v with VStr s => s =? lit | _ => false end.

Inductive exn : Type :=
| KeyError (key : pyval)
| ValueError (msg : string)
| AttributeError (msg : string)
| TypeError (msg : string)
| LibraryError (msg : string).

Inductive result (A : Type) : Type :=
| Ok (a : A)
| Raise (e : exn).
Arguments Raise {A} e.

Definition bind {A B} (r : result A) (k : A -> result B) : result B :=
  match r with Ok a => k a | Raise e => Raise e end.

Declare Scope py_scope.
Delimit Scope py_scope with py.
Notation "x <- e ;; k" := (bind e (fun x => k))
  (at level 61, e at next level, right associativity) : py_scope.
Notation "' p <- e ;; k" := (bind e (fun p => k))
  (at level 61, p pattern, e at next level, right associativity) : py_scope.

(** [repr] of a string, without the escapes Python adds for quotes and
    control characters. *)
Definition repr_str (s : string) : string := "'" +++ s +++ "'".

Definition string_of_nat (n : nat) : string :=
  NilZero.string_of_uint (Nat.to_uint n).

(** [sep.join(l)] *)
Fixpoint join (sep : string) (l : list string) : string :=
  match l with
  | [] => EmptyString
  | [x] => x
  | x :: rest => x +++ sep +++ join sep rest
  end.

(** ** Dictionaries

    A Python [dict] iterates in insertion order and an assignment to an
    existing key keeps the key's position. *)

Section Dict.
Variable V : Type.

Definition dict := list (string * V).

Fixpoint dict_get (d : dict) (k : string) : option V :=
  match d with
  | [] => None
  | (k', v) :: rest => if k' =? k then Some v else dict_get rest k
  end.

Fixpoint dict_set (d : dict) (k : string) (v : V) : dict :=
  match d with
  | [] => [(k, v)]
  | (k', v') :: rest =>
      if k' =? k then (k', v) :: rest else (k', v') :: dict_set rest k v
  end.

Definition dict_keys (d : dict) : list string := map fst d.

Definition dict_mem (d : dict) (k : string) : bool :=
  match dict_get d k with Some _ => true | None => false end.

(** [d[k]] where [k] may be [None]: raises [KeyError]. *)
Definition dict_item (d : dict) (k : option string) : result V :=
  match k with
  | None => Raise (KeyError VNone)
  | Some s =>
      match dict_get d s with
      | Some v => Ok v
      | None => Raise (KeyError (VStr s))
      end
  end.
End Dict.

(** Sets of node ids, as lists without repetition. *)
Definition mem (x : string) (s : list string) : bool :=
  existsb (String.eqb x) s.

Definition set_add (x : string) (s : list string) : list string :=
  if mem x s then s else (s ++ [x]).

Definition set_remove (x : string) (s : list string) : list string :=
  filter (fun y => negb (y =? x)) s.

(** ** The graph definition *)

Record Node : Type := mkNode {
  n_id : string;
  n_type : option string;
  n_subtype : option string;
  n_config : option (dict pyval)
}.

(** An edge as it arrives on the wire: each endpoint key may be absent
    ([None]) or hold a string. *)
Record Edge : Type := mkEdge {
  e_from : option string;
  e_from_node : option string;
  e_source : option string;
  e_to : option string;
  e_to_node : option string;
  e_target : option string
}.

Record Pipeline : Type := mkPipeline {
  p_nodes : list Node;
  p_edges : list Edge
}.

(** [a or b] on optional strings: [a] when it is truthy, else [b]. *)
Definition str_truthy (a : option string) : bool :=
  match a with
  | Some s => negb (s =? EmptyString)
  | None => false
  end.

Definition py_or (a b : option string) : option string :=
  if str_truthy a then a else b.

(** [edge.get('from') or edge.get('from_node') or edge.get('source')] *)
Definition edge_from3 (e : Edge) : option string :=
  py_or (py_or (e_from e) (e_from_node e)) (e_source e).

(** [edge.get('to') or edge.get('to_node') or edge.get('target')] *)
Definition edge_to3 (e : Edge) : option string :=
  py_or (py_or (e_to e) (e_to_node e)) (e_target e).

(** [edge.get('from') or edge.get('from_node')], as [topological_sort]
    reads it. *)
Definition edge_from2 (e : Edge) : option string :=
  py_or (e_from e) (e_from_node e).

(** [edge.get('to') or edge.get('to_node')] *)
Definition edge_to2 (e : Edge) : option string :=
  py_or (e_to e) (e_to_node e).

(** [{node['id']: init for node in nodes}] *)
Definition dict_of_nodes {V} (init : V) (nodes : list Node) : dict V :=
  fold_left (fun d n => dict_set d (n_id n) init) nodes [].

(** ** Graph Validator ([validation.py]) *)

(** The mutable state the nested [dfs] closure works on: the sets
    [visited] and [rec_stack] and the list [errors] of the enclosing
    [detect_cycles], and the [path] list handed down by reference. *)
Record dfs_state : Type := mkDfs {
  visited : list string;
  rec_stack : list string;
  path : list string;
  errors : list string
}.

(** [path.index(x)] *)
Fixpoint index_of (x : string) (l : list string) : option nat :=
  match l with
  | [] => None
  | y :: rest =>
      if y =? x then Some 0
      else match index_of x rest with
           | Some i => Some (S i)
           | None => None
           end
  end.

(** The adjacency list of [detect_cycles]: an edge is entered only when
    both endpoints are truthy, and [adjacency[from_node]] raises
    [KeyError] for an id that is not a node. *)
Fixpoint build_adjacency (adjacency : dict (list string)) (edges : list Edge)
  : result (dict (list string)) :=
  match edges with
  | [] => Ok adjacency
  | edge :: rest =>
      let from_node := edge_from3 edge in
      let to_node := edge_to3 edge in
      match from_node, to_node with
      | Some f, Some t =>
          if str_truthy from_node && str_truthy to_node then
            match dict_get adjacency f with
            | Some l =>
                build_adjacency (dict_set adjacency f (l ++ [t])) rest
            | None => Raise (KeyError (VStr f))
            end
          else build_adjacency adjacency rest
      | _, _ => build_adjacency adjacency rest
      end
  end.

(** [adjacency.get(node_id, [])] *)
Definition neighbours (adjacency : dict (list string)) (node_id : string)
  : list string :=
  match dict_get adjacency node_id with Some l => l | None => [] end.

(** The loop [for neighbor in adjacency.get(node_id, [])] inside
    [dfs(node_id, path)], followed by the two statements that pop
    [node_id]; [call] is the recursive call [dfs(neighbor, path)]. *)
Fixpoint visit_neighbors
    (call : string -> dfs_state -> option (result (bool * dfs_state)))
    (node_id : string) (nbrs : list string) (s : dfs_state)
  : option (result (bool * dfs_state)) :=
  match nbrs with
  | [] =>
      Some (Ok (false,
                mkDfs (visited s)
                      (set_remove node_id (rec_stack s))
                      (removelast (path s))
                      (errors s)))
  | neighbor :: rest =>
      if negb (mem neighbor (visited s)) then
        match call neighbor s with
        | Some (Ok (true, s')) => Some (Ok (true, s'))
        | Some (Ok (false, s')) => visit_neighbors call node_id rest s'
        | Some (Raise e) => Some (Raise e)
        | None => None
        end
      else if mem neighbor (rec_stack s) then
        match index_of neighbor (path s) with
        | None =>
            Some (Raise (ValueError (repr_str neighbor +++ " is not in list")))
        | Some cycle_start =>
            let cycle :=
              join " → " (skipn cycle_start (path s) ++ [neighbor]) in
            Some (Ok (true,
                      mkDfs (visited s) (rec_stack s) (path s)
                            (errors s ++ ["Cycle detected: " +++ cycle])))
        end
      else visit_neighbors call node_id rest s
  end.

(** The closure [dfs(node_id, path)].  The recursion follows the call
    depth, bounded by [fuel]; [None] means the bound was too small
    ([detect_cycles_terminates] shows it never is).  The recursion
    limit of the Python interpreter is not modelled. *)
Fixpoint dfs (fuel : nat) (adjacency : dict (list string))
    (node_id : string) (st : dfs_state) {struct fuel}
  : option (result (bool * dfs_state)) :=
  match fuel with
  | O => None
  | S fuel' =>
      let st1 := mkDfs (set_add node_id (visited st))
                       (set_add node_id (rec_stack st))
                       (path st ++ [node_id])
                       (errors st) in
      visit_neighbors (dfs fuel' adjacency) node_id
                      (neighbours adjacency node_id) st1
  end.

(** [for node in nodes: if node['id'] not in visited: dfs(node['id'], [])] *)
Fixpoint dfs_roots (fuel : nat) (adjacency : dict (list string))
    (nodes : list Node) (st : dfs_state) : option (result dfs_state) :=
  match nodes with
  | [] => Some (Ok st)
  | node :: rest =>
      if negb (mem (n_id node) (visited st)) then
        match dfs fuel adjacency (n_id node)
                  (mkDfs (visited st) (rec_stack st) [] (errors st)) with
        | Some (Ok (_, st')) => dfs_roots fuel adjacency rest st'
        | Some (Raise e) => Some (Raise e)
        | None => None
        end
      else dfs_roots fuel adjacency rest st
  end.

(** A bound on the depth of [dfs]: every call marks a new id as visited,
    and the ids are node ids or edge targets. *)
Definition dfs_fuel (nodes : list Node) (edges : list Edge) : nat :=
  S (List.length nodes + List.length edges).

Definition detect_cycles (nodes : list Node) (edges : list Edge)
  : option (result (list string)) :=
  match build_adjacency (dict_of_nodes [] nodes) edges with
  | Raise e => Some (Raise e)
  | Ok adjacency =>
      match dfs_roots (dfs_fuel nodes edges) adjacency nodes
                      (mkDfs [] [] [] []) with
      | Some (Ok st) => Some (Ok (errors st))
      | Some (Raise e) => Some (Raise e)
      | None => None
      end
  end.

(** [detect_orphan_nodes]: the ids that occur as an edge source or
    target, then one check per node by its type. *)
Fixpoint connection_sets (edges : list Edge)
    (nodes_with_incoming nodes_with_outgoing : list string)
  : list string * list string :=
  match edges with
  | [] => (nodes_with_incoming, nodes_with_outgoing)
  | edge :: rest =>
      let from_node := edge_from3 edge in
      let to_node := edge_to3 edge in
      let outgoing :=
        match from_node with
        | Some f =>
            if str_truthy from_node then set_add f nodes_with_outgoing
            else nodes_with_outgoing
        | None => nodes_with_outgoing
        end in
      let incoming :=
        match to_node with
        | Some t =>
            if str_truthy to_node then set_add t nodes_with_incoming
            else nodes_with_incoming
        | None => nodes_with_incoming
        end in
      connection_sets rest incoming outgoing
  end.

Definition type_is (node : Node) (lit : string) : bool :=
  match n_type node with Some t => t =? lit | None => false end.

Definition subtype_is (node : Node) (lit : string) : bool :=
  match n_subtype node with Some t => t =? lit | None => false end.

Definition orphan_errors_of (node : Node)
    (nodes_with_incoming nodes_with_outgoing : list string) : list string :=
  let node_id := n_id node in
  let has_incoming := mem node_id nodes_with_incoming in
  let has_outgoing := mem node_id nodes_with_outgoing in
  if type_is node "SOURCE" then
    if negb has_outgoing
    then ["Source node '" +++ node_id +++ "' has no outgoing connections"]
    else []
  else if type_is node "LOAD" then
    if negb has_incoming
    then ["Load node '" +++ node_id +++ "' has no incoming connections"]
    else []
  else if type_is node "TRANSFORM" then
    ((if negb has_incoming
      then ["Transform node '" +++ node_id +++ "' has no incoming connections"]
      else [])
     ++
     (if negb has_outgoing
      then ["Transform node '" +++ node_id +++ "' has no outgoing connections"]
      else []))
  else
    if negb has_incoming && negb has_outgoing
    then ["Node '" +++ node_id +++ "' has no connections"]
    else [].

Definition detect_orphan_nodes (nodes : list Node) (edges : list Edge)
  : list string :=
  let '(nodes_with_incoming, nodes_with_outgoing) :=
    connection_sets edges [] [] in
  flat_map (fun node =>
              orphan_errors_of node nodes_with_incoming nodes_with_outgoing)
           nodes.

(** [node.get('config', {})] *)
Definition config_of (node : Node) : dict pyval :=
  match n_config node with Some c => c | None => [] end.

(** [not config.get(key)] *)
Definition lacks (config : dict pyval) (key : string) : bool :=
  match dict_get config key with
  | Some v => negb (truthy v)
  | None => true
  end.

Definition node_config_errors (node : Node) : list string :=
  let node_id := n_id node in
  let config := config_of node in
  let msg (text : string) := ("Node '" +++ node_id +++ "': " +++ text) in
  let need (key text : string) : list string :=
    if lacks config key then [msg text] else [] in
  if subtype_is node "CSV_SOURCE" then
    need "file_path" "CSV source requires 'file_path'"
  else if subtype_is node "EXCEL_SOURCE" then
    need "file_path" "Excel source requires 'file_path'"
  else if subtype_is node "JSON_SOURCE" then
    need "file_path" "JSON source requires 'file_path'"
  else if subtype_is node "DB_SOURCE" then
    (need "connection_string" "Database source requires 'connection_string'"
     ++ (if lacks config "table_name" && lacks config "query"
         then [msg "Database source requires 'table_name' or 'query'"]
         else []))
  else if subtype_is node "FILTER" then
    (need "column" "Filter requires 'column'"
     ++ need "operator" "Filter requires 'operator'"
     ++ (if negb (dict_mem config "value")
         then [msg "Filter requires 'value'"]
         else []))
  else if subtype_is node "SELECT" then
    need "columns" "Select requires 'columns' list"
  else if subtype_is node "RENAME" then
    need "mapping" "Rename requires 'mapping' dictionary"
  else if subtype_is node "CAST" then
    (need "column" "Cast requires 'column'"
     ++ need "dtype" "Cast requires 'dtype'")
  else if subtype_is node "AGGREGATE" then
    (need "group_by" "Aggregate requires 'group_by'"
     ++ need "aggregations" "Aggregate requires 'aggregations'")
  else if subtype_is node "JOIN" then
    (need "join_type" "Join requires 'join_type'"
     ++ (if lacks config "left_on" || lacks config "right_on"
         then [msg "Join requires 'left_on' and 'right_on'"]
         else []))
  else if subtype_is node "CSV_LOAD" || subtype_is node "EXCEL_LOAD"
          || subtype_is node "JSON_LOAD" then
    need "output_path" "Load requires 'output_path'"
  else if subtype_is node "DB_LOAD" then
    (need "connection_string" "Database load requires 'connection_string'"
     ++ need "table_name" "Database load requires 'table_name'")
  else [].

Definition validate_node_configs (nodes : list Node) : list string :=
  flat_map node_config_errors nodes.

Definition edge_errors_of (node_ids : list string) (idx : nat) (edge : Edge)
  : list string :=
  let from_node := edge_from3 edge in
  let to_node := edge_to3 edge in
  let pre := ("Edge " +++ string_of_nat idx +++ ": ") in
  if negb (str_truthy from_node) then [pre +++ "Missing 'from' node"]
  else if negb (str_truthy to_node) then [pre +++ "Missing 'to' node"]
  else
    match from_node, to_node with
    | Some f, Some t =>
        (if negb (mem f node_ids)
         then [pre +++ "'from' node '" +++ f +++ "' does not exist"]
         else [])
        ++
        (if negb (mem t node_ids)
         then [pre +++ "'to' node '" +++ t +++ "' does not exist"]
         else [])
    | _, _ => []
    end.

Fixpoint validate_edges_from (node_ids : list string) (idx : nat)
    (edges : list Edge) : list string :=
  match edges with
  | [] => []
  | edge :: rest =>
      (edge_errors_of node_ids idx edge
       ++ validate_edges_from node_ids (S idx) rest)
  end.

Definition validate_edges (nodes : list Node) (edges : list Edge)
  : list string :=
  validate_edges_from (map n_id nodes) 0 edges.

Definition validate_pipeline_structure (nodes : list Node)
    (edges : list Edge) : list string :=
  let source_nodes := filter (fun n => type_is n "SOURCE") nodes in
  let load_nodes := filter (fun n => type_is n "LOAD") nodes in
  ((match source_nodes with
    | [] => ["Pipeline must have at least one SOURCE node"]
    | _ => []
    end)
   ++
   (match load_nodes with
    | [] => ["Pipeline must have at least one LOAD node"]
    | _ => []
    end)).

(** [validate_pipeline]: the verdict and the error list, or the
    exception that escapes. *)
Definition validate_pipeline (pipeline_json : Pipeline)
  : option (result (bool * list string)) :=
  let nodes := p_nodes pipeline_json in
  let edges := p_edges pipeline_json in
  match nodes with
  | [] => Some (Ok (false, ["Pipeline must contain at least one node"]))
  | _ =>
      match detect_cycles nodes edges with
      | None => None
      | Some (Raise e) => Some (Raise e)
      | Some (Ok cycle_errors) =>
          let errors :=
            (cycle_errors
             ++ detect_orphan_nodes nodes edges
             ++ validate_node_configs nodes
             ++ validate_edges nodes edges
             ++ validate_pipeline_structure nodes edges) in
          Some (Ok (match errors with [] => true | _ => false end, errors))
      end
  end.

(** ** Topological order ([runner.py], Kahn's algorithm) *)

Local Open Scope py_scope.

(** The loop over the edges: [adjacency[from_node].append(to_node)] and
    [in_degree[to_node] += 1], each a [KeyError] on an unknown key. *)
Fixpoint build_graph (adjacency : dict (list string)) (in_degree : dict Z)
    (edges : list Edge) : result (dict (list string) * dict Z) :=
  match edges with
  | [] => Ok (adjacency, in_degree)
  | edge :: rest =>
      let from_node := edge_from2 edge in
      let to_node := edge_to2 edge in
      l <- dict_item adjacency from_node ;;
      d <- dict_item in_degree to_node ;;
      match from_node, to_node with
      | Some f, Some t =>
          build_graph (dict_set adjacency f (l ++ [t]))
                      (dict_set in_degree t (d + 1)%Z) rest
      | _, _ => Raise (KeyError VNone)
      end
  end.

(** [for neighbor in adjacency[node_id]]: decrement, and append to the
    queue on reaching zero. *)
Fixpoint relax (nbrs : list string) (in_degree : dict Z)
    (queue : list string) : result (dict Z * list string) :=
  match nbrs with
  | [] => Ok (in_degree, queue)
  | neighbor :: rest =>
      d <- dict_item in_degree (Some neighbor) ;;
      let in_degree' := dict_set in_degree neighbor (d - 1)%Z in
      if (d - 1 =? 0)%Z
      then relax rest in_degree' (queue ++ [neighbor])
      else relax rest in_degree' queue
  end.

(** [while queue:]; [fuel] bounds the number of iterations and [None]
    means the bound was too small. *)
Fixpoint kahn (fuel : nat) (adjacency : dict (list string))
    (in_degree : dict Z) (queue sorted_nodes : list string)
  : option (result (list string)) :=
  match queue with
  | [] => Some (Ok sorted_nodes)
  | node_id :: queue' =>
      match fuel with
      | O => None
      | S fuel' =>
          match (nbrs <- dict_item adjacency (Some node_id) ;;
                 relax nbrs in_degree queue') with
          | Raise e => Some (Raise e)
          | Ok (in_degree', queue'') =>
              kahn fuel' adjacency in_degree' queue''
                   (sorted_nodes ++ [node_id])
          end
      end
  end.

(** [[node_id for node_id, degree in in_degree.items() if degree == 0]] *)
Definition zero_in_degree (in_degree : dict Z) : list string :=
  map fst (filter (fun kv => (snd kv =? 0)%Z) in_degree).

Definition cycle_message : string :=
  "Pipeline contains cycles - cannot execute".

Definition topological_sort (nodes : list Node) (edges : list Edge)
  : option (result (list string)) :=
  match build_graph (dict_of_nodes [] nodes) (dict_of_nodes 0%Z nodes)
                    edges with
  | Raise e => Some (Raise e)
  | Ok (adjacency, in_degree) =>
      match kahn (List.length nodes) adjacency in_degree
                 (zero_in_degree in_degree) [] with
      | None => None
      | Some (Raise e) => Some (Raise e)
      | Some (Ok sorted_nodes) =>
          if negb (List.length sorted_nodes =? List.length nodes)%nat
          then Some (Raise (ValueError cycle_message))
          else Some (Ok sorted_nodes)
      end
  end.

(** ** Dynamic values in node configurations *)

Definition string_of_Z (z : Z) : string :=
  NilZero.string_of_int (Z.to_int z).

(** [repr(v)] *)
Fixpoint py_repr (v : pyval) : string :=
  match v with
  | VNone => "None"
  | VBool true => "True"
  | VBool false => "False"
  | VInt z => string_of_Z z
  | VStr s => repr_str s
  | VList l => "[" +++ join ", " (map py_repr l) +++ "]"
  | VDict d =>
      "{" +++ join ", " (map (fun kv => let '(k, x) := kv in
                                        repr_str k +++ ": " +++ py_repr x) d)
          +++ "}"
  end.

(** [str(v)], which is also what an f-string inserts. *)
Definition py_str (v : pyval) : string :=
  match v with VStr s => s | _ => py_repr v end.

Definition py_type_name (v : pyval) : string :=
  match v with
  | VNone => "NoneType"
  | VBool _ => "bool"
  | VInt _ => "int"
  | VStr _ => "str"
  | VList _ => "list"
  | VDict _ => "dict"
  end.

Definition opt_val (o : option string) : pyval :=
  match o with Some s => VStr s | None => VNone end.

(** [config.get(key)] and [config.get(key, default)] *)
Definition cfg_get (config : dict pyval) (key : string) : pyval :=
  match dict_get config key with Some v => v | None => VNone end.

Definition cfg_get_default (config : dict pyval) (key : string)
    (default : pyval) : pyval :=
  match dict_get config key with Some v => v | None => default end.

Fixpoint chars (s : string) : list string :=
  match s with
  | EmptyString => []
  | String c rest => String c EmptyString :: chars rest
  end.

(** [for x in v] *)
Definition py_iter (v : pyval) : result (list pyval) :=
  match v with
  | VList l => Ok l
  | VStr s => Ok (map VStr (chars s))
  | VDict d => Ok (map (fun kv => VStr (fst kv)) d)
  | _ => Raise (TypeError (repr_str (py_type_name v)
                           +++ " object is not iterable"))
  end.

(** [list(v.keys())] *)
Definition py_keys (v : pyval) : result (list pyval) :=
  match v with
  | VDict d => Ok (map (fun kv => VStr (fst kv)) d)
  | _ => Raise (AttributeError (repr_str (py_type_name v)
                                +++ " object has no attribute 'keys'"))
  end.

(** [v[key]] for a string key *)
Definition py_subscript (v : pyval) (key : string) : result pyval :=
  match v with
  | VDict d =>
      match dict_get d key with
      | Some x => Ok x
      | None => Raise (KeyError (VStr key))
      end
  | VStr _ => Raise (TypeError "string indices must be integers")
  | VList _ =>
      Raise (TypeError "list indices must be integers or slices, not str")
  | _ => Raise (TypeError (repr_str (py_type_name v)
                           +++ " object is not subscriptable"))
  end.

(** [isinstance(v, str)] and the wrapping [[v]] that follows it. *)
Definition listify_str (v : pyval) : pyval :=
  match v with VStr _ => VList [v] | _ => v end.

(** ** Datasets

    A frame has named columns and rows of cells; a missing value (NaN,
    None) is [CNull]. *)

Inductive cell : Type :=
| CNull
| CStr (s : string)
| CInt (z : Z)
| CBool (b : bool).

Record DataFrame : Type := mkDF {
  df_columns : list string;
  df_rows : list (list cell)
}.

(** The frame [groupby(...).agg({col: [funcs]}).reset_index()] gives
    back: its column labels are pairs. *)
Record MultiFrame : Type := mkMF {
  mf_columns : list (string * string);
  mf_rows : list (list cell)
}.

(** [len(df)] *)
Definition df_len (df : DataFrame) : nat := List.length (df_rows df).

(** [x in df.columns]: hashing an unhashable value raises. *)
Definition col_in (x : pyval) (columns : list string) : result bool :=
  match x with
  | VStr s => Ok (mem s columns)
  | VList _ | VDict _ =>
      Raise (TypeError ("unhashable type: " +++ repr_str (py_type_name x)))
  | _ => Ok false
  end.

(** [[col for col in cols if col not in df.columns]] *)
Fixpoint missing_columns (cols : list pyval) (columns : list string)
  : result (list pyval) :=
  match cols with
  | [] => Ok []
  | col :: rest =>
      (present <- col_in col columns ;;
       missing <- missing_columns rest columns ;;
       Ok (if present then missing else col :: missing))%py
  end.

(** [df[column]] for a single label *)
Definition df_getitem (df : DataFrame) (column : pyval)
  : result (list cell) :=
  match column with
  | VStr c =>
      match index_of c (df_columns df) with
      | Some i => Ok (map (fun row => nth i row CNull) (df_rows df))
      | None => Raise (KeyError column)
      end
  | VList _ | VDict _ =>
      Raise (TypeError ("unhashable type: " +++ repr_str (py_type_name column)))
  | _ => Raise (KeyError column)
  end.

Fixpoint set_nth (i : nat) (c : cell) (row : list cell) : list cell :=
  match i, row with
  | _, [] => []
  | O, _ :: rest => c :: rest
  | S i', x :: rest => x :: set_nth i' c rest
  end.

(** [df[column] = values] for a column the frame already has *)
Definition df_setitem (df : DataFrame) (column : string)
    (values : list cell) : DataFrame :=
  match index_of column (df_columns df) with
  | Some i =>
      mkDF (df_columns df)
           (map (fun rc => set_nth i (snd rc) (fst rc))
                (combine (df_rows df) values))
  | None => df
  end.

(** [df[mask]] for a boolean mask *)
Definition df_mask (df : DataFrame) (mask : list bool) : DataFrame :=
  mkDF (df_columns df)
       (map snd (filter fst (combine mask (df_rows df)))).

(** ** The run log *)

Inductive LogLevel : Type := INFO | WARNING | ERROR | DEBUG.

Record RunLog : Type := mkLog {
  log_run_id : Z;
  log_node_id : option string;
  log_level : LogLevel;
  log_message : string;
  log_rows_in : option nat;
  log_rows_out : option nat
}.

(** What an execution works on: the [results] and [output_paths] of
    [execute_pipeline] and the rows written to the log table. *)
Record run_state : Type := mkState {
  results : dict DataFrame;
  output_paths : list string;
  run_log : list RunLog
}.

(** A computation that reads and writes the run state and may raise;
    what it wrote before raising stays written. *)
Definition M (A : Type) : Type := run_state -> result A * run_state.

Definition ret {A} (a : A) : M A := fun st => (Ok a, st).

Definition raise {A} (e : exn) : M A := fun st => (Raise e, st).

Definition bindM {A B} (m : M A) (k : A -> M B) : M B :=
  fun st =>
    match m st with
    | (Ok a, st') => k a st'
    | (Raise e, st') => (Raise e, st')
    end.

Definition lift {A} (r : result A) : M A := fun st => (r, st).

(** [try: body / except Exception as e: handler(e)] *)
Definition try_except {A} (body : M A) (handler : exn -> M A) : M A :=
  fun st =>
    match body st with
    | (Ok a, st') => (Ok a, st')
    | (Raise e, st') => handler e st'
    end.

Declare Scope run_scope.
Delimit Scope run_scope with run.
Notation "x <- e ;; k" := (bindM e (fun x => k))
  (at level 61, e at next level, right associativity) : run_scope.
Notation "' p <- e ;; k" := (bindM e (fun p => k))
  (at level 61, p pattern, e at next level, right associativity) : run_scope.
Notation "e ;;; k" := (bindM e (fun _ => k))
  (at level 61, right associativity) : run_scope.

(** [str(e)] *)
Definition exn_str (e : exn) : string :=
  match e with
  | KeyError k => py_repr k
  | ValueError msg => msg
  | AttributeError msg => msg
  | TypeError msg => msg
  | LibraryError msg => msg
  end.

Definition log_node_execution (run_id : Z) (node_id : option string)
    (message : string) (level : LogLevel) (rows_in rows_out : option nat)
  : M unit :=
  fun st =>
    (Ok tt,
     mkState (results st) (output_paths st)
             (run_log st
              ++ [mkLog run_id node_id level message rows_in rows_out])).

(** ** What the engine calls outside itself

    The file readers and writers of [app.utils.file_utils], the database
    and HTTP clients, the regular-expression engine and the pandas
    operations whose result is not spelled out here.  Each may raise. *)

Class Externals : Type := {
  load_csv : pyval -> pyval -> pyval -> result DataFrame;
  load_excel : pyval -> pyval -> result DataFrame;
  load_json : pyval -> result DataFrame;
  write_csv : DataFrame -> pyval -> result string;
  write_excel : DataFrame -> pyval -> result string;
  write_json : DataFrame -> pyval -> result string;
  create_engine : pyval -> result unit;
  read_sql_query : pyval -> pyval -> result DataFrame;
  read_sql_table : pyval -> pyval -> result DataFrame;
  to_sql : DataFrame -> dict pyval -> result unit;
  api_fetch : dict pyval -> result DataFrame;
  api_send : DataFrame -> dict pyval -> result unit;
  (** [series <op> value], element by element *)
  series_compare : string -> list cell -> pyval -> result (list bool);
  (** whether pandas lets [.str] be used on a column *)
  str_accessor_allowed : list cell -> bool;
  (** whether a pattern compiles, and [re.search(pattern, text)] *)
  re_valid : string -> bool;
  re_search : string -> string -> bool;
  (** [series.str.<method>()] and the other per-cell text rewrites *)
  str_method : string -> list cell -> result (list cell);
  (** [df.groupby(group_by).agg(agg_dict).reset_index()] *)
  groupby_agg : DataFrame -> pyval -> dict (list pyval) -> result MultiFrame;
  (** [df.merge(right_df, ...)] with the JOIN node's config *)
  pd_merge : DataFrame -> DataFrame -> dict pyval -> result DataFrame;
  (** the body of the remaining transform kinds: the new frame and the
      log message *)
  pandas_transform :
    string -> dict pyval -> DataFrame -> result (DataFrame * string)
}.

Section Engine.
Context {ext : Externals}.

Local Open Scope py_scope.

(** [node['subtype']] and [node['config']] *)
Definition node_subtype (node : Node) : result string :=
  match n_subtype node with
  | Some s => Ok s
  | None => Raise (KeyError (VStr "subtype"))
  end.

Definition node_config (node : Node) : result (dict pyval) :=
  match n_config node with
  | Some c => Ok c
  | None => Raise (KeyError (VStr "config"))
  end.

Definition node_type (node : Node) : result string :=
  match n_type node with
  | Some s => Ok s
  | None => Raise (KeyError (VStr "type"))
  end.

(** [f"... Available columns: {list(df.columns)}"] *)
Definition available (df : DataFrame) : string :=
  "Available columns: " +++ py_repr (VList (map VStr (df_columns df))).

Definition nonempty {A} (l : list A) : bool :=
  match l with [] => false | _ => true end.

(** [validate_transform_schema(node, df)] *)
Definition validate_transform_schema (node : Node) (df : DataFrame)
  : result unit :=
  subtype <- node_subtype node ;;
  config <- node_config node ;;
  let node_id := n_id node in
  let pre := "Node '" +++ node_id +++ "': " in
  let one_column (kind : string) :=
    let column := cfg_get config "column" in
    if truthy column then
      present <- col_in column (df_columns df) ;;
      if negb present then
        Raise (ValueError
                 (pre +++ kind +++ " requires column '" +++ py_str column
                  +++ "' which doesn't exist. " +++ available df))
      else Ok tt
    else Ok tt in
  if subtype =? "FILTER" then one_column "FILTER"
  else if subtype =? "SELECT" then
    columns <- py_iter (cfg_get_default config "columns" (VList [])) ;;
    missing <- missing_columns columns (df_columns df) ;;
    if nonempty missing then
      Raise (ValueError
               (pre +++ "SELECT requires columns " +++ py_repr (VList missing)
                +++ " which don't exist. " +++ available df))
    else Ok tt
  else if subtype =? "RENAME" then
    keys <- py_keys (cfg_get_default config "mapping" (VDict [])) ;;
    missing <- missing_columns keys (df_columns df) ;;
    if nonempty missing then
      Raise (ValueError
               (pre +++ "RENAME references columns "
                +++ py_repr (VList missing)
                +++ " which don't exist. " +++ available df))
    else Ok tt
  else if subtype =? "CAST" then one_column "CAST"
  else if subtype =? "AGGREGATE" then
    let group_by :=
      listify_str (cfg_get_default config "group_by" (VList [])) in
    cols <- py_iter group_by ;;
    missing <- missing_columns cols (df_columns df) ;;
    if nonempty missing then
      Raise (ValueError
               (pre +++ "AGGREGATE references group_by columns "
                +++ py_repr (VList missing)
                +++ " which don't exist. " +++ available df))
    else
      let aggregations := cfg_get_default config "aggregations" (VDict []) in
      agg_cols <- py_keys aggregations ;;
      missing_agg <- missing_columns agg_cols (df_columns df) ;;
      if nonempty missing_agg then
        Raise (ValueError
                 (pre +++ "AGGREGATE references aggregation columns "
                  +++ py_repr (VList missing_agg)
                  +++ " which don't exist. " +++ available df))
      else Ok tt
  else if subtype =? "SORT" then
    let columns :=
      listify_str (cfg_get_default config "columns" (VList [])) in
    cols <- py_iter columns ;;
    missing <- missing_columns cols (df_columns df) ;;
    if nonempty missing then
      Raise (ValueError
               (pre +++ "SORT requires columns " +++ py_repr (VList missing)
                +++ " which don't exist. " +++ available df))
    else Ok tt
  else Ok tt.

(** [execute_source_node] *)
Definition execute_source_node (node : Node) (run_id : Z) : M DataFrame :=
  (subtype <- lift (node_subtype node) ;;
   config <- lift (node_config node) ;;
   df <- lift
     (if subtype =? "CSV_SOURCE" then
        load_csv (cfg_get config "file_path")
                 (cfg_get_default config "delimiter" (VStr ","))
                 (cfg_get_default config "encoding" (VStr "utf-8"))
      else if subtype =? "EXCEL_SOURCE" then
        load_excel (cfg_get config "file_path")
                   (cfg_get_default config "sheet_name" (VInt 0))
      else if subtype =? "JSON_SOURCE" then
        load_json (cfg_get config "file_path")
      else if subtype =? "DB_SOURCE" then
        let connection_string := cfg_get config "connection_string" in
        if negb (truthy connection_string) then
          Raise (ValueError "DB_SOURCE requires 'connection_string'")
        else
          _ <- create_engine connection_string ;;
          let table_name := cfg_get config "table_name" in
          let query := cfg_get config "query" in
          if truthy query then read_sql_query connection_string query
          else if truthy table_name
               then read_sql_table connection_string table_name
          else Raise (ValueError
                        "DB_SOURCE requires either 'table_name' or 'query'")
      else if subtype =? "API_SOURCE" then
        if negb (truthy (cfg_get config "endpoint")) then
          Raise (ValueError "API_SOURCE requires 'endpoint'")
        else api_fetch config
      else Raise (ValueError ("Unknown source subtype: " +++ subtype)))%py ;;
   log_node_execution run_id (Some (n_id node))
     ("Loaded " +++ string_of_nat (df_len df) +++ " rows")
     INFO None (Some (df_len df)) ;;;
   ret df)%run.

(** [series.str.contains(pat, na=na)]: a cell that is not a string
    gets the value [na]. *)
Definition str_contains (pat : string) (na : bool) (series : list cell)
  : result (list bool) :=
  if negb (str_accessor_allowed series) then
    Raise (AttributeError "Can only use .str accessor with string values!")
  else if negb (re_valid pat) then
    Raise (LibraryError ("re.error: " +++ pat))
  else
    Ok (map (fun c => match c with
                      | CStr text => re_search pat text
                      | _ => na
                      end) series).

(** [df = df[df[column] <op> value]] *)
Definition compare_filter (op : string) (df : DataFrame)
    (column value : pyval) : result DataFrame :=
  series <- df_getitem df column ;;
  mask <- series_compare op series value ;;
  Ok (df_mask df mask).

Definition filter_transform (config : dict pyval) (df : DataFrame)
  : result (DataFrame * string) :=
  let column := cfg_get config "column" in
  let operator := cfg_get config "operator" in
  let value := cfg_get config "value" in
  df' <-
    (if is_str operator "==" then compare_filter "==" df column value
     else if is_str operator "!=" then compare_filter "!=" df column value
     else if is_str operator ">" then compare_filter ">" df column value
     else if is_str operator "<" then compare_filter "<" df column value
     else if is_str operator ">=" then compare_filter ">=" df column value
     else if is_str operator "<=" then compare_filter "<=" df column value
     else if is_str operator "contains" then
       series <- df_getitem df column ;;
       mask <- str_contains (py_str value) false series ;;
       Ok (df_mask df mask)
     else Raise (ValueError ("Unknown operator: " +++ py_str operator))) ;;
  Ok (df', "Filtered by " +++ py_str column +++ " " +++ py_str operator
           +++ " " +++ py_str value).

(** [a or b] on values *)
Definition pyval_or (a b : pyval) : pyval := if truthy a then a else b.

(** [agg.get(key)] on an aggregation entry *)
Definition entry_get (agg : pyval) (key : string) : pyval :=
  match agg with VDict d => cfg_get d key | _ => VNone end.

(** The loop [for agg in aggregations], filling [agg_dict] and
    [rename_map]; [rename_map] keeps its entries in assignment order,
    the last one for a key being the one in force. *)
Fixpoint build_aggs (aggs : list pyval) (columns : list string)
    (agg_dict : dict (list pyval))
    (rename_map : list ((string * pyval) * pyval))
  : result (dict (list pyval) * list ((string * pyval) * pyval)) :=
  match aggs with
  | [] => Ok (agg_dict, rename_map)
  | agg :: rest =>
      col <- py_subscript agg "column" ;;
      agg_func <- py_subscript agg "agg" ;;
      let output_name :=
        pyval_or (pyval_or (entry_get agg "as")
                           (entry_get agg "output_column"))
                 (VStr (py_str col +++ "_" +++ py_str agg_func)) in
      present <- col_in col columns ;;
      if negb present then
        Raise (ValueError ("Column '" +++ py_str col
                           +++ "' not found in dataframe"))
      else
        match col, agg_func with
        | VStr c, (VList _ | VDict _) =>
            Raise (TypeError ("unhashable type: "
                              +++ repr_str (py_type_name agg_func)))
        | VStr c, _ =>
            let funcs :=
              match dict_get agg_dict c with Some l => l | None => [] end in
            build_aggs rest columns
                       (dict_set agg_dict c (funcs ++ [agg_func]))
                       (rename_map ++ [((c, agg_func), output_name)])
        | _, _ => Raise (KeyError col)
        end
  end.

(** [rename_map.get((c0, c1), default)] *)
Definition rename_lookup (rename_map : list ((string * pyval) * pyval))
    (c0 c1 : string) (default : pyval) : pyval :=
  fold_left (fun acc entry =>
               let '((c, f), name) := entry in
               if (c =? c0) && is_str f c1 then name else acc)
            rename_map default.

Fixpoint lstrip_underscores (l : list ascii) : list ascii :=
  match l with
  | c :: rest =>
      if Ascii.eqb c "_"%char then lstrip_underscores rest else l
  | [] => []
  end.

(** [s.strip('_')] *)
Definition strip_underscores (s : string) : string :=
  string_of_list_ascii
    (rev (lstrip_underscores
            (rev (lstrip_underscores (list_ascii_of_string s))))).

Fixpoint all_strings (l : list pyval) : result (list string) :=
  match l with
  | [] => Ok []
  | VStr s :: rest => rest' <- all_strings rest ;; Ok (s :: rest')
  | v :: _ =>
      Raise (TypeError ("sequence item: expected str instance, "
                        +++ py_type_name v +++ " found"))
  end.

(** ['_'.join(col).strip('_')]: joining a string joins its
    characters. *)
Definition underscore_join (col : pyval) : result string :=
  items <- py_iter col ;;
  strs <- all_strings items ;;
  Ok (strip_underscores (join "_" strs)).

Fixpoint map_result {A B} (f : A -> result B) (l : list A)
  : result (list B) :=
  match l with
  | [] => Ok []
  | x :: rest => y <- f x ;; ys <- map_result f rest ;; Ok (y :: ys)
  end.

Definition aggregate_transform (config : dict pyval) (df : DataFrame)
  : result (DataFrame * string) :=
  let group_by := cfg_get_default config "group_by" (VList []) in
  let aggregations := cfg_get_default config "aggregations" (VList []) in
  if negb (truthy group_by) then
    Raise (ValueError "AGGREGATE requires at least one 'group_by' column")
  else if negb (truthy aggregations) then
    Raise (ValueError "AGGREGATE requires at least one aggregation")
  else
    aggs <- py_iter aggregations ;;
    ' (agg_dict, rename_map) <- build_aggs aggs (df_columns df) [] [] ;;
    grouped <- groupby_agg df group_by agg_dict ;;
    let new_cols :=
      map (fun col_tuple =>
             let '(c0, c1) := col_tuple in
             if negb (c1 =? EmptyString)
             then rename_lookup rename_map c0 c1 (VStr (c0 +++ "_" +++ c1))
             else VStr c0)
          (mf_columns grouped) in
    columns <- map_result underscore_join new_cols ;;
    Ok (mkDF columns (mf_rows grouped),
        "Aggregated by " +++ py_str group_by).

Definition join_transform (config : dict pyval) (df : DataFrame)
    (results_context : dict DataFrame) : result (DataFrame * string) :=
  let join_type := cfg_get_default config "join_type" (VStr "inner") in
  let left_on := cfg_get config "left_on" in
  let right_on := cfg_get config "right_on" in
  if negb (truthy left_on) then
    Raise (ValueError "JOIN requires 'left_on' column")
  else if negb (truthy right_on) then
    Raise (ValueError "JOIN requires 'right_on' column")
  else
    let right_node_id := cfg_get config "right_node_id" in
    let not_executed :=
      ValueError ("JOIN references node '" +++ py_str right_node_id
                  +++ "' which hasn't been executed yet. "
                  +++ "Ensure the join order is correct in your pipeline.") in
    if negb (truthy right_node_id) then
      Raise (ValueError
               ("JOIN requires 'right_node_id' to specify the second data source. "
                +++ "This should be automatically set based on the incoming edges."))
    else
      match right_node_id with
      | VStr r =>
          match dict_get results_context r with
          | None => Raise not_executed
          | Some right_df =>
              left_ok <- col_in left_on (df_columns df) ;;
              if negb left_ok then
                Raise (ValueError
                         ("Left join column '" +++ py_str left_on
                          +++ "' not found in left DataFrame. "
                          +++ available df))
              else
                right_ok <- col_in right_on (df_columns right_df) ;;
                if negb right_ok then
                  Raise (ValueError
                           ("Right join column '" +++ py_str right_on
                            +++ "' not found in right DataFrame. "
                            +++ available right_df))
                else
                  df' <- pd_merge df right_df config ;;
                  Ok (df', "Joined with " +++ r +++ " on "
                           +++ py_str left_on +++ "=" +++ py_str right_on
                           +++ " (" +++ py_str join_type +++ " join)")
          end
      | VList _ | VDict _ =>
          Raise (TypeError ("unhashable type: "
                            +++ repr_str (py_type_name right_node_id)))
      | _ => Raise not_executed
      end.

(** [df[column] = f(df[column])] *)
Definition update_column (df : DataFrame) (column : pyval)
    (f : list cell -> result (list cell)) : result DataFrame :=
  series <- df_getitem df column ;;
  series' <- f series ;;
  match column with
  | VStr c => Ok (df_setitem df c series')
  | _ => Ok df
  end.

(** STRING_TRANSFORM: a chain of [if]/[elif] on [operation] with no
    [else]. *)
Definition string_transform (config : dict pyval) (df : DataFrame)
  : result (DataFrame * string) :=
  let column := cfg_get config "column" in
  let operation := cfg_get config "operation" in
  df' <-
    (if is_str operation "trim" then
       update_column df column (str_method "strip")
     else if is_str operation "lowercase" then
       update_column df column (str_method "lower")
     else if is_str operation "uppercase" then
       update_column df column (str_method "upper")
     else if is_str operation "title" then
       update_column df column (str_method "title")
     else if is_str operation "remove_spaces" then
       update_column df column (str_method "remove_spaces")
     else if is_str operation "clean_phone" then
       update_column df column (str_method "clean_phone")
     else if is_str operation "parse_currency" then
       update_column df column (str_method "parse_currency")
     else if is_str operation "validate_email" then
       update_column df column (str_method "validate_email")
     else Ok df) ;;
  Ok (df', "Applied " +++ py_str operation +++ " to " +++ py_str column).

(** The transform kinds whose body is left to [pandas_transform]. *)
Definition library_transforms : list string :=
  ["SELECT"; "RENAME"; "CAST"; "SORT"; "FILL_MISSING"; "DROP_DUPLICATES";
   "NORMALIZE"; "FILTER_OUTLIERS"; "SPLIT_COLUMN"; "MERGE_COLUMNS";
   "EXTRACT_DATE_PARTS"; "BINNING"].

(** The dispatch on [subtype] inside the [try] of
    [execute_transform_node], up to the log message. *)
Definition transform_body (subtype : string) (config : dict pyval)
    (df : DataFrame) (results_context : dict DataFrame)
  : result (DataFrame * string) :=
  if subtype =? "FILTER" then filter_transform config df
  else if subtype =? "AGGREGATE" then aggregate_transform config df
  else if subtype =? "JOIN" then join_transform config df results_context
  else if subtype =? "STRING_TRANSFORM" then string_transform config df
  else if mem subtype library_transforms
       then pandas_transform subtype config df
  else Raise (ValueError ("Unknown transform subtype: " +++ subtype)).

Local Open Scope run_scope.

(** [execute_transform_node] *)
Definition execute_transform_node (node : Node) (input_df : DataFrame)
    (run_id : Z) (results_context : dict DataFrame) : M DataFrame :=
  subtype <- lift (node_subtype node) ;;
  config <- lift (node_config node) ;;
  let rows_in := df_len input_df in
  _ <- lift (validate_transform_schema node input_df) ;;
  let df := input_df in
  try_except
    (' (df', message) <-
       lift (transform_body subtype config df results_context) ;;
     let rows_out := df_len df' in
     log_node_execution run_id (Some (n_id node)) message INFO
                        (Some rows_in) (Some rows_out) ;;;
     ret df')
    (fun e =>
       log_node_execution run_id (Some (n_id node))
                          ("Transform failed: " +++ exn_str e) ERROR
                          (Some rows_in) None ;;;
       raise e).

(** [execute_load_node] *)
Definition execute_load_node (node : Node) (input_df : DataFrame)
    (run_id : Z) (pipeline_name : option string) : M string :=
  subtype <- lift (node_subtype node) ;;
  config <- lift (node_config node) ;;
  let rows_in := df_len input_df in
  let rows := string_of_nat rows_in in
  let default_basename :=
    if str_truthy pipeline_name
    then match pipeline_name with Some n => n | None => EmptyString end
    else "output_" +++ string_of_Z run_id in
  ' (output_path, message) <- lift
     (if subtype =? "CSV_LOAD" then
        (p <- write_csv input_df
                (pyval_or (cfg_get config "output_path")
                          (VStr (default_basename +++ ".csv"))) ;;
         Ok (p, "Wrote " +++ rows +++ " rows to CSV"))%py
      else if subtype =? "EXCEL_LOAD" then
        let output_path := cfg_get config "output_path" in
        if negb (truthy output_path) then
          Raise (ValueError
                   "EXCEL_LOAD requires 'output_path' to be specified")
        else
          (p <- write_excel input_df output_path ;;
           Ok (p, "Wrote " +++ rows +++ " rows to Excel"))%py
      else if subtype =? "JSON_LOAD" then
        (p <- write_json input_df
                (pyval_or (cfg_get config "output_path")
                          (VStr (default_basename +++ ".json"))) ;;
         Ok (p, "Wrote " +++ rows +++ " rows to JSON"))%py
      else if subtype =? "DB_LOAD" then
        let connection_string := cfg_get config "connection_string" in
        let table_name := cfg_get config "table_name" in
        if negb (truthy connection_string) then
          Raise (ValueError "DB_LOAD requires 'connection_string'")
        else if negb (truthy table_name) then
          Raise (ValueError "DB_LOAD requires 'table_name'")
        else
          (_ <- create_engine connection_string ;;
           _ <- to_sql input_df config ;;
           Ok ("database://" +++ py_str table_name,
               "Wrote " +++ rows +++ " rows to database table '"
               +++ py_str table_name +++ "'"))%py
      else if subtype =? "API_LOAD" then
        let endpoint := cfg_get config "endpoint" in
        if negb (truthy endpoint) then
          Raise (ValueError "API_LOAD requires 'endpoint'")
        else
          (_ <- api_send input_df config ;;
           Ok ("api://" +++ py_str endpoint,
               "Sent " +++ rows +++ " rows to API endpoint"))%py
      else Raise (ValueError ("Unknown load subtype: " +++ subtype))) ;;
  log_node_execution run_id (Some (n_id node)) message INFO
                     (Some rows_in) None ;;;
  ret output_path.

(** [results[node_id] = df] and [output_paths.append(output_path)] *)
Definition set_result (node_id : string) (df : DataFrame) : M unit :=
  fun st =>
    (Ok tt, mkState (dict_set (results st) node_id df)
                    (output_paths st) (run_log st)).

Definition append_output (output_path : string) : M unit :=
  fun st =>
    (Ok tt, mkState (results st) (output_paths st ++ [output_path])
                    (run_log st)).

Definition get_results : M (dict DataFrame) :=
  fun st => (Ok (results st), st).

(** [ValueError(f"Transform node {node_id} has no input")], and the
    same for a Load node: the error for a node without inbound edge. *)
Definition no_input_error (kind node_id : string) : exn :=
  ValueError (kind +++ " node " +++ node_id +++ " has no input").

(** [[e for e in edges if (e.get('to') or ...) == node_id]] *)
Definition incoming (edges : list Edge) (node_id : string) : list Edge :=
  filter (fun e => match edge_to3 e with
                   | Some t => t =? node_id
                   | None => false
                   end) edges.

(** The inbound edges of a node and the frame its first inbound edge
    points at: [results[from_node]]. *)
Definition primary_input (edges : list Edge) (node_id kind : string)
  : M (list Edge * DataFrame) :=
  let incoming_edges := incoming edges node_id in
  match incoming_edges with
  | [] => raise (no_input_error kind node_id)
  | first :: _ =>
      let from_node := edge_from3 first in
      results <- get_results ;;
      input_df <- lift (dict_item results from_node) ;;
      ret (incoming_edges, input_df)
  end.

(** [node['config']['right_node_id'] = right_node], on a config that
    is created when the node has none. *)
Definition with_right_node (node : Node) (right_node : pyval) : Node :=
  mkNode (n_id node) (n_type node) (n_subtype node)
         (Some (dict_set (config_of node) "right_node_id" right_node)).

(** The body of the [try] in the loop of [execute_pipeline]. *)
Definition node_body (edges : list Edge) (run_id : Z)
    (pipeline_name : option string) (node_id : string) (node : Node)
    (node_type : string) : M unit :=
  if node_type =? "SOURCE" then
    df <- execute_source_node node run_id ;;
    set_result node_id df
  else if node_type =? "TRANSFORM" then
    ' (incoming_edges, input_df) <-
      primary_input edges node_id "Transform" ;;
    let node' :=
      match incoming_edges with
      | _ :: second :: _ =>
          if subtype_is node "JOIN"
          then with_right_node node (opt_val (edge_from3 second))
          else node
      | _ => node
      end in
    results_context <- get_results ;;
    df <- execute_transform_node node' input_df run_id results_context ;;
    set_result node_id df
  else if node_type =? "LOAD" then
    ' (_, input_df) <- primary_input edges node_id "Load" ;;
    output_path <- execute_load_node node input_df run_id pipeline_name ;;
    append_output output_path
  else raise (ValueError ("Unknown node type: " +++ node_type)).

(** One turn of [for node_id in execution_order]. *)
Definition execute_node (node_map : dict Node) (edges : list Edge)
    (run_id : Z) (pipeline_name : option string) (node_id : string)
  : M unit :=
  node <- lift (dict_item node_map (Some node_id)) ;;
  node_type <- lift (node_type node) ;;
  try_except
    (node_body edges run_id pipeline_name node_id node node_type)
    (fun e =>
       log_node_execution run_id (Some node_id)
                          ("Node execution failed: " +++ exn_str e)
                          ERROR None None ;;;
       raise e).

Fixpoint execute_nodes (node_map : dict Node) (edges : list Edge)
    (run_id : Z) (pipeline_name : option string)
    (execution_order : list string) : M unit :=
  match execution_order with
  | [] => ret tt
  | node_id :: rest =>
      execute_node node_map edges run_id pipeline_name node_id ;;;
      execute_nodes node_map edges run_id pipeline_name rest
  end.

(** [{node['id']: node for node in nodes}] *)
Definition node_map_of (nodes : list Node) : dict Node :=
  fold_left (fun d n => dict_set d (n_id n) n) nodes [].

(** [execute_pipeline]: the returned path (or the exception) and the
    state the run ends in, starting from the log rows [log]. *)
Definition execute_pipeline (pipeline_json : Pipeline) (run_id : Z)
    (pipeline_name : option string) (log : list RunLog)
  : option (result (option string) * run_state) :=
  let nodes := p_nodes pipeline_json in
  let edges := p_edges pipeline_json in
  let node_map := node_map_of nodes in
  let st0 := mkState [] [] log in
  match topological_sort nodes edges with
  | None => None
  | Some (Raise (ValueError msg)) =>
      Some ((log_node_execution run_id None
               ("Pipeline validation failed: " +++ msg) ERROR None None ;;;
             raise (ValueError msg)) st0)
  | Some (Raise e) => Some (Raise e, st0)
  | Some (Ok execution_order) =>
      Some ((execute_nodes node_map edges run_id pipeline_name
                           execution_order ;;;
             fun st => (Ok (last (map Some (output_paths st)) None), st))
              st0)
  end.
End Engine.

(** Small graphs used below. *)
Definition node_of (i t : string) : Node := mkNode i (Some t) None None.
Definition edge_ft (f t : string) : Edge :=
  mkEdge (Some f) None None (Some t) None None.
Definition edge_st (f t : string) : Edge :=
  mkEdge None None (Some f) None None (Some t).

(** a -> b -> c *)
Definition chain_nodes : list Node :=
  [node_of "a" "SOURCE"; node_of "b" "TRANSFORM"; node_of "c" "LOAD"].
Definition chain_edges : list Edge := [edge_ft "a" "b"; edge_ft "b" "c"].

(** a -> b *)
Definition pair_nodes : list Node :=
  [node_of "a" "SOURCE"; node_of "b" "LOAD"].

(** The cycle a -> b -> a with the tail c -> a. *)
Definition tail_cycle_nodes : list Node :=
  [node_of "a" "TRANSFORM"; node_of "b" "TRANSFORM"; node_of "c" "SOURCE"].
Definition tail_cycle_edges : list Edge :=
  [edge_ft "a" "b"; edge_ft "b" "a"; edge_ft "c" "a"].


(** ** An in-memory instance of the external calls

    Files are a dictionary from path to frame, a regular expression is
    read as a literal substring, [.str] is allowed on columns holding
    only strings and missing values, and what is not needed below
    raises. *)

Definition unavailable {A} (what : string) : result A :=
  Raise (LibraryError (what +++ " is not available")).

Definition read_file (files : dict DataFrame) (file_path : pyval)
  : result DataFrame :=
  match file_path with
  | VStr p =>
      match dict_get files p with
      | Some df => Ok df
      | None => Raise (LibraryError ("File not found: " +++ p))
      end
  | _ => Raise (TypeError "expected str, bytes or os.PathLike object")
  end.

Definition write_file (df : DataFrame) (output_path : pyval)
  : result string :=
  match output_path with
  | VStr p => Ok p
  | _ => Raise (TypeError "expected str, bytes or os.PathLike object")
  end.

Definition is_text (c : cell) : bool :=
  match c with CNull | CStr _ => true | _ => false end.

Definition has_substring (pat text : string) : bool :=
  match String.index 0 pat text with Some _ => true | None => false end.

Definition in_memory (files : dict DataFrame) : Externals := {|
  load_csv := fun file_path _ _ => read_file files file_path;
  load_excel := fun file_path _ => read_file files file_path;
  load_json := fun file_path => read_file files file_path;
  write_csv := write_file;
  write_excel := write_file;
  write_json := write_file;
  create_engine := fun _ => unavailable "database";
  read_sql_query := fun _ _ => unavailable "database";
  read_sql_table := fun _ _ => unavailable "database";
  to_sql := fun _ _ => unavailable "database";
  api_fetch := fun _ => unavailable "network";
  api_send := fun _ _ => unavailable "network";
  series_compare := fun _ _ _ => unavailable "comparison";
  str_accessor_allowed := forallb is_text;
  re_valid := fun _ => true;
  re_search := has_substring;
  str_method := fun _ _ => unavailable "str method";
  groupby_agg := fun _ _ _ => unavailable "groupby";
  pd_merge := fun _ _ _ => unavailable "merge";
  pandas_transform := fun _ _ _ => unavailable "transform"
|}.

(** ** Sample nodes and frames *)

(** Rows {g:a,x:1}, {g:a,x:2}, {g:b,x:5}. *)
Definition group_frame : DataFrame :=
  mkDF ["g"; "x"]
       [[CStr "a"; CInt 1]; [CStr "a"; CInt 2]; [CStr "b"; CInt 5]].

(** AGGREGATE with group_by ["g"] and the aggregation
    {column: x, agg: sum, as: x_sum}. *)
Definition aggregate_config : dict pyval :=
  [("group_by", VList [VStr "g"]);
   ("aggregations",
    VList [VDict [("column", VStr "x"); ("agg", VStr "sum");
                  ("as", VStr "x_sum")]])].

Definition aggregate_node : Node :=
  mkNode "agg" (Some "TRANSFORM") (Some "AGGREGATE") (Some aggregate_config).

(** What pandas gives back for that aggregation: the labels (g, '') and
    (x, sum), and one row per group. *)
Definition grouped_frame : MultiFrame :=
  mkMF [("g", EmptyString); ("x", "sum")]
       [[CStr "a"; CInt 3]; [CStr "b"; CInt 5]].

Definition names_frame : DataFrame :=
  mkDF ["name"] [[CStr "alice"]; [CNull]; [CStr "bob"]].

Definition reverse_node : Node :=
  mkNode "t" (Some "TRANSFORM") (Some "STRING_TRANSFORM")
         (Some [("column", VStr "name"); ("operation", VStr "reverse")]).

Definition contains_node : Node :=
  mkNode "f" (Some "TRANSFORM") (Some "FILTER")
         (Some [("column", VStr "name"); ("operator", VStr "contains");
                ("value", VStr "li")]).

(** The operations STRING_TRANSFORM has a branch for. *)
Definition string_operations : list string :=
  ["trim"; "lowercase"; "uppercase"; "title"; "remove_spaces";
   "clean_phone"; "parse_currency"; "validate_email"].

(** S (CSV_SOURCE) -> L (CSV_LOAD) -> T (FILTER): the transform's
    first inbound edge comes from a LOAD node. *)
Definition after_load_pipeline : Pipeline :=
  mkPipeline
    [mkNode "S" (Some "SOURCE") (Some "CSV_SOURCE")
            (Some [("file_path", VStr "in.csv")]);
     mkNode "L" (Some "LOAD") (Some "CSV_LOAD")
            (Some [("output_path", VStr "out.csv")]);
     mkNode "T" (Some "TRANSFORM") (Some "FILTER")
            (Some [("column", VStr "name"); ("operator", VStr "contains");
                   ("value", VStr "li")])]
    [edge_ft "S" "L"; edge_ft "L" "T"].

Definition sample_files : dict DataFrame := [("in.csv", names_frame)].




(** [recs] is what a step added to the log, the rest of the state being
    as before. *)
Definition logged (st st' : run_state) (recs : list RunLog) : Prop :=
  results st' = results st /\
  output_paths st' = output_paths st /\
  run_log st' = run_log st ++ recs.

(** [log_node_execution] seen as a state change. *)
Definition with_log (st : run_state) (recs : list RunLog) : run_state :=
  mkState (results st) (output_paths st) (run_log st ++ recs).


(** ** The graph behind a pipeline definition, for stating properties *)

(** The endpoints [topological_sort] reads off an edge. *)
Definition edge_pair (e : Edge) : option (string * string) :=
  match edge_from2 e, edge_to2 e with
  | Some f, Some t => Some (f, t)
  | _, _ => None
  end.

Fixpoint edge_pairs (edges : list Edge) : list (string * string) :=
  match edges with
  | [] => []
  | e :: rest =>
      match edge_pair e with
      | Some p => p :: edge_pairs rest
      | None => edge_pairs rest
      end
  end.

(** Every edge names two node ids, under the keys [topological_sort]
    reads. *)
Definition edges_known (nodes : list Node) (edges : list Edge) : Prop :=
  forall e, In e edges ->
    exists f t, edge_from2 e = Some f /\ edge_to2 e = Some t /\
                In f (map n_id nodes) /\ In t (map n_id nodes).

Definition succs (E : list (string * string)) (u : string) : list string :=
  map snd (filter (fun p => fst p =? u) E).

Definition indeg (E : list (string * string)) (v : string) : nat :=
  List.length (filter (fun p => snd p =? v) E).

(** The in-edges of [v] whose source is not in [done]. *)
Definition rem_indeg (E : list (string * string)) (done : list string)
    (v : string) : nat :=
  List.length (filter (fun p => (snd p =? v) && negb (mem (fst p) done)) E).

(** The edge relation of a list of pairs. *)
Definition edge_in (E : list (string * string)) (u v : string) : Prop :=
  In (u, v) E.

(** [reach E u v]: a directed path of at least one edge from [u] to
    [v]. *)
Definition reach (E : list (string * string)) : string -> string -> Prop :=
  clos_trans_1n string (edge_in E).

Definition acyclic (E : list (string * string)) : Prop :=
  forall x, ~ reach E x x.

(** [u] occurs in [l], and at a smaller index than [v]. *)
Definition before (l : list string) (u v : string) : Prop :=
  exists i j, index_of u l = Some i /\ index_of v l = Some j /\ i < j.

Definition getZ (d : dict Z) (k : string) : Z :=
  match dict_get d k with Some z => z | None => 0%Z end.

(** A walk along [R]: every element is related to the next. *)
Fixpoint walk (R : string -> string -> Prop) (l : list string) : Prop :=
  match l with
  | [] => True
  | u :: rest =>
      match rest with
      | [] => True
      | v :: _ => R u v /\ walk R rest
      end
  end.


(** What holds each time the [while] loop of [topological_sort] tests
    [queue], for the graph [E] on the keys [K]. *)
Record kahn_inv (E : list (string * string)) (K : list string)
    (deg : dict Z) (q sorted : list string) : Prop := {
  inv_keys : dict_keys deg = K;
  inv_nodup : NoDup (sorted ++ q);
  inv_sub : forall v, In v (sorted ++ q) -> In v K;
  inv_deg : forall v, getZ deg v = Z.of_nat (rem_indeg E sorted v);
  inv_zero : forall v, In v K -> (In v (sorted ++ q) <-> getZ deg v = 0%Z);
  inv_order : forall u v, In (u, v) E -> In v sorted -> before sorted u v
}.

Abbreviation cnt := (count_occ string_dec).

(** ** Properties of the searches, for stating what they keep *)

(** What one call of [dfs] does to the state: [visited] only grows, and
    [errors] gets one message more when the call returns True, none
    when it returns False. *)
Definition is_cycle_message (m : string) : Prop :=
  exists cycle, m = "Cycle detected: " +++ cycle.

Definition dfs_post (s : dfs_state) (b : bool) (s' : dfs_state) : Prop :=
  incl (visited s) (visited s') /\
  exists new, errors s' = errors s ++ new /\
              List.length new = (if b then 1 else 0) /\
              Forall is_cycle_message new.

Definition call_post
    (call : string -> dfs_state -> option (result (bool * dfs_state)))
  : Prop :=
  forall n s b s', call n s = Some (Ok (b, s')) -> dfs_post s b s'.


(** The ids of [U] not yet in [visited], and the ids the adjacency
    lists hold. *)
Definition unvisited (U vis : list string) : list string :=
  filter (fun x => negb (mem x vis)) U.

Definition adj_targets (adjacency : dict (list string)) : list string :=
  List.concat (map snd adjacency).


(** [call] returns, on an unvisited id of [U], in any state that has
    fewer than [bound] ids of [U] left to visit. *)
Definition call_total (U : list string) (bound : nat)
    (call : string -> dfs_state -> option (result (bool * dfs_state)))
  : Prop :=
  forall nb s, In nb U -> mem nb (visited s) = false ->
               List.length (unvisited U (visited s)) < bound ->
               call nb s <> None.

Unset Implicit Arguments.

(** An edge of the adjacency lists. *)
Definition adj_edge (adjacency : dict (list string)) (u v : string) : Prop :=
  In v (neighbours adjacency u).

(** [F] lists the ids whose search is over, in the order they were
    finished: they are the visited ids that are off the stack, and
    every neighbour of a finished id was finished before it. *)
Record dfs_inv (adjacency : dict (list string)) (s : dfs_state)
    (F : list string) : Prop := {
  fin_visited : forall x, In x F -> In x (visited s);
  fin_off_stack : forall x, In x F -> ~ In x (rec_stack s);
  fin_cover : forall x, In x (visited s) -> In x F \/ In x (rec_stack s);
  fin_stack : forall x, In x (rec_stack s) -> In x (visited s);
  fin_closed : forall u v, In u F -> adj_edge adjacency u v -> before F v u
}.

(** What a call that returns False has done. *)
Definition call_clean (adjacency : dict (list string))
    (call : string -> dfs_state -> option (result (bool * dfs_state)))
  : Prop :=
  forall nb s s' F,
    call nb s = Some (Ok (false, s')) ->
    dfs_inv adjacency s F -> ~ In nb (visited s) ->
    exists F', dfs_inv adjacency s' (F ++ F') /\ In nb (F ++ F') /\
               rec_stack s' = rec_stack s.




(** An edge as the validator reads it: both endpoints truthy. *)
Definition edge3 (edges : list Edge) (u v : string) : Prop :=
  exists e, In e edges /\ edge_from3 e = Some u /\ edge_to3 e = Some v /\
            u <> EmptyString /\ v <> EmptyString.

Set Implicit Arguments.


(** ** Further notions and samples for the properties *)

(** The cycle a -> b -> a alone. *)
Definition loop_pipeline : Pipeline :=
  mkPipeline [node_of "a" "TRANSFORM"; node_of "b" "TRANSFORM"]
             [edge_ft "a" "b"; edge_ft "b" "a"].

Definition loop_errors : list string :=
  ["Cycle detected: a → b → a";
   "Pipeline must have at least one SOURCE node";
   "Pipeline must have at least one LOAD node"].

(** c <- a, c <- b, listed as b, c, a. *)
Definition fan_in_nodes : list Node :=
  [node_of "b" "SOURCE"; node_of "c" "LOAD"; node_of "a" "SOURCE"].
Definition fan_in_edges : list Edge := [edge_ft "a" "c"; edge_ft "b" "c"].

(** An edge as the validator reads it, with both endpoints among the
    node ids. *)
Definition edge_named (nodes : list Node) (e : Edge) : Prop :=
  exists f t, edge_from3 e = Some f /\ edge_to3 e = Some t /\
              f <> EmptyString /\ t <> EmptyString /\
              In f (map n_id nodes) /\ In t (map n_id nodes).

(** Some edge ends at [x], or starts at [x], with a truthy id. *)
Definition has_inbound (edges : list Edge) (x : string) : Prop :=
  exists e, In e edges /\ edge_to3 e = Some x /\ x <> EmptyString.

Definition has_outbound (edges : list Edge) (x : string) : Prop :=
  exists e, In e edges /\ edge_from3 e = Some x /\ x <> EmptyString.

(** What [detect_orphan_nodes] asks of a node, by its type. *)
Definition connected (edges : list Edge) (node : Node) : Prop :=
  if type_is node "SOURCE" then has_outbound edges (n_id node)
  else if type_is node "LOAD" then has_inbound edges (n_id node)
  else if type_is node "TRANSFORM"
       then has_inbound edges (n_id node) /\ has_outbound edges (n_id node)
  else has_inbound edges (n_id node) \/ has_outbound edges (n_id node).

(** a (CSV_SOURCE) -> b (CSV_LOAD), both configured. *)
Definition copy_pipeline : Pipeline :=
  mkPipeline
    [mkNode "a" (Some "SOURCE") (Some "CSV_SOURCE")
            (Some [("file_path", VStr "in.csv")]);
     mkNode "b" (Some "LOAD") (Some "CSV_LOAD")
            (Some [("output_path", VStr "out.csv")])]
    [edge_ft "a" "b"].

(** An INFO record of the run [run_id] for the node [node_id]. *)
Definition info_record (run_id : Z) (node_id : string) (r : RunLog) : Prop :=
  log_run_id r = run_id /\ log_node_id r = Some node_id /\ log_level r = INFO.

(** What a step that completes leaves for a node, by its type: a frame
    under its id, or one more output path. *)
Definition stores_frame (node_id : string) (st st' : run_state) : Prop :=
  exists df, results st' = dict_set (results st) node_id df /\
             output_paths st' = output_paths st.

Definition adds_output (st st' : run_state) : Prop :=
  exists p, results st' = results st /\
            output_paths st' = output_paths st ++ [p].

(** [node_map[node_id]['type']] as a string, or nothing. *)
Definition type_of (node_map : dict Node) (node_id : string) : option string :=
  match dict_get node_map node_id with
  | Some node => n_type node
  | None => None
  end.

Definition is_load (node_map : dict Node) (node_id : string) : bool :=
  match type_of node_map node_id with
  | Some t => t =? "LOAD"
  | None => false
  end.

(** A run of the copy pipeline on the sample files. *)
Definition copy_run_state : run_state :=
  mkState [("a", names_frame)] ["out.csv"]
          [mkLog 7 (Some "a") INFO "Loaded 3 rows" None (Some 3);
           mkLog 7 (Some "b") INFO "Wrote 3 rows to CSV" (Some 3) None].

(** The operators FILTER has a branch for. *)
Definition filter_operators : list string :=
  ["=="; "!="; ">"; "<"; ">="; "<="; "contains"].

(** left (L) and right (R) feed the JOIN node J, in this order. *)
Definition join_edges : list Edge := [edge_ft "L" "J"; edge_ft "R" "J"].

Definition join_node : Node :=
  mkNode "J" (Some "TRANSFORM") (Some "JOIN")
         (Some [("left_on", VStr "name"); ("right_on", VStr "name");
                ("right_node_id", VStr "L")]).

Definition join_state : run_state :=
  mkState [("L", names_frame); ("R", names_frame)] [] [].

Definition no_column_filter : Node :=
  mkNode "f" (Some "TRANSFORM") (Some "FILTER")
         (Some [("operator", VStr "=="); ("value", VInt 1)]).

(** ** File names ([app/utils/file_utils.py])

    A character is a code point below 256, and [os.path] is
    [posixpath]. *)

Definition in_range (lo hi n : nat) : bool := (lo <=? n)%nat && (n <=? hi)%nat.

(** [char.isalnum()] *)
Definition isalnum (char : ascii) : bool :=
  let n := nat_of_ascii char in
  in_range 48 57 n || in_range 65 90 n || in_range 97 122 n
  || (n =? 170)%nat || in_range 178 179 n || (n =? 181)%nat
  || in_range 185 186 n || in_range 188 190 n
  || in_range 192 214 n || in_range 216 246 n || in_range 248 255 n.

(** [char.isalnum() or char in ['-', '_', '.']] *)
Definition is_safe_char (char : ascii) : bool :=
  isalnum char || existsb (Ascii.eqb char) ["-"; "_"; "."]%char.

(** [s.rfind(sub)] for a one-character [sub]: the highest index, or
    -1. *)
Fixpoint rfind_from (sub : ascii) (s : string) (i found : Z) : Z :=
  match s with
  | EmptyString => found
  | String c rest =>
      rfind_from sub rest (i + 1) (if Ascii.eqb c sub then i else found)
  end.

Definition rfind (s : string) (sub : ascii) : Z := rfind_from sub s 0 (-1).

(** [s[i:]] *)
Fixpoint slice_from (i : nat) (s : string) : string :=
  match i, s with
  | O, _ => s
  | S i', String _ rest => slice_from i' rest
  | S _, EmptyString => EmptyString
  end.

(** [os.path.basename(p)] *)
Definition basename (p : string) : string :=
  let i := (rfind p "/" + 1)%Z in
  slice_from (Z.to_nat i) p.

(** The loop of [sanitize_filename] and the [''.join] after it. *)
Fixpoint safe_chars (filename : string) : string :=
  match filename with
  | EmptyString => EmptyString
  | String char rest =>
      String (if is_safe_char char then char else "_"%char) (safe_chars rest)
  end.

Definition sanitize_filename (filename : string) : string :=
  let filename := basename filename in
  safe_chars filename.





(** Every character of [s] passes [p]. *)
Fixpoint all_chars (p : ascii -> bool) (s : string) : bool :=
  match s with
  | EmptyString => true
  | String c rest => p c && all_chars p rest
  end.

Definition no_slash (s : string) : bool :=
  all_chars (fun c => negb (Ascii.eqb c "/")) s.

(** The index of the last [sub] in [s], counted from the front. *)
Fixpoint last_index (sub : ascii) (s : string) : option nat :=
  match s with
  | EmptyString => None
  | String c rest =>
      match last_index sub rest with
      | Some k => Some (S k)
      | None => if Ascii.eqb c sub then Some 0 else None
      end
  end.


(** ** Schema compatibility ([validation.py]) *)






(** ** The worker task ([app/tasks/worker_tasks.py])

    The tables the task reads and writes, as rows under their primary
    key.  Every commit goes through; the time stamps of a run are left
    out. *)

Inductive RunStatus : Type := PENDING | RUNNING | SUCCESS | FAILED | CANCELLED.

Record PipelineRun : Type := mkRun {
  run_status : RunStatus;
  result_location : option string;
  error_message : option string
}.

Record StoredPipeline : Type := mkStored {
  sp_name : string;
  pipeline_json : Pipeline
}.

Record database : Type := mkDb {
  db_runs : list (Z * PipelineRun);
  db_pipelines : list (Z * StoredPipeline);
  db_logs : list RunLog
}.

(** [db.query(T).filter(T.id == id).first()] *)
Fixpoint row_get {A} (id : Z) (rows : list (Z * A)) : option A :=
  match rows with
  | [] => None
  | (k, a) :: rest => if (k =? id)%Z then Some a else row_get id rest
  end.

(** Writing the fields of the row fetched under [id]. *)
Fixpoint row_set {A} (id : Z) (a : A) (rows : list (Z * A)) : list (Z * A) :=
  match rows with
  | [] => []
  | (k, a') :: rest =>
      if (k =? id)%Z then (k, a) :: rest else (k, a') :: row_set id a rest
  end.

Definition set_run (run_id : Z) (run : PipelineRun) (db : database)
  : database :=
  mkDb (row_set run_id run (db_runs db)) (db_pipelines db) (db_logs db).

(** [db.add(log); db.commit()] *)
Definition add_log (log : RunLog) (db : database) : database :=
  mkDb (db_runs db) (db_pipelines db) (db_logs db ++ [log]).

Definition set_logs (logs : list RunLog) (db : database) : database :=
  mkDb (db_runs db) (db_pipelines db) logs.

Section Worker.
Context {ext : Externals}.

(** The body of the [try] of [run_pipeline_task]: the value returned
    (the output path of the dictionary it returns) or the exception,
    and the tables as they are then. *)
Definition task_body (run_id pipeline_id : Z) (db : database)
  : option (result (option string) * database) :=
  match row_get run_id (db_runs db) with
  | None =>
      Some (Raise (ValueError ("Run " +++ string_of_Z run_id +++ " not found")),
            db)
  | Some run =>
      let db :=
        set_run run_id
                (mkRun RUNNING (result_location run) (error_message run)) db in
      match row_get pipeline_id (db_pipelines db) with
      | None =>
          Some (Raise (ValueError ("Pipeline " +++ string_of_Z pipeline_id
                                   +++ " not found")), db)
      | Some pipeline =>
          let start_log :=
            mkLog run_id None INFO
                  ("Starting pipeline execution: " +++ sp_name pipeline)
                  None None in
          let db := add_log start_log db in
          match execute_pipeline (pipeline_json pipeline) run_id None
                                 (db_logs db) with
          | None => None
          | Some (Raise e, st) => Some (Raise e, set_logs (run_log st) db)
          | Some (Ok output_path, st) =>
              let db := set_logs (run_log st) db in
              let db :=
                set_run run_id
                        (mkRun SUCCESS output_path (error_message run)) db in
              let success_log :=
                mkLog run_id None INFO
                      ("Pipeline completed successfully. Output: "
                       +++ py_str (opt_val output_path)) None None in
              Some (Ok output_path, add_log success_log db)
          end
      end
  end.

(** [run_pipeline_task(run_id, pipeline_id)] *)
Definition run_pipeline_task (run_id pipeline_id : Z) (db : database)
  : option (result (option string) * database) :=
  match task_body run_id pipeline_id db with
  | None => None
  | Some (Ok output, db) => Some (Ok output, db)
  | Some (Raise e, db) =>
      let db :=
        match row_get run_id (db_runs db) with
        | Some run =>
            set_run run_id
                    (mkRun FAILED (result_location run) (Some (exn_str e))) db
        | None => db
        end in
      let error_log :=
        mkLog run_id None ERROR
              ("Pipeline execution failed: " +++ exn_str e) None None in
      Some (Raise e, add_log error_log db)
  end.
End Worker.

(** A database with the copy pipeline under 1 and a pending run of it
    under 7. *)
Definition sample_db : database :=
  mkDb [(7%Z, mkRun PENDING None None)]
       [(1%Z, mkStored "copy" copy_pipeline)] [].

(** The same database once the task has run on the sample files. *)
Definition sample_db_after : database :=
  mkDb [(7%Z, mkRun SUCCESS (Some "out.csv") None)]
       [(1%Z, mkStored "copy" copy_pipeline)]
       [mkLog 7 None INFO "Starting pipeline execution: copy" None None;
        mkLog 7 (Some "a") INFO "Loaded 3 rows" None (Some 3);
        mkLog 7 (Some "b") INFO "Wrote 3 rows to CSV" (Some 3) None;
        mkLog 7 None INFO "Pipeline completed successfully. Output: out.csv"
              None None].



(** [pipeline_name if pipeline_name else f'output_{run_id}'] *)
Definition default_basename (pipeline_name : option string) (run_id : Z)
  : string :=
  if str_truthy pipeline_name
  then match pipeline_name with Some n => n | None => EmptyString end
  else "output_" +++ string_of_Z run_id.


(** a (CSV_SOURCE) -> n, where n gives no type. *)
Definition untyped_pipeline : Pipeline :=
  mkPipeline
    [mkNode "a" (Some "SOURCE") (Some "CSV_SOURCE")
            (Some [("file_path", VStr "in.csv")]);
     mkNode "n" None (Some "CSV_LOAD") (Some [])]
    [edge_ft "a" "n"].

Definition untyped_map : dict Node := node_map_of (p_nodes untyped_pipeline).

Definition after_source_state : run_state :=
  mkState [("a", names_frame)] []
          [mkLog 7 (Some "a") INFO "Loaded 3 rows" None (Some 3)].

(** ** File extensions ([app/utils/file_utils.py]) *)

(** [s[:i]] *)
Fixpoint slice_to (i : nat) (s : string) : string :=
  match i, s with
  | O, _ => EmptyString
  | S i', String c rest => String c (slice_to i' rest)
  | S _, EmptyString => EmptyString
  end.

(** [char.lower()] *)
Definition lower_char (char : ascii) : ascii :=
  let n := nat_of_ascii char in
  if in_range 65 90 n || in_range 192 214 n || in_range 216 222 n
  then ascii_of_nat (n + 32)
  else char.

(** [s.lower()] *)
Fixpoint lower (s : string) : string :=
  match s with
  | EmptyString => EmptyString
  | String c rest => String (lower_char c) (lower rest)
  end.

(** The loop of [os.path.splitext] that skips the leading dots of the
    last component: [n] is the distance left to [dotIndex]. *)
Fixpoint skip_dots (n : nat) (p : string) (filenameIndex dotIndex : nat)
  : string * string :=
  match n with
  | O => (p, EmptyString)
  | S n' =>
      match String.get filenameIndex p with
      | Some c =>
          if negb (Ascii.eqb c ".")
          then (slice_to dotIndex p, slice_from dotIndex p)
          else skip_dots n' p (S filenameIndex) dotIndex
      | None => (slice_to dotIndex p, slice_from dotIndex p)
      end
  end.

(** [os.path.splitext(p)] *)
Definition splitext (p : string) : string * string :=
  let sepIndex := rfind p "/" in
  let dotIndex := rfind p "." in
  if (dotIndex >? sepIndex)%Z then
    let filenameIndex := (sepIndex + 1)%Z in
    skip_dots (Z.to_nat (dotIndex - filenameIndex)) p
              (Z.to_nat filenameIndex) (Z.to_nat dotIndex)
  else (p, EmptyString).

(** [validate_file_extension(filename, allowed_extensions)] *)
Definition validate_file_extension (filename : string)
    (allowed_extensions : list string) : bool :=
  let file_ext := lower (snd (splitext filename)) in
  mem file_ext allowed_extensions.

(** [settings.ALLOWED_EXTENSIONS] *)
Definition ALLOWED_EXTENSIONS : list string :=
  [".csv"; ".xlsx"; ".xls"; ".json"].

(** The extension [save_upload_file] gives the stored file: that of the
    sanitised name. *)
Definition stored_extension (filename : string) : string :=
  let safe_filename := sanitize_filename filename in
  snd (splitext safe_filename).

Definition is_dot (c : ascii) : bool := Ascii.eqb c ".".

(** The extension of a name without directory part: what starts at its
    last dot, unless only dots come before. *)
Definition ext_of (name : string) : string :=
  match last_index "." name with
  | Some k =>
      if all_chars is_dot (slice_to k name) then EmptyString
      else slice_from k name
  | None => EmptyString
  end.


(** * Properties *)

Unset Implicit Arguments.

(** ** Dictionaries and sets *)
Section DictFacts.
Variable V : Type.
Implicit Types (d : dict V) (k : string) (v : V).

Lemma dict_get_set_same d k v : dict_get (dict_set d k v) k = Some v.
Proof.
  induction d as [|[k' v'] d IH]; simpl.
  - now rewrite String.eqb_refl.
  - destruct (k' =? k) eqn:Hk; simpl; rewrite Hk; auto.
Qed.

Lemma dict_get_set_other d k k' v :
  k <> k' -> dict_get (dict_set d k v) k' = dict_get d k'.
Proof.
  intros Hne. induction d as [|[k0 v0] d IH]; simpl.
  - destruct (k =? k') eqn:Hk; auto. apply String.eqb_eq in Hk. contradiction.
  - destruct (k0 =? k) eqn:Hk; simpl.
    + apply String.eqb_eq in Hk. subst k0.
      destruct (k =? k') eqn:Hk'; auto.
      apply String.eqb_eq in Hk'. contradiction.
    + destruct (k0 =? k'); auto.
Qed.

Lemma dict_get_In d k : In k (dict_keys d) <-> exists v, dict_get d k = Some v.
Proof.
  induction d as [|[k0 v0] d IH]; simpl.
  - split; [tauto | intros [v Hv]; discriminate].
  - destruct (k0 =? k) eqn:Hk.
    + apply String.eqb_eq in Hk. split; eauto.
    + apply String.eqb_neq in Hk. rewrite IH. split.
      * intros [H|H]; [contradiction | auto].
      * auto.
Qed.

Lemma dict_keys_set_in d k v :
  In k (dict_keys d) -> dict_keys (dict_set d k v) = dict_keys d.
Proof.
  induction d as [|[k0 v0] d IH]; simpl; [tauto|].
  intros H. destruct (k0 =? k) eqn:Hk; simpl; auto.
  apply String.eqb_neq in Hk. f_equal. apply IH. destruct H; [contradiction|auto].
Qed.

Lemma dict_keys_set_notin d k v :
  ~ In k (dict_keys d) -> dict_keys (dict_set d k v) = dict_keys d ++ [k].
Proof.
  induction d as [|[k0 v0] d IH]; simpl; auto.
  intros H. destruct (k0 =? k) eqn:Hk; simpl.
  - apply String.eqb_eq in Hk. tauto.
  - f_equal. apply IH. tauto.
Qed.
End DictFacts.

Lemma mem_In x l : mem x l = true <-> In x l.
Proof.
  unfold mem. rewrite existsb_exists. split.
  - intros [y [Hy He]]. apply String.eqb_eq in He. now subst.
  - intros H. exists x. split; auto. apply String.eqb_refl.
Qed.

Lemma mem_false x l : mem x l = false <-> ~ In x l.
Proof.
  rewrite <- mem_In. destruct (mem x l); split; congruence.
Qed.

(** The keys of [dict_of_nodes]: the node ids, each once. *)
Lemma dict_of_nodes_acc {V} (init : V) nodes : forall d,
  NoDup (dict_keys d) ->
  (forall k v, dict_get d k = Some v -> v = init) ->
  let d' := fold_left (fun d n => dict_set d (n_id n) init) nodes d in
  NoDup (dict_keys d') /\
  (forall k, In k (dict_keys d') <-> In k (dict_keys d) \/ In k (map n_id nodes)) /\
  (forall k v, dict_get d' k = Some v -> v = init).
Proof.
  induction nodes as [|n nodes IH]; intros d Hnd Hinit; simpl.
  - repeat split; auto; tauto.
  - assert (Hnd' : NoDup (dict_keys (dict_set d (n_id n) init))).
    { destruct (in_dec string_dec (n_id n) (dict_keys d)) as [Hin|Hin].
      - rewrite dict_keys_set_in; auto.
      - rewrite dict_keys_set_notin; auto.
        apply NoDup_app; auto.
        + constructor; [simpl; tauto | constructor].
        + intros x Hx [Hy|[]]. subst; tauto. }
    assert (Hinit' : forall k v, dict_get (dict_set d (n_id n) init) k = Some v -> v = init).
    { intros k v. destruct (string_dec (n_id n) k) as [->|Hne].
      - rewrite dict_get_set_same. congruence.
      - rewrite dict_get_set_other; auto. apply Hinit. }
    destruct (IH _ Hnd' Hinit') as (H1 & H2 & H3).
    repeat split; auto.
    + intros Hk. apply H2 in Hk. destruct Hk as [Hk|Hk]; auto.
      destruct (in_dec string_dec (n_id n) (dict_keys d)) as [Hin|Hin].
      * rewrite dict_keys_set_in in Hk; auto.
      * rewrite dict_keys_set_notin in Hk; auto. apply in_app_or in Hk.
        destruct Hk as [Hk|[Hk|[]]]; auto.
    + intros Hk. apply H2.
      destruct (in_dec string_dec (n_id n) (dict_keys d)) as [Hin|Hin].
      * rewrite dict_keys_set_in; auto. destruct Hk as [Hk|[Hk|Hk]]; auto.
        subst; auto.
      * rewrite dict_keys_set_notin; auto. rewrite in_app_iff. simpl.
        destruct Hk as [Hk|[Hk|Hk]]; auto.
Qed.

Lemma dict_of_nodes_keys {V} (init : V) nodes :
  NoDup (dict_keys (dict_of_nodes init nodes)) /\
  (forall k, In k (dict_keys (dict_of_nodes init nodes)) <-> In k (map n_id nodes)) /\
  (forall k v, dict_get (dict_of_nodes init nodes) k = Some v -> v = init).
Proof.
  unfold dict_of_nodes.
  destruct (@dict_of_nodes_acc V init nodes []) as (H1 & H2 & H3).
  - constructor.
  - intros k v; discriminate.
  - repeat split; auto.
    + intros Hk. apply H2 in Hk. destruct Hk as [[]|]; auto.
    + intros Hk. apply H2. auto.
Qed.

(** ** The edge loop of [topological_sort] *)
Lemma dict_item_Ok {V} (d : dict V) k v :
  dict_item d k = Ok v -> exists s, k = Some s /\ dict_get d s = Some v.
Proof.
  unfold dict_item. destruct k as [s|]; [|discriminate].
  destruct (dict_get d s) eqn:H; [|discriminate].
  intros [= ->]. eauto.
Qed.

Lemma succs_cons f t E u :
  succs ((f, t) :: E) u = if f =? u then t :: succs E u else succs E u.
Proof. unfold succs. simpl. destruct (f =? u); reflexivity. Qed.

Lemma indeg_cons f t E v :
  indeg ((f, t) :: E) v = if t =? v then S (indeg E v) else indeg E v.
Proof. unfold indeg. simpl. destruct (t =? v); reflexivity. Qed.

Lemma getZ_set_same d k z : getZ (dict_set d k z) k = z.
Proof. unfold getZ. now rewrite dict_get_set_same. Qed.

Lemma getZ_set_other d k k' z : k <> k' -> getZ (dict_set d k z) k' = getZ d k'.
Proof. intros H. unfold getZ. now rewrite dict_get_set_other. Qed.

Lemma build_graph_spec : forall edges adj deg adj' deg',
  build_graph adj deg edges = Ok (adj', deg') ->
  dict_keys adj' = dict_keys adj /\
  dict_keys deg' = dict_keys deg /\
  (forall f t, In (f, t) (edge_pairs edges) ->
               In f (dict_keys adj) /\ In t (dict_keys deg)) /\
  (forall u l, dict_get adj u = Some l ->
               dict_get adj' u = Some (l ++ succs (edge_pairs edges) u)) /\
  (forall v, getZ deg' v = (getZ deg v + Z.of_nat (indeg (edge_pairs edges) v))%Z).
Proof.
  induction edges as [|e edges IH]; intros adj deg adj' deg' H; simpl in H.
  - injection H as <- <-. split; [auto|]. split; [auto|]. split; [|split].
    + intros f t [].
    + intros u l Hl. simpl. now rewrite app_nil_r.
    + intros v. unfold indeg. simpl. lia.
  - destruct (dict_item adj (edge_from2 e)) as [l|] eqn:Hf; [|discriminate].
    simpl in H.
    destruct (dict_item deg (edge_to2 e)) as [d|] eqn:Ht; [|discriminate].
    simpl in H.
    apply dict_item_Ok in Hf. destruct Hf as (f & Hf & Hgf).
    apply dict_item_Ok in Ht. destruct Ht as (t & Ht & Hgt).
    rewrite Hf, Ht in H.
    assert (Hinf : In f (dict_keys adj)) by (apply dict_get_In; eauto).
    assert (Hint : In t (dict_keys deg)) by (apply dict_get_In; eauto).
    apply IH in H. destruct H as (K1 & K2 & K3 & K4 & K5).
    rewrite dict_keys_set_in in K1, K3 by auto.
    rewrite dict_keys_set_in in K2, K3 by auto.
    simpl. unfold edge_pair. rewrite Hf, Ht.
    split; [auto|]. split; [auto|]. split; [|split].
    + intros f0 t0 [H|H]; [injection H as <- <-; auto | apply K3 in H; tauto].
    + intros u l0 Hl0. rewrite succs_cons.
      destruct (f =? u) eqn:Hfu.
      * apply String.eqb_eq in Hfu. subst u.
        rewrite Hgf in Hl0. injection Hl0 as <-.
        rewrite (K4 f (l ++ [t])); [|apply dict_get_set_same].
        now rewrite <- app_assoc.
      * apply String.eqb_neq in Hfu. apply K4.
        rewrite dict_get_set_other; auto.
    + intros v. rewrite K5, indeg_cons.
      destruct (t =? v) eqn:Htv.
      * apply String.eqb_eq in Htv. subst v. rewrite getZ_set_same.
        unfold getZ. rewrite Hgt. lia.
      * apply String.eqb_neq in Htv. rewrite getZ_set_other; auto.
Qed.

Lemma build_graph_ok : forall edges adj deg,
  (forall e, In e edges ->
     exists f t, edge_from2 e = Some f /\ edge_to2 e = Some t /\
                 In f (dict_keys adj) /\ In t (dict_keys deg)) ->
  exists adj' deg', build_graph adj deg edges = Ok (adj', deg').
Proof.
  induction edges as [|e edges IH]; intros adj deg H; simpl.
  - eauto.
  - destruct (H e (or_introl eq_refl)) as (f & t & Hf & Ht & Hif & Hit).
    rewrite Hf, Ht. simpl.
    apply dict_get_In in Hif. destruct Hif as [l Hl].
    apply dict_get_In in Hit. destruct Hit as [d Hd].
    rewrite Hl. simpl. rewrite Hd. simpl.
    apply IH. intros e' He'.
    destruct (H e' (or_intror He')) as (f' & t' & ? & ? & ? & ?).
    exists f', t'. repeat split; auto.
    + rewrite dict_keys_set_in; auto. apply dict_get_In; eauto.
    + rewrite dict_keys_set_in; auto. apply dict_get_In; eauto.
Qed.

(** ** The loop over the neighbours of a dequeued node *)
Lemma NoDup_snoc (l : list string) x : NoDup l -> ~ In x l -> NoDup (l ++ [x]).
Proof.
  intros Hl Hx. apply NoDup_app; auto.
  - constructor; [simpl; tauto | constructor].
  - intros y Hy [->|[]]. contradiction.
Qed.


Lemma relax_spec : forall nbrs deg q pre,
  (forall v, In v nbrs -> In v (dict_keys deg)) ->
  (forall v, (Z.of_nat (cnt nbrs v) <= getZ deg v)%Z) ->
  (forall v, In v (pre ++ q) -> getZ deg v = 0%Z) ->
  NoDup (pre ++ q) ->
  exists deg' q',
    relax nbrs deg q = Ok (deg', q') /\
    dict_keys deg' = dict_keys deg /\
    (forall v, getZ deg' v = (getZ deg v - Z.of_nat (cnt nbrs v))%Z) /\
    NoDup (pre ++ q') /\
    (forall v, In v q' <->
               In v q \/ (In v nbrs /\ getZ deg v = Z.of_nat (cnt nbrs v))).
Proof.
  induction nbrs as [|n rest IH]; intros deg q pre Hkeys Hcnt Hzero Hnd.
  - exists deg, q. split; [reflexivity|]. split; [reflexivity|].
    split; [intros v; simpl; lia|]. split; [exact Hnd|].
    intros v. simpl. tauto.
  - simpl relax.
    assert (Hn : In n (dict_keys deg)) by (apply Hkeys; now left).
    apply dict_get_In in Hn. destruct Hn as [d Hd].
    unfold dict_item. rewrite Hd. simpl bind.
    assert (Hgd : getZ deg n = d) by (unfold getZ; now rewrite Hd).
    assert (Hd1 : (Z.of_nat (cnt rest n) <= d - 1)%Z).
    { specialize (Hcnt n). rewrite count_occ_cons_eq in Hcnt by reflexivity. lia. }
    assert (Hnot : ~ In n (pre ++ q)).
    { intros Hin. apply Hzero in Hin. lia. }
    set (deg1 := dict_set deg n (d - 1)%Z).
    assert (Hkeys1 : dict_keys deg1 = dict_keys deg).
    { apply dict_keys_set_in. apply dict_get_In. eauto. }
    assert (Hcnt1 : forall v, (Z.of_nat (cnt rest v) <= getZ deg1 v)%Z).
    { intros v. destruct (string_dec n v) as [<-|Hne].
      - unfold deg1. rewrite getZ_set_same. exact Hd1.
      - unfold deg1. rewrite getZ_set_other by auto.
        specialize (Hcnt v). rewrite count_occ_cons_neq in Hcnt; auto. }
    assert (Hget1 : forall v, v <> n -> getZ deg1 v = getZ deg v).
    { intros v Hv. unfold deg1. apply getZ_set_other. congruence. }
    assert (Hkeys' : forall v, In v rest -> In v (dict_keys deg1)).
    { intros v Hv. rewrite Hkeys1. apply Hkeys. now right. }
    destruct (d - 1 =? 0)%Z eqn:Hz.
    + apply Z.eqb_eq in Hz.
      destruct (IH deg1 (q ++ [n]) pre Hkeys' Hcnt1) as (deg' & q' & R & K & G & N & I).
      * intros v Hv. rewrite app_assoc in Hv. apply in_app_or in Hv.
        destruct Hv as [Hv|[<-|[]]].
        -- rewrite Hget1; auto. intros ->. contradiction.
        -- unfold deg1. rewrite getZ_set_same. exact Hz.
      * rewrite app_assoc. apply NoDup_snoc; auto.
      * exists deg', q'. split; [exact R|]. split; [congruence|].
        split; [|split; [exact N|]].
        -- intros v. rewrite G. destruct (string_dec n v) as [<-|Hne].
           ++ unfold deg1. rewrite getZ_set_same, count_occ_cons_eq by reflexivity. lia.
           ++ rewrite Hget1 by congruence. rewrite count_occ_cons_neq by auto. lia.
        -- intros v. rewrite I. rewrite in_app_iff. cbn [In].
           destruct (string_dec n v) as [<-|Hne].
           ++ rewrite count_occ_cons_eq by reflexivity. split; intros _.
              ** right. split; auto. lia.
              ** left. right. auto.
           ++ rewrite Hget1 by congruence. rewrite count_occ_cons_neq by auto.
              tauto.
    + apply Z.eqb_neq in Hz.
      destruct (IH deg1 q pre Hkeys' Hcnt1) as (deg' & q' & R & K & G & N & I).
      * intros v Hv. rewrite Hget1; auto. intros ->. contradiction.
      * exact Hnd.
      * exists deg', q'. split; [exact R|]. split; [congruence|].
        split; [|split; [exact N|]].
        -- intros v. rewrite G. destruct (string_dec n v) as [<-|Hne].
           ++ unfold deg1. rewrite getZ_set_same, count_occ_cons_eq by reflexivity. lia.
           ++ rewrite Hget1 by congruence. rewrite count_occ_cons_neq by auto. lia.
        -- intros v. rewrite I. cbn [In].
           destruct (string_dec n v) as [<-|Hne].
           ++ rewrite count_occ_cons_eq by reflexivity.
              unfold deg1. rewrite getZ_set_same. rewrite Hgd. split.
              ** intros [H|[H1 H2]]; auto. right. split; auto. lia.
              ** intros [H|[_ H2]]; auto. right. split; [|lia].
                 apply (count_occ_In string_dec). lia.
           ++ rewrite Hget1 by congruence. rewrite count_occ_cons_neq by auto.
              tauto.
Qed.

(** ** Positions in a list *)
Lemma index_of_In x l : In x l -> exists i, index_of x l = Some i /\ i < List.length l.
Proof.
  induction l as [|y l IH]; simpl; [tauto|].
  intros H. destruct (y =? x) eqn:Hy.
  - exists 0. split; auto. lia.
  - apply String.eqb_neq in Hy. destruct H as [H|H]; [contradiction|].
    destruct (IH H) as (i & Hi & Hlt). rewrite Hi. exists (S i). split; auto. lia.
Qed.


Lemma index_of_app_l x l l' i :
  index_of x l = Some i -> index_of x (l ++ l') = Some i.
Proof.
  revert i. induction l as [|y l IH]; simpl; [discriminate|].
  intros i. destruct (y =? x); auto.
  destruct (index_of x l) eqn:H; [|discriminate].
  intros [= <-]. now rewrite (IH n eq_refl).
Qed.

Lemma index_of_snoc_new x l :
  ~ In x l -> index_of x (l ++ [x]) = Some (List.length l).
Proof.
  induction l as [|y l IH]; simpl; intros H.
  - now rewrite String.eqb_refl.
  - destruct (y =? x) eqn:Hy.
    + apply String.eqb_eq in Hy. tauto.
    + rewrite IH; auto.
Qed.

Lemma before_app l l' u v : before l u v -> before (l ++ l') u v.
Proof.
  intros (i & j & Hi & Hj & Hlt). exists i, j.
  repeat split; auto using index_of_app_l.
Qed.

Lemma before_irrefl l u : ~ before l u u.
Proof. intros (i & j & Hi & Hj & Hlt). rewrite Hi in Hj. injection Hj. lia. Qed.

Lemma before_trans l u v w : before l u v -> before l v w -> before l u w.
Proof.
  intros (i & j & Hi & Hj & Hlt) (j' & k & Hj' & Hk & Hlt').
  rewrite Hj in Hj'. injection Hj' as <-. exists i, k. repeat split; auto. lia.
Qed.

(** ** Counting the edges into a node *)
Lemma in_succs E x v : In v (succs E x) <-> In (x, v) E.
Proof.
  unfold succs. rewrite in_map_iff. split.
  - intros ([f t] & <- & H). apply filter_In in H. destruct H as [H1 H2].
    simpl in *. apply String.eqb_eq in H2. now subst.
  - intros H. exists (x, v). split; auto. apply filter_In. split; auto.
    simpl. apply String.eqb_refl.
Qed.

Lemma rem_indeg_cons f t E S v :
  rem_indeg ((f, t) :: E) S v =
  (if (t =? v) && negb (mem f S) then 1 else 0) + rem_indeg E S v.
Proof. unfold rem_indeg. simpl. destruct ((t =? v) && negb (mem f S)); reflexivity. Qed.

Lemma rem_indeg_step E S x v :
  ~ In x S ->
  rem_indeg E S v = rem_indeg E (S ++ [x]) v + cnt (succs E x) v.
Proof.
  intros Hx. induction E as [|[f t] E IH].
  - reflexivity.
  - rewrite !rem_indeg_cons, succs_cons, IH.
    destruct (f =? x) eqn:Hfx.
    + apply String.eqb_eq in Hfx. subst f.
      assert (M1 : mem x S = false) by now apply mem_false.
      assert (M2 : mem x (S ++ [x]) = true).
      { apply mem_In. apply in_or_app. right. now left. }
      rewrite M1, M2. simpl negb. rewrite andb_false_r, andb_true_r.
      destruct (t =? v) eqn:Htv.
      * apply String.eqb_eq in Htv. subst t.
        rewrite count_occ_cons_eq by reflexivity. lia.
      * apply String.eqb_neq in Htv. rewrite count_occ_cons_neq by auto. lia.
    + apply String.eqb_neq in Hfx.
      assert (M : mem f (S ++ [x]) = mem f S).
      { destruct (mem f S) eqn:M1.
        - apply mem_In. apply mem_In in M1. apply in_or_app. auto.
        - apply mem_false. apply mem_false in M1. intros H.
          apply in_app_or in H. destruct H as [H|[H|[]]]; auto. }
      rewrite M. lia.
Qed.

Lemma rem_indeg_zero E S v :
  rem_indeg E S v = 0 -> forall u, In (u, v) E -> In u S.
Proof.
  induction E as [|[f t] E IH]; intros H u Hin; [destruct Hin|].
  rewrite rem_indeg_cons in H.
  destruct ((t =? v) && negb (mem f S)) eqn:Hc; [simpl in H; lia|].
  destruct Hin as [Hin|Hin]; [|apply IH; auto].
  injection Hin as -> ->. rewrite String.eqb_refl in Hc. simpl in Hc.
  apply negb_false_iff in Hc. now apply mem_In.
Qed.

Lemma rem_indeg_pos E S v :
  rem_indeg E S v <> 0 -> exists u, In (u, v) E /\ ~ In u S.
Proof.
  induction E as [|[f t] E IH]; intros H.
  - now destruct H.
  - rewrite rem_indeg_cons in H.
    destruct ((t =? v) && negb (mem f S)) eqn:Hc.
    + apply andb_true_iff in Hc. destruct Hc as [H1 H2].
      apply String.eqb_eq in H1. subst t.
      apply negb_true_iff in H2. apply mem_false in H2.
      exists f. split; auto. now left.
    + destruct IH as (u & Hu & Hn); auto. exists u. split; auto. now right.
Qed.

Lemma rem_indeg_nil E v : rem_indeg E [] v = indeg E v.
Proof.
  unfold rem_indeg, indeg. f_equal. apply filter_ext. intros p. simpl.
  now rewrite andb_true_r.
Qed.

(** ** The [while] loop keeps its invariant and ends *)
Section KahnLoop.
Variable E : list (string * string).
Variable adj : dict (list string).
Variable K : list string.
Hypothesis HE : forall f t, In (f, t) E -> In f K /\ In t K.
Hypothesis Hadj : forall u, In u K -> dict_get adj u = Some (succs E u).

Lemma kahn_step deg x q sorted :
  kahn_inv E K deg (x :: q) sorted ->
  exists deg' q',
    relax (succs E x) deg q = Ok (deg', q') /\
    kahn_inv E K deg' q' (sorted ++ [x]).
Proof.
  intros [Hk Hnd Hsub Hdeg Hzero Hord].
  assert (HxK : In x K) by (apply Hsub, in_or_app; right; now left).
  assert (Hxs : ~ In x sorted).
  { intros H. apply NoDup_remove_2 in Hnd. apply Hnd, in_or_app. auto. }
  assert (Hcnt : forall v, (Z.of_nat (cnt (succs E x) v) <= getZ deg v)%Z).
  { intros v. rewrite Hdeg, (rem_indeg_step E sorted x v Hxs). lia. }
  assert (Hz0 : forall v, In v (sorted ++ x :: q) -> getZ deg v = 0%Z).
  { intros v Hv. apply Hzero; auto. }
  destruct (relax_spec (succs E x) deg q (sorted ++ [x]))
    as (deg' & q' & R & Kd & G & N & I).
  - intros v Hv. rewrite Hk. apply in_succs in Hv. now apply HE in Hv.
  - exact Hcnt.
  - intros v Hv. apply Hz0. now rewrite <- app_assoc in Hv.
  - now rewrite <- app_assoc.
  - exists deg', q'. split; [exact R|]. constructor.
    + congruence.
    + exact N.
    + intros v Hv. apply in_app_or in Hv. destruct Hv as [Hv|Hv].
      * apply Hsub. apply in_app_or in Hv. apply in_or_app.
        destruct Hv as [Hv|[<-|[]]]; auto. right. now left.
      * apply I in Hv. destruct Hv as [Hv|[Hv _]].
        -- apply Hsub, in_or_app. right. now right.
        -- apply in_succs in Hv. now apply HE in Hv.
    + intros v. rewrite G, Hdeg, (rem_indeg_step E sorted x v Hxs). lia.
    + intros v Hv. rewrite G. split.
      * intros Hin. apply in_app_or in Hin. destruct Hin as [Hin|Hin].
        -- assert (H0 : getZ deg v = 0%Z).
           { apply Hz0. apply in_app_or in Hin. apply in_or_app.
             destruct Hin as [Hin|[<-|[]]]; auto. right. now left. }
           specialize (Hcnt v). lia.
        -- apply I in Hin. destruct Hin as [Hin|[_ Hin]].
           ++ assert (H0 : getZ deg v = 0%Z).
              { apply Hz0, in_or_app. right. now right. }
              specialize (Hcnt v). lia.
           ++ lia.
      * intros H0. destruct (in_dec string_dec v (succs E x)) as [Hin|Hin].
        -- apply in_or_app. right. apply I. right. split; auto. lia.
        -- apply (count_occ_not_In string_dec) in Hin.
           assert (Hz : getZ deg v = 0%Z) by lia.
           apply Hzero in Hz; auto. rewrite <- app_assoc. simpl.
           apply in_app_or in Hz. apply in_or_app.
           destruct Hz as [Hz|[Hz|Hz]]; auto.
           ++ right. now left.
           ++ right. right. apply I. now left.
    + intros u v Huv Hv. apply in_app_or in Hv. destruct Hv as [Hv|[<-|[]]].
      * apply before_app. now apply Hord.
      * assert (H0 : rem_indeg E sorted x = 0).
        { assert (Hz : getZ deg x = 0%Z).
          { apply Hz0, in_or_app. right. now left. }
          rewrite Hdeg in Hz. lia. }
        pose proof (rem_indeg_zero E sorted x H0 u Huv) as Hu.
        destruct (index_of_In u sorted Hu) as (i & Hi & Hlt).
        exists i, (List.length sorted). split; [|split; auto].
        -- now apply index_of_app_l.
        -- now apply index_of_snoc_new.
Qed.

Lemma kahn_total : forall fuel deg q sorted,
  kahn_inv E K deg q sorted ->
  List.length K <= fuel + List.length sorted ->
  exists out deg',
    kahn fuel adj deg q sorted = Some (Ok out) /\ kahn_inv E K deg' [] out.
Proof.
  induction fuel as [|fuel IH]; intros deg q sorted Hinv Hfuel.
  - destruct q as [|x q]; [exists sorted, deg; split; auto|].
    exfalso. destruct Hinv as [_ Hnd Hsub _ _ _].
    pose proof (NoDup_incl_length Hnd Hsub) as Hlen.
    rewrite length_app in Hlen. simpl in *. lia.
  - destruct q as [|x q]; [exists sorted, deg; split; auto|].
    destruct (kahn_step _ _ _ _ Hinv) as (deg' & q' & R & Hinv').
    assert (HxK : In x K).
    { apply (inv_sub Hinv), in_or_app. right. now left. }
    simpl. unfold dict_item. rewrite (Hadj x HxK). simpl bind. rewrite R.
    apply (IH deg' q' (sorted ++ [x]) Hinv').
    rewrite length_app. simpl. lia.
Qed.
End KahnLoop.

(** ** Walks and cycles *)
Section Cycles.
Variable R : string -> string -> Prop.

Lemma walk_app_r l1 l2 : walk R (l1 ++ l2) -> walk R l2.
Proof.
  induction l1 as [|a l1 IH]; simpl; auto.
  destruct (l1 ++ l2) eqn:Heq.
  - intros _. destruct l1; [simpl in Heq; subst; exact I | discriminate].
  - intros [_ H]. auto.
Qed.

Lemma walk_app_l l1 l2 : walk R (l1 ++ l2) -> walk R l1.
Proof.
  induction l1 as [|a l1 IH]; [simpl; auto|].
  destruct l1 as [|b l1]; [simpl; auto|].
  intros [H1 H2]. split; [exact H1|]. apply IH. exact H2.
Qed.

Lemma walk_reach : forall l x y,
  walk R (x :: l ++ [y]) -> clos_trans_1n string R x y.
Proof.
  induction l as [|a l IH]; intros x y H.
  - destruct H as [H _]. now apply Relation_Operators.t1n_step.
  - change (R x a /\ walk R (a :: l ++ [y])) in H.
    destruct H as [H1 H2].
    apply Relation_Operators.t1n_trans with a; [exact H1|].
    apply IH. exact H2.
Qed.

Lemma dup_split (l : list string) :
  NoDup l \/ exists x l1 l2 l3, l = l1 ++ x :: l2 ++ x :: l3.
Proof.
  induction l as [|a l IH].
  - left. constructor.
  - destruct (in_dec string_dec a l) as [Hin|Hin].
    + right. apply in_split in Hin. destruct Hin as (l2 & l3 & ->).
      now exists a, [], l2, l3.
    + destruct IH as [IH|(x & l1 & l2 & l3 & ->)].
      * left. now constructor.
      * right. now exists x, (a :: l1), l2, l3.
Qed.

Lemma back_walk (P : string -> Prop) :
  (forall v, P v -> exists u, R u v /\ P u) ->
  forall n v, P v ->
  exists l, List.length l = S n /\ walk R l /\ Forall P l.
Proof.
  intros Hpred n v Hv. induction n as [|n IH].
  - exists [v]. repeat split; simpl; auto.
  - destruct IH as (l & Hlen & Hch & Hall).
    destruct l as [|h t]; [discriminate|].
    inversion Hall as [|? ? Hh Ht]; subst.
    destruct (Hpred h Hh) as (u & Hu & HPu).
    exists (u :: h :: t). repeat split; simpl in *; auto.
Qed.

(** A finite non-empty set of vertices, each with a predecessor in
    the set, contains a cycle. *)
Lemma no_source_cycle (P : string -> Prop) (K : list string) :
  (forall v, P v -> In v K) ->
  (forall v, P v -> exists u, R u v /\ P u) ->
  forall v, P v -> exists x, clos_trans_1n string R x x.
Proof.
  intros HK Hpred v Hv.
  destruct (back_walk P Hpred (List.length K) v Hv) as (l & Hlen & Hch & Hall).
  destruct (dup_split l) as [Hnd|(x & l1 & l2 & l3 & ->)].
  - assert (Hincl : incl l K).
    { intros a Ha. apply HK. rewrite Forall_forall in Hall. auto. }
    pose proof (NoDup_incl_length Hnd Hincl). lia.
  - exists x. apply walk_app_r in Hch.
    change (x :: l2 ++ x :: l3) with ((x :: l2) ++ ([x] ++ l3)) in Hch.
    rewrite app_assoc in Hch. apply walk_app_l in Hch.
    now apply walk_reach with l2.
Qed.

(** An order in which every related pair goes forward rules out a
    cycle. *)
Lemma reach_before (out : list string) :
  (forall u v, R u v -> before out u v) ->
  forall u v, clos_trans_1n string R u v -> before out u v.
Proof.
  intros H u v C. induction C as [u v Huv | u w v Huw _ IH].
  - auto.
  - eapply before_trans; eauto.
Qed.
End Cycles.

(** ** [topological_sort] *)
Lemma dict_keys_set_cong {A B} (d : dict A) (d' : dict B) k a b :
  dict_keys d = dict_keys d' ->
  dict_keys (dict_set d k a) = dict_keys (dict_set d' k b).
Proof.
  revert d'. induction d as [|[k0 v0] d IH]; intros [|[k1 v1] d'] H;
    try discriminate; simpl in *; auto.
  injection H as -> H. destruct (k1 =? k); simpl; f_equal; auto.
Qed.

Lemma dict_of_nodes_keys_eq {A B} (a : A) (b : B) nodes :
  dict_keys (dict_of_nodes a nodes) = dict_keys (dict_of_nodes b nodes).
Proof.
  unfold dict_of_nodes.
  assert (G : forall (d : dict A) (d' : dict B),
             dict_keys d = dict_keys d' ->
             dict_keys (fold_left (fun d n => dict_set d (n_id n) a) nodes d) =
             dict_keys (fold_left (fun d n => dict_set d (n_id n) b) nodes d')).
  { induction nodes as [|n nodes IH]; intros d d' H; simpl; auto.
    apply IH. now apply dict_keys_set_cong. }
  now apply G.
Qed.

Lemma dict_get_pair {V} (d : dict V) k v :
  NoDup (dict_keys d) -> In (k, v) d -> dict_get d k = Some v.
Proof.
  induction d as [|[k0 v0] d IH]; simpl; [tauto|].
  intros Hnd [H|H].
  - injection H as -> ->. now rewrite String.eqb_refl.
  - inversion Hnd as [|? ? Hn Hnd']; subst.
    destruct (k0 =? k) eqn:Hk; auto.
    apply String.eqb_eq in Hk. subst k0. exfalso. apply Hn.
    unfold dict_keys. apply in_map_iff. now exists (k, v).
Qed.

Lemma dict_get_pair_inv {V} (d : dict V) k v :
  dict_get d k = Some v -> In (k, v) d.
Proof.
  induction d as [|[k0 v0] d IH]; simpl; [discriminate|].
  destruct (k0 =? k) eqn:Hk; auto.
  apply String.eqb_eq in Hk. intros [= ->]. left. now subst.
Qed.

Lemma NoDup_keys_filter {V} (p : string * V -> bool) (d : dict V) :
  NoDup (map fst d) -> NoDup (map fst (filter p d)).
Proof.
  induction d as [|kv d IH]; simpl; auto.
  intros H. inversion H as [|? ? Hn Hnd]; subst.
  destruct (p kv); simpl; auto. constructor; auto.
  intros Hin. apply Hn. apply in_map_iff in Hin.
  destruct Hin as (x & Hx & Hin). apply filter_In in Hin.
  apply in_map_iff. exists x. tauto.
Qed.

Lemma zero_in_degree_In deg v :
  NoDup (dict_keys deg) ->
  (In v (zero_in_degree deg) <-> In v (dict_keys deg) /\ getZ deg v = 0%Z).
Proof.
  intros Hnd. unfold zero_in_degree. rewrite in_map_iff. split.
  - intros ([k z] & <- & H). apply filter_In in H. destruct H as [H1 H2].
    simpl in *. apply Z.eqb_eq in H2. subst z. split.
    + unfold dict_keys. apply in_map_iff. now exists (k, 0%Z).
    + unfold getZ. now rewrite (dict_get_pair deg k 0%Z Hnd H1).
  - intros [Hin Hz]. apply dict_get_In in Hin. destruct Hin as [z Hz'].
    unfold getZ in Hz. rewrite Hz' in Hz. subst z.
    exists (v, 0%Z). split; auto. apply filter_In. split; auto.
    now apply dict_get_pair_inv.
Qed.

(** Once the edge loop has gone through, the [while] loop ends within
    [len(nodes)] iterations and leaves the loop invariant on its
    result. *)
Lemma topological_sort_loop nodes edges adj deg :
  build_graph (dict_of_nodes [] nodes) (dict_of_nodes 0%Z nodes) edges
    = Ok (adj, deg) ->
  let K := dict_keys (dict_of_nodes 0%Z nodes) in
  exists out deg',
    kahn (List.length nodes) adj deg (zero_in_degree deg) [] = Some (Ok out) /\
    kahn_inv (edge_pairs edges) K deg' [] out.
Proof.
  intros HB K.
  destruct (@dict_of_nodes_keys Z 0%Z nodes) as (KN & KI & K0).
  destruct (@dict_of_nodes_keys (list string) [] nodes) as (AN & AI & A0).
  pose proof (dict_of_nodes_keys_eq (@nil string) 0%Z nodes) as Keq.
  apply build_graph_spec in HB. destruct HB as (B1 & B2 & B3 & B4 & B5).
  fold K in KN, KI, B2. rewrite Keq in B1, B3. fold K in B1, B3.
  assert (HE : forall f t, In (f, t) (edge_pairs edges) -> In f K /\ In t K)
    by exact B3.
  assert (Hadj : forall u, In u K -> dict_get adj u = Some (succs (edge_pairs edges) u)).
  { intros u Hu. unfold K in Hu. rewrite <- Keq in Hu.
    apply dict_get_In in Hu. destruct Hu as [l Hl].
    pose proof (A0 _ _ Hl). subst l. apply (B4 u [] Hl). }
  assert (Hdeg : forall v, getZ deg v = Z.of_nat (indeg (edge_pairs edges) v)).
  { intros v. rewrite B5.
    assert (getZ (dict_of_nodes 0%Z nodes) v = 0%Z).
    { unfold getZ. destruct (dict_get (dict_of_nodes 0%Z nodes) v) eqn:Hg; auto.
      now apply K0 in Hg. }
    lia. }
  apply (kahn_total (edge_pairs edges) adj K HE Hadj).
  - constructor; simpl.
    + exact B2.
    + unfold zero_in_degree. apply NoDup_keys_filter.
      change (NoDup (dict_keys deg)). now rewrite B2.
    + intros v Hv. apply zero_in_degree_In in Hv; [|now rewrite B2].
      rewrite B2 in Hv. tauto.
    + intros v. now rewrite rem_indeg_nil.
    + intros v Hv. rewrite zero_in_degree_In by now rewrite B2.
      rewrite B2. tauto.
    + intros u v _ [].
  - simpl. rewrite Nat.add_0_r.
    rewrite <- (length_map n_id nodes).
    apply NoDup_incl_length; auto. intros k Hk. now apply KI.
Qed.

(** The bound on the iterations is never the reason for stopping. *)
Lemma topological_sort_terminates nodes edges :
  topological_sort nodes edges <> None.
Proof.
  unfold topological_sort.
  destruct (build_graph _ _ edges) as [[adj deg]|e] eqn:HB; [|discriminate].
  destruct (topological_sort_loop nodes edges adj deg HB) as (out & deg' & HK & _).
  rewrite HK. destruct (negb _); discriminate.
Qed.

Lemma edges_known_pairs nodes edges :
  edges_known nodes edges ->
  exists adj deg,
    build_graph (dict_of_nodes [] nodes) (dict_of_nodes 0%Z nodes) edges
      = Ok (adj, deg).
Proof.
  intros H. apply build_graph_ok. intros e He.
  destruct (H e He) as (f & t & Hf & Ht & Hif & Hit).
  exists f, t. repeat split; auto.
  - now apply (@dict_of_nodes_keys (list string) [] nodes).
  - now apply (@dict_of_nodes_keys Z 0%Z nodes).
Qed.

(** C3. For every acyclic graph whose node ids are distinct and whose
    edges name node ids, [topological_sort] returns an order that is a
    permutation of the node ids and in which the source of every edge
    comes before its target. *)
Theorem topological_sort_valid_dag nodes edges :
  NoDup (map n_id nodes) ->
  edges_known nodes edges ->
  acyclic (edge_pairs edges) ->
  exists order,
    topological_sort nodes edges = Some (Ok order) /\
    Permutation order (map n_id nodes) /\
    (forall u v, In (u, v) (edge_pairs edges) -> before order u v).
Proof.
  intros Hids Hedges Hacyc.
  destruct (edges_known_pairs nodes edges Hedges) as (adj & deg & HB).
  destruct (topological_sort_loop nodes edges adj deg HB) as (out & deg' & HK & Hinv).
  destruct (@dict_of_nodes_keys Z 0%Z nodes) as (KN & KI & _).
  set (K := dict_keys (dict_of_nodes 0%Z nodes)) in *.
  set (E := edge_pairs edges) in *.
  destruct Hinv as [Hk Hnd Hsub Hdeg Hzero Hord].
  rewrite app_nil_r in Hnd.
  assert (HE : forall f t, In (f, t) E -> In f K /\ In t K).
  { apply build_graph_spec in HB. destruct HB as (_ & _ & B3 & _).
    rewrite (dict_of_nodes_keys_eq (@nil string) 0%Z nodes) in B3. exact B3. }
  assert (Hall : forall v, In v K -> In v out).
  { intros v Hv. destruct (in_dec string_dec v out) as [Hin|Hin]; auto.
    exfalso.
    destruct (no_source_cycle (edge_in E) (fun w => In w K /\ ~ In w out) K)
      with (v := v)
      as [x Hx]; auto.
    - tauto.
    - intros w [HwK Hw].
      assert (Hnz : rem_indeg E out w <> 0).
      { intros H0. apply Hw. specialize (Hzero w HwK).
        rewrite app_nil_r in Hzero. apply Hzero. rewrite Hdeg. lia. }
      destruct (rem_indeg_pos E out w Hnz) as (u & Hu & Hnu).
      exists u. repeat split; auto. now apply HE in Hu.
    - now apply Hacyc in Hx. }
  assert (Hperm : Permutation out (map n_id nodes)).
  { apply NoDup_Permutation; auto. intros v. split.
    - intros Hv. apply KI. apply Hsub. now rewrite app_nil_r.
    - intros Hv. apply Hall. now apply KI. }
  exists out. split; [|split; auto].
  - unfold topological_sort. rewrite HB, HK.
    apply Permutation_length in Hperm. rewrite length_map in Hperm.
    rewrite Hperm, Nat.eqb_refl. reflexivity.
  - intros u v Huv. apply Hord; auto. apply Hall. now apply HE in Huv.
Qed.

Theorem topological_sort_cycle nodes edges x :
  edges_known nodes edges ->
  reach (edge_pairs edges) x x ->
  topological_sort nodes edges = Some (Raise (ValueError cycle_message)).
Proof.
  intros Hedges Hcyc.
  destruct (edges_known_pairs nodes edges Hedges) as (adj & deg & HB).
  destruct (topological_sort_loop nodes edges adj deg HB) as (out & deg' & HK & Hinv).
  destruct (@dict_of_nodes_keys Z 0%Z nodes) as (KN & KI & _).
  set (K := dict_keys (dict_of_nodes 0%Z nodes)) in *.
  set (E := edge_pairs edges) in *.
  destruct Hinv as [Hk Hnd Hsub Hdeg Hzero Hord].
  rewrite app_nil_r in Hnd.
  assert (HE : forall f t, In (f, t) E -> In f K /\ In t K).
  { apply build_graph_spec in HB. destruct HB as (_ & _ & B3 & _).
    rewrite (dict_of_nodes_keys_eq (@nil string) 0%Z nodes) in B3. exact B3. }
  unfold topological_sort. rewrite HB, HK.
  destruct (List.length out =? List.length nodes)%nat eqn:Hlen; [|reflexivity].
  exfalso. apply Nat.eqb_eq in Hlen.
  assert (HKlen : List.length K <= List.length nodes).
  { rewrite <- (length_map n_id nodes).
    apply NoDup_incl_length; auto. intros k Hk'. now apply KI. }
  assert (Hall : incl K out).
  { apply NoDup_length_incl; auto; [lia|].
    intros v Hv. apply Hsub. now rewrite app_nil_r. }
  apply (before_irrefl out x).
  apply (reach_before (edge_in E) out); auto.
  intros u v Huv. apply Hord; auto. apply Hall. now apply HE in Huv.
Qed.

(** ** The validator and the topological order on given graphs *)

Lemma acyclic_of_order E out :
  (forall u v, In (u, v) E -> before out u v) -> acyclic E.
Proof.
  intros H x Hx. apply (before_irrefl out x).
  now apply (reach_before (edge_in E) out).
Qed.

Lemma topological_sort_valid_dag_witness :
  exists order,
    topological_sort chain_nodes chain_edges = Some (Ok order) /\
    Permutation order (map n_id chain_nodes) /\
    (forall u v, In (u, v) (edge_pairs chain_edges) -> before order u v).
Proof.
  apply (topological_sort_valid_dag chain_nodes chain_edges).
  - repeat constructor; simpl; intuition discriminate.
  - intros e [<-|[<-|[]]]; simpl.
    + exists "a", "b". simpl. tauto.
    + exists "b", "c". simpl. tauto.
  - apply (acyclic_of_order _ ["a"; "b"; "c"]).
    intros u v [H|[H|[]]]; injection H as <- <-.
    + exists 0, 1. repeat split; auto.
    + exists 1, 2. repeat split; auto.
Defined.

(** C1. A graph with an edge whose 'from' names no node makes
    [validate_pipeline] raise [KeyError] out of [detect_cycles]; no
    result is returned. *)
Theorem validate_pipeline_unknown_from_raises :
  validate_pipeline (mkPipeline [node_of "a" "SOURCE"] [edge_ft "x" "a"])
  = Some (Raise (KeyError (VStr "x"))).
Proof. reflexivity. Qed.

(** C2. On the graph a -> b, b -> a, c -> a, which has the cycle
    a -> b -> a, [validate_pipeline] raises [ValueError] out of
    [path.index] instead of returning a verdict, while
    [topological_sort] raises its cycle error. *)
Theorem validate_pipeline_cycle_raises :
  reach (edge_pairs tail_cycle_edges) "a" "a" /\
  validate_pipeline (mkPipeline tail_cycle_nodes tail_cycle_edges)
  = Some (Raise (ValueError "'a' is not in list")) /\
  topological_sort tail_cycle_nodes tail_cycle_edges
  = Some (Raise (ValueError cycle_message)).
Proof.
  split; [|split; reflexivity].
  apply Relation_Operators.t1n_trans with "b".
  - unfold edge_in. simpl. auto.
  - apply Relation_Operators.t1n_step. unfold edge_in. simpl. auto.
Qed.

(** C4. An edge given as source/target passes edge validation and
    cycle detection like the same edge given as from/to, but
    [topological_sort] raises [KeyError] on it. *)
Theorem topological_sort_ignores_source_target :
  validate_edges pair_nodes [edge_st "a" "b"] = [] /\
  validate_edges pair_nodes [edge_ft "a" "b"] = [] /\
  detect_cycles pair_nodes [edge_st "a" "b"] = Some (Ok []) /\
  detect_cycles pair_nodes [edge_ft "a" "b"] = Some (Ok []) /\
  topological_sort pair_nodes [edge_ft "a" "b"] = Some (Ok ["a"; "b"]) /\
  topological_sort pair_nodes [edge_st "a" "b"] = Some (Raise (KeyError VNone)).
Proof. repeat split; reflexivity. Qed.


(** ** Transform operators *)

(** C6. Executing AGGREGATE with group_by ["g"] and the aggregation
    {column: x, agg: sum, as: x_sum} on the three rows raises
    [AttributeError] in [validate_transform_schema], which asks the
    aggregation list for its keys; no rows are produced. *)
Theorem aggregate_example_raises (ext : Externals) run_id ctx st :
  execute_transform_node aggregate_node group_frame run_id ctx st
  = (Raise (AttributeError "'list' object has no attribute 'keys'"), st).
Proof. reflexivity. Qed.

(** Past that check, the last renaming step would turn the alias
    [x_sum] into [x___s_u_m]. *)
Lemma aggregate_alias_is_rewritten (ext : Externals) :
  groupby_agg group_frame (VList [VStr "g"]) [("x", [VStr "sum"])]
    = Ok grouped_frame ->
  aggregate_transform aggregate_config group_frame
  = Ok (mkDF ["g"; "x___s_u_m"] (mf_rows grouped_frame),
        "Aggregated by ['g']").
Proof.
  intros H. unfold aggregate_transform, group_frame in *.
  cbn in H. cbn. rewrite H. reflexivity.
Qed.

(** C9, counterexample. STRING_TRANSFORM with the operation 'reverse'
    completes and returns the frame unchanged. *)
Lemma string_transform_reverse_completes :
  @execute_transform_node (in_memory []) reverse_node names_frame 7 []
                          (mkState [] [] [])
  = (Ok names_frame,
     mkState [] []
       [mkLog 7 (Some "t") INFO "Applied reverse to name" (Some 3) (Some 3)]).
Proof. reflexivity. Qed.

Lemma string_transform_unknown (ext : Externals) config df :
  (forall op, In op string_operations ->
              is_str (cfg_get config "operation") op = false) ->
  string_transform config df
  = Ok (df, "Applied " +++ py_str (cfg_get config "operation")
            +++ " to " +++ py_str (cfg_get config "column")).
Proof.
  intros Hop. unfold string_transform.
  rewrite !Hop by (simpl; auto 10). reflexivity.
Qed.

(** C9, amended. STRING_TRANSFORM with an operation that is none of
    the supported ones raises nothing: the frame is returned unchanged
    and an INFO record "Applied <operation> to <column>" is logged. *)
Theorem string_transform_unknown_operation (ext : Externals)
    node config df run_id ctx st :
  n_subtype node = Some "STRING_TRANSFORM" ->
  n_config node = Some config ->
  (forall op, In op string_operations ->
              is_str (cfg_get config "operation") op = false) ->
  execute_transform_node node df run_id ctx st
  = (Ok df,
     with_log st
       [mkLog run_id (Some (n_id node)) INFO
              ("Applied " +++ py_str (cfg_get config "operation")
               +++ " to " +++ py_str (cfg_get config "column"))
              (Some (df_len df)) (Some (df_len df))]).
Proof.
  intros Hsub Hcfg Hop.
  assert (Hv : validate_transform_schema node df = Ok tt).
  { unfold validate_transform_schema, node_subtype, node_config.
    rewrite Hsub, Hcfg. reflexivity. }
  unfold execute_transform_node, bindM, lift, try_except.
  unfold node_subtype, node_config. rewrite Hsub, Hcfg, Hv.
  change (transform_body "STRING_TRANSFORM" config df ctx)
    with (string_transform config df).
  rewrite (string_transform_unknown ext config df Hop). reflexivity.
Qed.

Lemma string_transform_unknown_operation_witness :
  @execute_transform_node (in_memory []) reverse_node names_frame 7 []
                          (mkState [] [] [])
  = (Ok names_frame,
     with_log (mkState [] [] [])
       [mkLog 7 (Some (n_id reverse_node)) INFO
              ("Applied "
               +++ py_str (cfg_get [("column", VStr "name");
                                    ("operation", VStr "reverse")] "operation")
               +++ " to "
               +++ py_str (cfg_get [("column", VStr "name");
                                    ("operation", VStr "reverse")] "column"))
              (Some (df_len names_frame)) (Some (df_len names_frame))]).
Proof.
  apply (string_transform_unknown_operation (in_memory []) reverse_node
           [("column", VStr "name"); ("operation", VStr "reverse")]).
  - reflexivity.
  - reflexivity.
  - intros op Hop. simpl in Hop.
    repeat (destruct Hop as [<-|Hop]; [reflexivity|]). destruct Hop.
Defined.






(** ** The executor *)

(** C5, counterexample. In the pipeline S -> L -> T the transform T
    takes its input from the LOAD node L, which leaves no entry in
    [results]: the run ends with [KeyError('L')], not with the
    no-input error. *)
Lemma transform_after_load_raises_key_error :
  exists st,
    @execute_pipeline (in_memory sample_files) after_load_pipeline 7 None []
    = Some (Raise (KeyError (VStr "L")), st) /\
    KeyError (VStr "L") <> no_input_error "Transform" "T" /\
    dict_get (results st) "L" = None.
Proof.
  eexists. split; [vm_compute; reflexivity|]. split; [discriminate|reflexivity].
Qed.

(** C5, amended. A TRANSFORM node with no inbound edge raises the
    no-input error; otherwise its input is looked up in [results]
    under the source of its first inbound edge: when there is an entry
    the transform operator runs on that frame, and when there is none
    the lookup itself raises [KeyError], there being no separate
    check. *)
Theorem transform_input_resolution (ext : Externals)
    edges run_id pipeline_name node_id node st :
  match incoming edges node_id with
  | [] =>
      node_body edges run_id pipeline_name node_id node "TRANSFORM" st
      = (Raise (no_input_error "Transform" node_id), st)
  | first :: others =>
      match edge_from3 first with
      | Some f =>
          match dict_get (results st) f with
          | Some input_df =>
              let node' :=
                match others with
                | second :: _ =>
                    if subtype_is node "JOIN"
                    then with_right_node node (opt_val (edge_from3 second))
                    else node
                | [] => node
                end in
              node_body edges run_id pipeline_name node_id node "TRANSFORM" st
              = bindM (execute_transform_node node' input_df run_id
                                              (results st))
                      (set_result node_id) st
          | None =>
              node_body edges run_id pipeline_name node_id node "TRANSFORM" st
              = (Raise (KeyError (VStr f)), st)
          end
      | None =>
          node_body edges run_id pipeline_name node_id node "TRANSFORM" st
          = (Raise (KeyError VNone), st)
      end
  end.
Proof.
  unfold node_body. cbn [String.eqb Ascii.eqb Bool.eqb].
  simpl ("TRANSFORM" =? "SOURCE"). simpl ("TRANSFORM" =? "TRANSFORM").
  cbn iota. unfold primary_input.
  destruct (incoming edges node_id) as [|first others]; [reflexivity|].
  destruct (edge_from3 first) as [f|]; [|reflexivity].
  unfold bindM, get_results, lift, dict_item, ret. cbn [results].
  destruct (dict_get (results st) f) as [input_df|]; [|reflexivity].
  destruct others; reflexivity.
Qed.

(** ** What a step does to the run state *)

Lemma logged_refl st : logged st st [].
Proof. unfold logged. now rewrite app_nil_r. Qed.

Lemma logged_with_log st recs : logged st (with_log st recs) recs.
Proof. unfold logged, with_log. simpl. auto. Qed.

Lemma execute_source_node_state (ext : Externals) node run_id st r st' :
  execute_source_node node run_id st = (r, st') ->
  (exists df rec, r = Ok df /\ st' = with_log st [rec] /\ log_level rec = INFO)
  \/ (exists e, r = Raise e /\ st' = st).
Proof.
  unfold execute_source_node, bindM, lift, log_node_execution, ret.
  destruct (node_subtype node) as [subtype|e0];
    [|intros [= <- <-]; right; eauto].
  destruct (node_config node) as [config|e0];
    [|intros [= <- <-]; right; eauto].
  match goal with
  | |- context [match ?x with Ok _ => _ | Raise _ => _ end] =>
      destruct x as [df|e0]
  end; intros [= <- <-].
  - left. eexists _, _. split; [reflexivity|]. split; reflexivity.
  - right. eauto.
Qed.

Lemma execute_transform_node_state (ext : Externals)
    node input_df run_id ctx st r st' :
  execute_transform_node node input_df run_id ctx st = (r, st') ->
  (exists df rec, r = Ok df /\ st' = with_log st [rec] /\ log_level rec = INFO)
  \/ (exists e, r = Raise e /\ st' = st)
  \/ (exists e, r = Raise e /\
        st' = with_log st
                [mkLog run_id (Some (n_id node)) ERROR
                       ("Transform failed: " +++ exn_str e)
                       (Some (df_len input_df)) None]).
Proof.
  unfold execute_transform_node, bindM, lift, try_except,
    log_node_execution, ret, raise.
  destruct (node_subtype node) as [subtype|e0];
    [|intros [= <- <-]; right; left; eauto].
  destruct (node_config node) as [config|e0];
    [|intros [= <- <-]; right; left; eauto].
  destruct (validate_transform_schema node input_df) as [[]|e0];
    [|intros [= <- <-]; right; left; eauto].
  destruct (transform_body subtype config input_df ctx) as [[df' message]|e0];
    intros [= <- <-].
  - left. eexists _, _. split; [reflexivity|]. split; reflexivity.
  - right. right. exists e0. split; reflexivity.
Qed.

Lemma execute_load_node_state (ext : Externals)
    node input_df run_id pipeline_name st r st' :
  execute_load_node node input_df run_id pipeline_name st = (r, st') ->
  (exists p rec, r = Ok p /\ st' = with_log st [rec] /\ log_level rec = INFO)
  \/ (exists e, r = Raise e /\ st' = st).
Proof.
  unfold execute_load_node, bindM, lift, log_node_execution, ret.
  destruct (node_subtype node) as [subtype|e0];
    [|intros [= <- <-]; right; eauto].
  destruct (node_config node) as [config|e0];
    [|intros [= <- <-]; right; eauto].
  match goal with
  | |- context [match ?x with Ok _ => _ | Raise _ => _ end] =>
      destruct x as [[p message]|e0]
  end; intros [= <- <-].
  - left. eexists _, _. split; [reflexivity|]. split; reflexivity.
  - right. eauto.
Qed.

Lemma primary_input_state (ext : Externals) edges node_id kind st r st' :
  primary_input edges node_id kind st = (r, st') -> st' = st.
Proof.
  unfold primary_input, raise, bindM, get_results, lift, ret.
  destruct (incoming edges node_id) as [|first others].
  - now intros [= <- <-].
  - destruct (dict_item (results st) (edge_from3 first));
      now intros [= <- <-].
Qed.


Lemma execute_nodes_app (ext : Externals)
    node_map edges run_id pipeline_name pre rest st st1 :
  execute_nodes node_map edges run_id pipeline_name pre st = (Ok tt, st1) ->
  execute_nodes node_map edges run_id pipeline_name (pre ++ rest) st
  = execute_nodes node_map edges run_id pipeline_name rest st1.
Proof.
  revert st. induction pre as [|x pre IH]; intros st; simpl.
  - unfold ret. now intros [= <-].
  - unfold bindM.
    destruct (execute_node node_map edges run_id pipeline_name x st)
      as [[[]|e] s1]; [|discriminate].
    apply IH.
Qed.


(** ** The depth-first search of [detect_cycles] *)

Lemma dfs_post_trans s s1 b s' :
  dfs_post s false s1 -> dfs_post s1 b s' -> dfs_post s b s'.
Proof.
  intros [I1 (n1 & E1 & L1 & M1)] [I2 (n2 & E2 & L2 & M2)]. split.
  - eapply incl_tran; eauto.
  - exists n2. split; [|split; auto]. rewrite E2, E1.
    destruct n1; [|discriminate]. now rewrite app_nil_r.
Qed.

Lemma visit_neighbors_post call node_id :
  call_post call ->
  forall nbrs s b s',
    visit_neighbors call node_id nbrs s = Some (Ok (b, s')) ->
    dfs_post s b s'.
Proof.
  intros Hcall. induction nbrs as [|nb rest IH]; intros s b s' H; simpl in H.
  - injection H as <- <-. split; simpl.
    + apply incl_refl.
    + exists []. rewrite app_nil_r. auto.
  - destruct (negb (mem nb (visited s))).
    + destruct (call nb s) as [[[[|] s1]|e]|] eqn:Hc; try discriminate.
      * injection H as <- <-. eapply Hcall; eauto.
      * eapply dfs_post_trans; [eapply Hcall; eauto|]. now apply IH.
    + destruct (mem nb (rec_stack s)); [|now apply IH].
      destruct (index_of nb (path s)); [|discriminate].
      injection H as <- <-. split; simpl.
      * apply incl_refl.
      * eexists. split; [reflexivity|]. split; [reflexivity|].
        constructor; [|constructor]. eexists. reflexivity.
Qed.

Lemma set_add_incl x s : incl s (set_add x s).
Proof.
  unfold set_add. destruct (mem x s); [apply incl_refl|].
  intros y Hy. apply in_or_app. now left.
Qed.

Lemma set_add_In x s : In x (set_add x s).
Proof.
  unfold set_add. destruct (mem x s) eqn:H.
  - now apply mem_In.
  - apply in_or_app. right. now left.
Qed.

Lemma dfs_call_post fuel adjacency : call_post (dfs fuel adjacency).
Proof.
  induction fuel as [|fuel IH]; intros n s b s' H; [discriminate|].
  simpl in H. apply (visit_neighbors_post _ _ IH) in H.
  destruct H as [I (new & E & L & M)]. simpl in *. split.
  - eapply incl_tran; [apply set_add_incl|exact I].
  - now exists new.
Qed.

Lemma dfs_roots_errors fuel adjacency : forall nodes st st',
  dfs_roots fuel adjacency nodes st = Some (Ok st') ->
  exists new, errors st' = errors st ++ new /\
              List.length new <= List.length nodes /\
              Forall is_cycle_message new.
Proof.
  induction nodes as [|node rest IH]; intros st st' H; simpl in H.
  - injection H as <-. exists []. rewrite app_nil_r. auto.
  - destruct (negb (mem (n_id node) (visited st))).
    + destruct (dfs fuel adjacency (n_id node) _) as [[[b s1]|e]|] eqn:Hd;
        try discriminate.
      apply dfs_call_post in Hd. destruct Hd as [_ (n1 & E1 & L1 & M1)].
      apply IH in H. destruct H as (n2 & E2 & L2 & M2).
      exists (n1 ++ n2). simpl in E1. rewrite E2, E1, app_assoc.
      split; auto. split; [|now apply Forall_app].
      rewrite length_app. simpl. destruct b; lia.
    + apply IH in H. destruct H as (n2 & E2 & L2 & M2).
      exists n2. split; auto. split; auto. simpl. lia.
Qed.

(** ** The depth bound of [dfs] is never reached *)

Lemma mem_incl x s s' : incl s s' -> mem x s = true -> mem x s' = true.
Proof. intros Hi H. apply mem_In. apply Hi. now apply mem_In. Qed.

Lemma unvisited_mono U vis vis' :
  incl vis vis' ->
  List.length (unvisited U vis') <= List.length (unvisited U vis).
Proof.
  intros Hi. induction U as [|y U IH]; simpl; auto.
  destruct (mem y vis) eqn:Hy.
  - rewrite (mem_incl y vis vis' Hi Hy). simpl. exact IH.
  - simpl. destruct (mem y vis'); simpl; lia.
Qed.

Lemma unvisited_add U vis x :
  In x U -> mem x vis = false ->
  List.length (unvisited U (set_add x vis)) < List.length (unvisited U vis).
Proof.
  intros Hin Hx. induction U as [|y U IH]; [destruct Hin|].
  pose proof (unvisited_mono U vis (set_add x vis) (set_add_incl x vis)) as Hm.
  simpl. destruct (string_dec y x) as [->|Hne].
  - rewrite Hx. assert (H1 : mem x (set_add x vis) = true).
    { apply mem_In. apply set_add_In. }
    rewrite H1. simpl. lia.
  - destruct Hin as [Hin|Hin]; [contradiction|]. specialize (IH Hin).
    destruct (mem y vis) eqn:Hy.
    + rewrite (mem_incl y vis _ (set_add_incl x vis) Hy). simpl. exact IH.
    + simpl. destruct (mem y (set_add x vis)); simpl; lia.
Qed.

Section DfsTotal.
Variable adjacency : dict (list string).
Variable U : list string.
Hypothesis HU : forall y x, In x (neighbours adjacency y) -> In x U.

Lemma visit_neighbors_total bound call node_id :
  call_post call -> call_total U bound call ->
  forall nbrs s,
    (forall x, In x nbrs -> In x U) ->
    List.length (unvisited U (visited s)) < bound ->
    visit_neighbors call node_id nbrs s <> None.
Proof.
  intros Hpost Htot. induction nbrs as [|nb rest IH]; intros s Hn Hm; simpl.
  - discriminate.
  - assert (Hrest : forall x, In x rest -> In x U) by (intros; apply Hn; now right).
    destruct (mem nb (visited s)) eqn:Hv; simpl.
    + destruct (mem nb (rec_stack s)); [|now apply IH].
      destruct (index_of nb (path s)); discriminate.
    + destruct (call nb s) as [[[[|] s1]|e]|] eqn:Hc; try discriminate.
      * apply IH; auto. apply Hpost in Hc. destruct Hc as [Hi _].
        pose proof (unvisited_mono U _ _ Hi). lia.
      * exfalso. apply (Htot nb s); auto. apply Hn. now left.
Qed.

Lemma dfs_total : forall fuel, call_total U fuel (dfs fuel adjacency).
Proof.
  induction fuel as [|fuel IH]; intros n st Hin Hv Hm; [lia|].
  simpl. apply (visit_neighbors_total fuel).
  - apply dfs_call_post.
  - exact IH.
  - intros x Hx. eapply HU; eauto.
  - simpl. pose proof (unvisited_add U (visited st) n Hin Hv). lia.
Qed.

Lemma dfs_roots_total fuel : forall nodes st,
  List.length U < fuel ->
  (forall n, In n nodes -> In (n_id n) U) ->
  dfs_roots fuel adjacency nodes st <> None.
Proof.
  induction nodes as [|node rest IH]; intros st Hf Hn; simpl; [discriminate|].
  assert (Hrest : forall n, In n rest -> In (n_id n) U)
    by (intros; apply Hn; now right).
  destruct (mem (n_id node) (visited st)) eqn:Hv; simpl; [now apply IH|].
  destruct (dfs fuel adjacency (n_id node) _) as [[[b s1]|e]|] eqn:Hd.
  - now apply IH.
  - discriminate.
  - exfalso. revert Hd. apply dfs_total; simpl; auto.
    + apply Hn. now left.
    + unfold unvisited. pose proof (filter_length_le
        (fun x => negb (mem x (visited st))) U). lia.
Qed.
End DfsTotal.

Lemma adj_targets_set adjacency f l t :
  dict_get adjacency f = Some l ->
  List.length (adj_targets (dict_set adjacency f (l ++ [t])))
  = S (List.length (adj_targets adjacency)).
Proof.
  unfold adj_targets. induction adjacency as [|[k v] d IH]; simpl; [discriminate|].
  destruct (k =? f) eqn:Hk.
  - intros [= ->]. simpl. rewrite !length_app. simpl. lia.
  - intros H. simpl. rewrite !length_app, (IH H). lia.
Qed.

Lemma build_adjacency_size : forall edges adjacency adjacency',
  build_adjacency adjacency edges = Ok adjacency' ->
  dict_keys adjacency' = dict_keys adjacency /\
  List.length (adj_targets adjacency')
  <= List.length (adj_targets adjacency) + List.length edges.
Proof.
  induction edges as [|e edges IH]; intros adj adj' H; simpl in H.
  - injection H as <-. split; auto. lia.
  - assert (Hskip : build_adjacency adj edges = Ok adj' ->
                    dict_keys adj' = dict_keys adj /\
                    List.length (adj_targets adj')
                    <= List.length (adj_targets adj) + List.length (e :: edges)).
    { intros H'. apply IH in H'. simpl. destruct H'. split; auto. lia. }
    destruct (edge_from3 e) as [f|]; [|auto].
    destruct (edge_to3 e) as [t|]; [|auto].
    destruct (str_truthy (Some f) && str_truthy (Some t)); [|auto].
    destruct (dict_get adj f) as [l|] eqn:Hl; [|discriminate].
    apply IH in H. destruct H as [H1 H2].
    rewrite dict_keys_set_in in H1 by (apply dict_get_In; eauto).
    rewrite (adj_targets_set adj f l t Hl) in H2. simpl. split; auto. lia.
Qed.

Lemma adj_targets_empty (d : dict (list string)) :
  (forall k v, In (k, v) d -> v = []) -> adj_targets d = [].
Proof.
  unfold adj_targets. induction d as [|[k v] d IH]; intros H; simpl; auto.
  rewrite (H k v (or_introl eq_refl)). simpl. apply IH.
  intros k' v' Hin. apply (H k' v'). now right.
Qed.

Lemma neighbours_targets adjacency y x :
  In x (neighbours adjacency y) ->
  In x (dict_keys adjacency ++ adj_targets adjacency).
Proof.
  unfold neighbours. destruct (dict_get adjacency y) as [l|] eqn:Hl; [|intros []].
  intros Hx. apply in_or_app. right. unfold adj_targets.
  apply in_concat. exists l. split; auto.
  apply in_map_iff. exists (y, l). split; auto. now apply dict_get_pair_inv.
Qed.

(** The bound [dfs_fuel] is never what stops [detect_cycles]: it always
    returns a list of errors or raises. *)
Theorem detect_cycles_terminates nodes edges :
  detect_cycles nodes edges <> None.
Proof.
  unfold detect_cycles.
  destruct (build_adjacency _ edges) as [adjacency|e] eqn:HB; [|discriminate].
  destruct (@dict_of_nodes_keys (list string) [] nodes) as (KN & KI & K0).
  apply build_adjacency_size in HB. destruct HB as [Hk Hsize].
  rewrite (adj_targets_empty (dict_of_nodes [] nodes)) in Hsize.
  2:{ intros k v Hin. apply (K0 k). apply dict_get_pair; [exact KN|exact Hin]. }
  simpl in Hsize.
  assert (Hroots :
    dfs_roots (dfs_fuel nodes edges) adjacency nodes (mkDfs [] [] [] [])
    <> None).
  { apply (dfs_roots_total adjacency
             (dict_keys adjacency ++ adj_targets adjacency)).
    - apply neighbours_targets.
    - unfold dfs_fuel. rewrite length_app, Hk.
      assert (List.length (dict_keys (dict_of_nodes (@nil string) nodes))
              <= List.length nodes).
      { rewrite <- (length_map n_id nodes).
        apply NoDup_incl_length; auto. intros k Hin. now apply KI. }
      lia.
    - intros n Hn. apply in_or_app. left. rewrite Hk. apply KI.
      now apply in_map. }
  destruct (dfs_roots _ adjacency nodes _) as [[st|e]|]; congruence.
Qed.

(** X10. [validate_pipeline] always comes to an end, with a verdict or
    an exception: the recursion of the search in [detect_cycles]
    never goes deeper than the number of nodes and edges plus one,
    whatever the graph. *)
Theorem validate_pipeline_terminates pipeline_json :
  validate_pipeline pipeline_json <> None.
Proof.
  unfold validate_pipeline. destruct (p_nodes pipeline_json) as [|n nodes].
  - discriminate.
  - pose proof (detect_cycles_terminates (n :: nodes) (p_edges pipeline_json)).
    destruct (detect_cycles (n :: nodes) (p_edges pipeline_json)) as [[errs|e]|];
      congruence.
Qed.



(** ** A search that reports nothing has seen no cycle *)

Lemma set_remove_In x y s : In x (set_remove y s) <-> In x s /\ x <> y.
Proof.
  unfold set_remove. rewrite filter_In. split.
  - intros [H1 H2]. split; auto. intros ->.
    rewrite String.eqb_refl in H2. discriminate.
  - intros [H1 H2]. split; auto. apply negb_true_iff.
    now apply String.eqb_neq.
Qed.

Lemma set_remove_notin y s : ~ In y s -> set_remove y s = s.
Proof.
  unfold set_remove. induction s as [|a s IH]; simpl; auto.
  intros H. destruct (a =? y) eqn:Ha.
  - apply String.eqb_eq in Ha. subst. tauto.
  - simpl. f_equal. apply IH. tauto.
Qed.

Lemma set_remove_add y s : ~ In y s -> set_remove y (set_add y s) = s.
Proof.
  intros H. unfold set_add.
  assert (Hm : mem y s = false) by now apply mem_false.
  rewrite Hm. unfold set_remove. rewrite filter_app. simpl.
  rewrite String.eqb_refl. simpl. rewrite app_nil_r.
  now apply set_remove_notin.
Qed.

Lemma set_add_cases x y s : In x (set_add y s) -> x = y \/ In x s.
Proof.
  unfold set_add. destruct (mem y s); auto.
  intros H. apply in_app_or in H. destruct H as [H|[H|[]]]; auto.
Qed.

Section DfsClean.
Variable adjacency : dict (list string).

Lemma visit_neighbors_clean call node_id :
  call_clean adjacency call ->
  forall nbrs done s s' F,
    neighbours adjacency node_id = done ++ nbrs ->
    (forall v, In v done -> In v F) ->
    visit_neighbors call node_id nbrs s = Some (Ok (false, s')) ->
    dfs_inv adjacency s F ->
    In node_id (rec_stack s) ->
    exists F', dfs_inv adjacency s' (F ++ F' ++ [node_id]) /\
               rec_stack s' = set_remove node_id (rec_stack s).
Proof.
  intros Hcall. induction nbrs as [|nb rest IH];
    intros done s s' F Hsplit Hdone H Hinv Hstack; simpl in H.
  - injection H as <-. exists []. simpl. split; [|reflexivity].
    rewrite app_nil_r in Hsplit.
    assert (HnF : ~ In node_id F).
    { intros HF. now apply (fin_off_stack _ _ _ Hinv) in HF. }
    constructor; simpl.
    + intros x Hx. apply in_app_or in Hx. destruct Hx as [Hx|[<-|[]]].
      * now apply (fin_visited _ _ _ Hinv).
      * now apply (fin_stack _ _ _ Hinv).
    + intros x Hx Hr. apply set_remove_In in Hr. destruct Hr as [Hr Hne].
      apply in_app_or in Hx. destruct Hx as [Hx|[Hx|[]]].
      * now apply (fin_off_stack _ _ _ Hinv) in Hx.
      * congruence.
    + intros x Hx. destruct (string_dec x node_id) as [->|Hne].
      * left. apply in_or_app. right. now left.
      * destruct (fin_cover _ _ _ Hinv x Hx) as [Hf|Hr].
        -- left. apply in_or_app. now left.
        -- right. apply set_remove_In. auto.
    + intros x Hx. apply set_remove_In in Hx. destruct Hx as [Hx _].
      now apply (fin_stack _ _ _ Hinv).
    + intros u v Hu Huv. apply in_app_or in Hu. destruct Hu as [Hu|[<-|[]]].
      * apply before_app. now apply (fin_closed _ _ _ Hinv).
      * unfold adj_edge in Huv. rewrite Hsplit in Huv.
        apply Hdone in Huv.
        destruct (index_of_In v F Huv) as (i & Hi & Hlt).
        exists i, (List.length F). split; [|split; auto].
        -- now apply index_of_app_l.
        -- now apply index_of_snoc_new.
  - assert (Hsplit' : neighbours adjacency node_id = (done ++ [nb]) ++ rest)
      by now rewrite <- app_assoc.
    destruct (mem nb (visited s)) eqn:Hv; simpl in H.
    + destruct (mem nb (rec_stack s)) eqn:Hr.
      * destruct (index_of nb (path s)); discriminate.
      * apply (IH (done ++ [nb]) s s' F Hsplit'); auto.
        intros v Hin. apply in_app_or in Hin. destruct Hin as [Hin|[<-|[]]]; auto.
        apply mem_In in Hv. apply mem_false in Hr.
        destruct (fin_cover _ _ _ Hinv nb Hv); tauto.
    + destruct (call nb s) as [[[[|] s1]|e]|] eqn:Hc; try discriminate.
      apply mem_false in Hv.
      destruct (Hcall nb s s1 F Hc Hinv Hv) as (F1 & Hinv1 & Hnb & Hrs).
      destruct (IH (done ++ [nb]) s1 s' (F ++ F1) Hsplit') as (F2 & Hinv2 & Hrs2);
        auto.
      * intros v Hin. apply in_app_or in Hin.
        destruct Hin as [Hin|[<-|[]]]; auto.
        apply in_or_app. left. now apply Hdone.
      * now rewrite Hrs.
      * exists (F1 ++ F2). split.
        -- now rewrite <- !app_assoc in *.
        -- now rewrite Hrs2, Hrs.
Qed.

Lemma dfs_clean fuel : call_clean adjacency (dfs fuel adjacency).
Proof.
  induction fuel as [|fuel IH]; intros n st st' F H Hinv Hn; [discriminate|].
  simpl in H.
  assert (HnR : ~ In n (rec_stack st)).
  { intros Hr. now apply (fin_stack _ _ _ Hinv) in Hr. }
  apply (visit_neighbors_clean _ _ IH _ [] _ _ F) in H; auto.
  - destruct H as (F' & Hinv' & Hrs). simpl in Hrs.
    exists (F' ++ [n]). split; [exact Hinv'|]. split.
    + apply in_or_app. right. apply in_or_app. right. now left.
    + rewrite Hrs. now apply set_remove_add.
  - intros v [].
  - constructor; simpl.
    + intros x Hx. apply set_add_incl. now apply (fin_visited _ _ _ Hinv).
    + intros x Hx Hr. apply set_add_cases in Hr. destruct Hr as [->|Hr].
      * now apply (fin_visited _ _ _ Hinv) in Hx.
      * now apply (fin_off_stack _ _ _ Hinv) in Hx.
    + intros x Hx. apply set_add_cases in Hx. destruct Hx as [->|Hx].
      * right. apply set_add_In.
      * destruct (fin_cover _ _ _ Hinv x Hx); auto.
        right. now apply set_add_incl.
    + intros x Hx. apply set_add_cases in Hx. destruct Hx as [->|Hx].
      * apply set_add_In.
      * apply set_add_incl. now apply (fin_stack _ _ _ Hinv).
    + apply (fin_closed _ _ _ Hinv).
  - simpl. apply set_add_In.
Qed.

Lemma dfs_roots_clean fuel : forall nodes st st' F,
  dfs_roots fuel adjacency nodes st = Some (Ok st') ->
  errors st' = errors st ->
  dfs_inv adjacency st F ->
  rec_stack st = [] ->
  exists F', dfs_inv adjacency st' (F ++ F') /\ rec_stack st' = [] /\
             forall n, In n nodes -> In (n_id n) (visited st').
Proof.
  induction nodes as [|node rest IH]; intros st st' F H Herr Hinv Hrs;
    simpl in H.
  - injection H as <-. exists []. rewrite app_nil_r.
    split; [exact Hinv|]. split; [exact Hrs|]. intros n [].
  - destruct (mem (n_id node) (visited st)) eqn:Hv; simpl in H.
    + destruct (IH st st' F H Herr Hinv Hrs) as (F' & Hinv' & Hrs' & Hall).
      exists F'. split; [exact Hinv'|]. split; [exact Hrs'|].
      intros n [<-|Hn]; auto.
      apply mem_In in Hv.
      destruct (fin_cover _ _ _ Hinv _ Hv) as [Hf|Hr].
      * apply (fin_visited _ _ _ Hinv'). apply in_or_app. now left.
      * rewrite Hrs in Hr. destruct Hr.
    + set (st0 := mkDfs (visited st) (rec_stack st) [] (errors st)) in *.
      destruct (dfs fuel adjacency (n_id node) st0) as [[[b s1]|e]|] eqn:Hd;
        try discriminate.
      pose proof (dfs_call_post fuel adjacency _ _ _ _ Hd) as [_ (n1 & E1 & L1 & _)].
      pose proof (dfs_roots_errors fuel adjacency rest s1 st' H) as (n2 & E2 & _ & _).
      simpl in E1. rewrite E2, E1, <- app_assoc in Herr.
      assert (Hnil : n1 ++ n2 = []).
      { apply (app_inv_head (errors st)). now rewrite app_nil_r. }
      apply app_eq_nil in Hnil. destruct Hnil as [-> ->].
      destruct b; [discriminate|].
      assert (Hinv0 : dfs_inv adjacency st0 F).
      { destruct Hinv. constructor; auto. }
      apply mem_false in Hv.
      destruct (dfs_clean fuel _ _ _ F Hd Hinv0 Hv) as (F1 & Hinv1 & Hin1 & Hrs1).
      simpl in Hrs1.
      destruct (IH s1 st' (F ++ F1) H) as (F2 & Hinv2 & Hrs2 & Hall); auto.
      * rewrite E2, E1. now rewrite !app_nil_r.
      * now rewrite Hrs1.
      * exists (F1 ++ F2). rewrite app_assoc.
        split; [exact Hinv2|]. split; [exact Hrs2|].
        intros n [<-|Hn]; auto.
        apply (fin_visited _ _ _ Hinv2). apply in_or_app. now left.
Qed.
End DfsClean.

Lemma neighbours_set_same adjacency f l :
  neighbours (dict_set adjacency f l) f = l.
Proof. unfold neighbours. now rewrite dict_get_set_same. Qed.

Lemma neighbours_set_other adjacency f u l :
  f <> u -> neighbours (dict_set adjacency f l) u = neighbours adjacency u.
Proof. intros H. unfold neighbours. now rewrite dict_get_set_other. Qed.

(** Every edge with two truthy endpoints is in the adjacency lists that
    [detect_cycles] builds, and its source is one of their keys. *)
Lemma build_adjacency_edges : forall edges adjacency adjacency',
  build_adjacency adjacency edges = Ok adjacency' ->
  (forall u v, adj_edge adjacency u v -> adj_edge adjacency' u v) /\
  (forall u v, edge3 edges u v ->
               adj_edge adjacency' u v /\ In u (dict_keys adjacency)).
Proof.
  induction edges as [|e edges IH]; intros adj adj' H; simpl in H.
  - injection H as <-. split; auto. intros u v (e & [] & _).
  - assert (Hskip :
      build_adjacency adj edges = Ok adj' ->
      ~ (exists u v, edge_from3 e = Some u /\ edge_to3 e = Some v /\
                     u <> EmptyString /\ v <> EmptyString) ->
      (forall u v, adj_edge adj u v -> adj_edge adj' u v) /\
      (forall u v, edge3 (e :: edges) u v ->
                   adj_edge adj' u v /\ In u (dict_keys adj))).
    { intros H' Hno. destruct (IH _ _ H') as [I1 I2]. split; auto.
      intros u v (e' & [<-|Hin] & Hf & Ht & Hu & Hv).
      - exfalso. apply Hno. now exists u, v.
      - apply I2. now exists e'. }
    destruct (edge_from3 e) as [f|] eqn:Hf.
    2:{ apply Hskip; auto. intros (u & v & Hu & _). discriminate. }
    destruct (edge_to3 e) as [t|] eqn:Ht.
    2:{ apply Hskip; auto. intros (u & v & _ & Hv & _). discriminate. }
    destruct (str_truthy (Some f) && str_truthy (Some t)) eqn:Htr.
    2:{ apply Hskip; auto. intros (u & v & [= <-] & [= <-] & Hu & Hv).
        simpl in Htr. apply String.eqb_neq in Hu, Hv.
        rewrite Hu, Hv in Htr. discriminate. }
    destruct (dict_get adj f) as [l|] eqn:Hl; [|discriminate].
    destruct (IH _ _ H) as [I1 I2].
    assert (Hk : dict_keys (dict_set adj f (l ++ [t])) = dict_keys adj).
    { apply dict_keys_set_in. apply dict_get_In. eauto. }
    assert (Hmono : forall u v, adj_edge adj u v ->
                                adj_edge (dict_set adj f (l ++ [t])) u v).
    { intros u v Huv. unfold adj_edge in *.
      destruct (string_dec f u) as [<-|Hne].
      - rewrite neighbours_set_same. unfold neighbours in Huv.
        rewrite Hl in Huv. apply in_or_app. now left.
      - now rewrite neighbours_set_other. }
    split.
    + intros u v Huv. apply I1. now apply Hmono.
    + intros u v (e' & [<-|Hin] & Hf' & Ht' & Hu & Hv).
      * rewrite Hf in Hf'. rewrite Ht in Ht'.
        injection Hf' as <-. injection Ht' as <-. split.
        -- apply I1. unfold adj_edge. rewrite neighbours_set_same.
           apply in_or_app. right. now left.
        -- apply dict_get_In. eauto.
      * destruct (I2 u v) as [J1 J2]; [now exists e'|].
        split; auto. now rewrite Hk in J2.
Qed.

Lemma clos_trans_1n_incl (R R' : string -> string -> Prop) :
  (forall u v, R u v -> R' u v) ->
  forall x y, clos_trans_1n string R x y -> clos_trans_1n string R' x y.
Proof.
  intros H x y C. induction C as [x y Hxy | x z y Hxz _ IH].
  - apply Relation_Operators.t1n_step. auto.
  - apply Relation_Operators.t1n_trans with z; auto.
Qed.

Lemma no_cycle_of_finish_order (R : string -> string -> Prop) F :
  (forall u v, R u v -> before F v u) ->
  forall x, ~ clos_trans_1n string R x x.
Proof.
  intros H x C.
  assert (G : forall a b, clos_trans_1n string R a b -> before F b a).
  { intros a b Cab. induction Cab as [a b Hab | a c b Hac _ IH]; auto.
    eapply before_trans; eauto. }
  apply (before_irrefl F x). now apply G.
Qed.

Lemma dfs_inv_init adjacency : dfs_inv adjacency (mkDfs [] [] [] []) [].
Proof. constructor; simpl; tauto. Qed.

(** When [detect_cycles] returns, every message it returns is a cycle
    message, and if the graph has a directed cycle there is at least
    one. *)
Theorem detect_cycles_reports_a_cycle nodes edges x errs :
  clos_trans_1n string (edge3 edges) x x ->
  detect_cycles nodes edges = Some (Ok errs) ->
  errs <> [] /\ Forall is_cycle_message errs.
Proof.
  intros Hcyc H. unfold detect_cycles in H.
  destruct (build_adjacency _ edges) as [adjacency|e] eqn:HB; [|discriminate].
  destruct (dfs_roots _ adjacency nodes _) as [[st|e]|] eqn:Hr;
    try discriminate.
  injection H as <-.
  destruct (dfs_roots_errors _ _ _ _ _ Hr) as (new & E & _ & M).
  simpl in E. subst new. split; [|exact M].
  intros Hnil.
  destruct (dfs_roots_clean adjacency _ nodes _ st [] Hr) as (F & Hinv & Hrs & Hall);
    auto using dfs_inv_init.
  simpl in Hinv.
  destruct (build_adjacency_edges _ _ _ HB) as [_ HE].
  destruct (@dict_of_nodes_keys (list string) [] nodes) as (_ & KI & _).
  apply (no_cycle_of_finish_order (edge3 edges) F) with (x := x); auto.
  intros u v Huv. destruct (HE u v Huv) as [Hadj Hkey].
  apply (fin_closed _ _ _ Hinv); auto.
  apply KI in Hkey. apply in_map_iff in Hkey. destruct Hkey as (n & <- & Hn).
  destruct (fin_cover _ _ _ Hinv _ (Hall n Hn)) as [Hf|Hs]; auto.
  rewrite Hrs in Hs. destruct Hs.
Qed.

(** X8. A graph with a directed cycle is never accepted: when
    [validate_pipeline] returns for it, the verdict is False, with a
    cycle message among the errors when there are nodes at all. *)
Theorem validate_pipeline_rejects_cycles pipeline_json x is_valid errs :
  clos_trans_1n string (edge3 (p_edges pipeline_json)) x x ->
  validate_pipeline pipeline_json = Some (Ok (is_valid, errs)) ->
  is_valid = false /\
  (p_nodes pipeline_json <> [] ->
   exists m, In m errs /\ is_cycle_message m).
Proof.
  intros Hcyc H. unfold validate_pipeline in H.
  destruct (p_nodes pipeline_json) as [|n nodes] eqn:Hn.
  - injection H as <- <-. split; auto. intros []. reflexivity.
  - destruct (detect_cycles (n :: nodes) (p_edges pipeline_json))
      as [[cycle_errors|e]|] eqn:Hd; try discriminate.
    destruct (detect_cycles_reports_a_cycle _ _ _ _ Hcyc Hd) as [Hne HM].
    destruct cycle_errors as [|m rest]; [congruence|].
    injection H as <- <-. split; [reflexivity|]. intros _.
    exists m. split; [now left|]. now inversion HM.
Qed.

(** ** Every reported cycle is a cycle of the graph *)





Section DfsSound.
Variable adjacency : dict (list string).
Local Abbreviation R := (adj_edge adjacency).



End DfsSound.






(** ** The failures in general *)

(** An edge whose 'from' is truthy and names no node, next to a truthy
    'to', makes the adjacency loop of [detect_cycles] raise
    [KeyError]. *)
Lemma build_adjacency_dangling_from : forall edges adjacency e f t,
  In e edges ->
  edge_from3 e = Some f -> edge_to3 e = Some t ->
  f <> EmptyString -> t <> EmptyString ->
  ~ In f (dict_keys adjacency) ->
  exists k, build_adjacency adjacency edges = Raise (KeyError k).
Proof.
  induction edges as [|e0 edges IH]; intros adj e f t Hin Hf Ht Hfe Hte Hk;
    [destruct Hin|].
  simpl. destruct Hin as [->|Hin].
  - rewrite Hf, Ht. simpl. apply String.eqb_neq in Hfe, Hte.
    rewrite Hfe, Hte. simpl.
    destruct (dict_get adj f) as [l|] eqn:Hl; [|eauto].
    exfalso. apply Hk. apply dict_get_In. eauto.
  - destruct (edge_from3 e0) as [f0|]; [|eauto].
    destruct (edge_to3 e0) as [t0|]; [|eauto].
    destruct (str_truthy (Some f0) && str_truthy (Some t0)); [|eauto].
    destruct (dict_get adj f0) as [l|] eqn:Hl; [|eauto].
    apply (IH _ e f t); auto.
    rewrite dict_keys_set_in; auto. apply dict_get_In. eauto.
Qed.

(** X9. With at least one node, an edge with a target and with a
    source id that is not a node id makes [validate_pipeline] raise
    [KeyError] out of [detect_cycles]: [validate_edges], which has a
    message for such an edge, is never reached. *)
Theorem validate_pipeline_dangling_from pipeline_json e f t :
  p_nodes pipeline_json <> [] ->
  In e (p_edges pipeline_json) ->
  edge_from3 e = Some f -> edge_to3 e = Some t ->
  f <> EmptyString -> t <> EmptyString ->
  ~ In f (map n_id (p_nodes pipeline_json)) ->
  exists k, validate_pipeline pipeline_json = Some (Raise (KeyError k)).
Proof.
  intros Hn Hin Hf Ht Hfe Hte Hk. unfold validate_pipeline, detect_cycles.
  destruct (p_nodes pipeline_json) as [|n nodes] eqn:Hnodes; [congruence|].
  destruct (build_adjacency_dangling_from (p_edges pipeline_json)
              (dict_of_nodes [] (n :: nodes)) e f t) as [k Hb]; auto.
  - intros Hin'. apply Hk.
    now apply (@dict_of_nodes_keys (list string) [] (n :: nodes)).
  - rewrite Hb. eauto.
Qed.

(** An edge that gives an endpoint under no key [topological_sort]
    reads makes its edge loop raise [KeyError]. *)
Lemma build_graph_unread_endpoint : forall edges adjacency in_degree e,
  In e edges ->
  edge_from2 e = None \/ edge_to2 e = None ->
  exists k, build_graph adjacency in_degree edges = Raise (KeyError k).
Proof.
  induction edges as [|e0 edges IH]; intros adj deg e Hin Hnone;
    [destruct Hin|].
  simpl. unfold dict_item.
  destruct (edge_from2 e0) as [f0|] eqn:Hf0; [|simpl; eauto].
  destruct (dict_get adj f0) as [l|]; [|simpl; eauto]. simpl.
  destruct (edge_to2 e0) as [t0|] eqn:Ht0; [|simpl; eauto].
  destruct (dict_get deg t0) as [d|]; [|simpl; eauto]. simpl.
  destruct Hin as [->|Hin].
  - destruct Hnone; congruence.
  - now apply (IH _ _ e).
Qed.

(** The general form of C4's failure: an edge given only as
    source/target makes [topological_sort] raise. *)
Theorem topological_sort_unread_endpoint nodes edges e :
  In e edges ->
  edge_from2 e = None \/ edge_to2 e = None ->
  exists k, topological_sort nodes edges = Some (Raise (KeyError k)).
Proof.
  intros Hin Hnone. unfold topological_sort.
  destruct (build_graph_unread_endpoint edges (dict_of_nodes [] nodes)
              (dict_of_nodes 0%Z nodes) e Hin Hnone) as [k Hk].
  rewrite Hk. eauto.
Qed.

(** The AGGREGATE body raises on every aggregation config that has
    keys: iterating a dict gives its keys, and a key (a string) cannot
    be indexed by 'column'. *)
Lemma aggregate_transform_dict (ext : Externals) config df d :
  dict_get config "aggregations" = Some (VDict d) ->
  exists e, aggregate_transform config df = Raise e.
Proof.
  intros Hd. unfold aggregate_transform, cfg_get_default. rewrite Hd.
  destruct (negb (truthy _)); [eauto|].
  destruct d as [|[k v] d]; simpl; eauto.
Qed.

Lemma aggregate_transform_absent (ext : Externals) config df :
  dict_get config "aggregations" = None ->
  exists e, aggregate_transform config df = Raise e.
Proof.
  intros Hd. unfold aggregate_transform, cfg_get_default. rewrite Hd.
  destruct (negb (truthy _)); simpl; eauto.
Qed.

Lemma validate_aggregate_not_dict (ext : Externals) node config df v :
  n_subtype node = Some "AGGREGATE" ->
  n_config node = Some config ->
  dict_get config "aggregations" = Some v ->
  (forall d, v <> VDict d) ->
  exists e, validate_transform_schema node df = Raise e.
Proof.
  intros Hs Hc Hv Hnd.
  unfold validate_transform_schema, node_subtype, node_config.
  rewrite Hs, Hc. cbn [bind]. simpl ("AGGREGATE" =? _). cbn iota.
  destruct (py_iter _) as [cols|e]; [|simpl; eauto]. cbn [bind].
  destruct (missing_columns cols _) as [missing|e]; [|simpl; eauto].
  cbn [bind]. destruct (nonempty missing); [eauto|].
  unfold cfg_get_default. rewrite Hv.
  destruct v; simpl; eauto. exfalso. now apply (Hnd d).
Qed.

(** X19. No AGGREGATE node ever completes: whatever its config and
    input, [execute_transform_node] raises, because the schema check
    asks for a dictionary of aggregations and the transform for a
    list of them. *)
Theorem aggregate_never_completes (ext : Externals)
    node input_df run_id ctx st :
  n_subtype node = Some "AGGREGATE" ->
  exists e st',
    execute_transform_node node input_df run_id ctx st = (Raise e, st').
Proof.
  intros Hs.
  unfold execute_transform_node, bindM, lift, try_except,
    log_node_execution, raise.
  unfold node_subtype at 1. rewrite Hs.
  destruct (node_config node) as [config|e] eqn:Hc; [|eauto].
  assert (Hc' : n_config node = Some config).
  { unfold node_config in Hc. destruct (n_config node); congruence. }
  assert (Hbody : exists e, validate_transform_schema node input_df = Raise e
                            \/ transform_body "AGGREGATE" config input_df ctx
                               = Raise e).
  { change (transform_body "AGGREGATE" config input_df ctx)
      with (aggregate_transform config input_df).
    destruct (dict_get config "aggregations") as [v|] eqn:Hv.
    - destruct v;
        try (destruct (validate_aggregate_not_dict ext node config input_df
                         _ Hs Hc' Hv) as [e He];
             [intros d0; discriminate | exists e; now left]).
      destruct (aggregate_transform_dict ext config input_df d Hv) as [e He].
      exists e. now right.
    - destruct (aggregate_transform_absent ext config input_df Hv) as [e He].
      exists e. now right. }
  destruct Hbody as [e [He|He]].
  - rewrite He. eauto.
  - destruct (validate_transform_schema node input_df) as [[]|e0]; [|eauto].
    rewrite He. eauto.
Qed.

(** * Further properties *)

Lemma validate_pipeline_rejects_cycles_witness :
  false = false /\
  (p_nodes loop_pipeline <> [] ->
   exists m, In m loop_errors /\ is_cycle_message m).
Proof.
  apply (validate_pipeline_rejects_cycles loop_pipeline "a" false loop_errors).
  - apply Relation_Operators.t1n_trans with "b".
    + exists (edge_ft "a" "b"). simpl. repeat split; auto; discriminate.
    + apply Relation_Operators.t1n_step.
      exists (edge_ft "b" "a"). simpl. repeat split; auto; discriminate.
  - reflexivity.
Defined.

Lemma validate_pipeline_dangling_from_witness :
  exists k,
    validate_pipeline (mkPipeline [node_of "a" "SOURCE"] [edge_ft "x" "a"])
    = Some (Raise (KeyError k)).
Proof.
  apply (validate_pipeline_dangling_from
           (mkPipeline [node_of "a" "SOURCE"] [edge_ft "x" "a"])
           (edge_ft "x" "a") "x" "a"); simpl; auto; try discriminate.
  intros [H|[]]. discriminate.
Defined.

Lemma aggregate_never_completes_witness :
  exists e st',
    @execute_transform_node (in_memory []) aggregate_node group_frame 7 []
                            (mkState [] [] [])
    = (Raise e, st').
Proof.
  apply (aggregate_never_completes (in_memory []) aggregate_node group_frame
                                   7 [] (mkState [] [] [])).
  reflexivity.
Defined.

(** ** What [topological_sort] returns, in general *)

Lemma build_graph_known : forall edges adj deg adj' deg',
  build_graph adj deg edges = Ok (adj', deg') ->
  forall e, In e edges ->
    exists f t, edge_from2 e = Some f /\ edge_to2 e = Some t /\
                In f (dict_keys adj) /\ In t (dict_keys deg).
Proof.
  induction edges as [|edge rest IH]; intros adj deg adj' deg' HB e He.
  - destruct He.
  - simpl in HB.
    destruct (dict_item adj (edge_from2 edge)) as [l|ex] eqn:Hl; [|discriminate].
    destruct (dict_item deg (edge_to2 edge)) as [d|ex] eqn:Hd; [|discriminate].
    simpl in HB.
    apply dict_item_Ok in Hl. destruct Hl as (f & Hf & Hgf).
    apply dict_item_Ok in Hd. destruct Hd as (t & Ht & Hgt).
    rewrite Hf, Ht in HB.
    assert (Hfk : In f (dict_keys adj)) by (apply dict_get_In; eauto).
    assert (Htk : In t (dict_keys deg)) by (apply dict_get_In; eauto).
    destruct He as [<-|He].
    + exists f, t. auto.
    + destruct (IH _ _ _ _ HB e He) as (f' & t' & H1 & H2 & H3 & H4).
      exists f', t'. repeat split; auto.
      * now rewrite (dict_keys_set_in _ adj f (l ++ [t]) Hfk) in H3.
      * now rewrite (dict_keys_set_in _ deg t (d + 1)%Z Htk) in H4.
Qed.

(** What the loop of [topological_sort] leaves, whatever the graph:
    the nodes it has sorted are distinct node ids, every edge into a
    sorted node comes from an earlier one, and an id left out has an
    inbound edge from an id left out. *)
Lemma topological_sort_outcome nodes edges adj deg :
  build_graph (dict_of_nodes [] nodes) (dict_of_nodes 0%Z nodes) edges
    = Ok (adj, deg) ->
  exists out,
    kahn (List.length nodes) adj deg (zero_in_degree deg) [] = Some (Ok out) /\
    NoDup out /\
    (forall v, In v out -> In v (map n_id nodes)) /\
    (forall u v, In (u, v) (edge_pairs edges) -> In v out -> before out u v) /\
    (forall v, In v (map n_id nodes) -> ~ In v out ->
       exists u, In (u, v) (edge_pairs edges) /\
                 In u (map n_id nodes) /\ ~ In u out).
Proof.
  intros HB.
  destruct (topological_sort_loop nodes edges adj deg HB) as (out & deg' & HK & Hinv).
  destruct (@dict_of_nodes_keys Z 0%Z nodes) as (KN & KI & _).
  set (K := dict_keys (dict_of_nodes 0%Z nodes)) in *.
  set (E := edge_pairs edges) in *.
  destruct Hinv as [Hk Hnd Hsub Hdeg Hzero Hord].
  rewrite app_nil_r in Hnd.
  assert (HE : forall f t, In (f, t) E -> In f K /\ In t K).
  { apply build_graph_spec in HB. destruct HB as (_ & _ & B3 & _).
    rewrite (dict_of_nodes_keys_eq (@nil string) 0%Z nodes) in B3. exact B3. }
  exists out. split; [exact HK|]. split; [exact Hnd|]. split; [|split].
  - intros v Hv. apply KI, Hsub. now rewrite app_nil_r.
  - exact Hord.
  - intros v Hv Hnv. apply KI in Hv.
    assert (Hnz : rem_indeg E out v <> 0).
    { intros H0. apply Hnv. specialize (Hzero v Hv).
      rewrite app_nil_r in Hzero. apply Hzero. rewrite Hdeg. lia. }
    destruct (rem_indeg_pos E out v Hnz) as (u & Hu & Hnu).
    exists u. repeat split; auto. apply KI. now apply HE in Hu.
Qed.

(** X1. An order returned by [topological_sort] is only ever returned
    for a graph that has one: the node ids are pairwise distinct, every
    edge names two node ids, the graph has no directed cycle, and the
    order lists every node id once with the source of every edge before
    its target. *)
Theorem topological_sort_sound nodes edges order :
  topological_sort nodes edges = Some (Ok order) ->
  NoDup (map n_id nodes) /\
  edges_known nodes edges /\
  acyclic (edge_pairs edges) /\
  Permutation order (map n_id nodes) /\
  (forall u v, In (u, v) (edge_pairs edges) -> before order u v).
Proof.
  unfold topological_sort. intros H.
  destruct (build_graph _ _ edges) as [[adj deg]|e] eqn:HB; [|discriminate].
  destruct (topological_sort_outcome nodes edges adj deg HB)
    as (out & HK & Hnd & Hsub & Hord & Hleft).
  rewrite HK in H.
  destruct (List.length out =? List.length nodes)%nat eqn:Hlen;
    simpl in H; [|discriminate].
  injection H as <-. apply Nat.eqb_eq in Hlen.
  assert (Hids : NoDup (map n_id nodes)).
  { apply NoDup_incl_NoDup with (l := out); auto. rewrite length_map. lia. }
  assert (Hall : forall v, In v (map n_id nodes) -> In v out).
  { apply NoDup_length_incl; auto. rewrite length_map. lia. }
  assert (Hknown : edges_known nodes edges).
  { intros e He.
    destruct (build_graph_known _ _ _ _ _ HB e He) as (f & t & Hf & Ht & Hfk & Htk).
    exists f, t. repeat split; auto.
    - now apply (@dict_of_nodes_keys (list string) [] nodes).
    - now apply (@dict_of_nodes_keys Z 0%Z nodes). }
  assert (Hbefore : forall u v, In (u, v) (edge_pairs edges) -> before out u v).
  { intros u v Huv. apply Hord; auto. apply Hall.
    apply build_graph_spec in HB. destruct HB as (_ & _ & B3 & _).
    apply B3 in Huv. destruct Huv as [_ Hv].
    now apply (@dict_of_nodes_keys Z 0%Z nodes). }
  repeat split; auto.
  - now apply (acyclic_of_order _ out).
  - apply NoDup_Permutation; auto. intros v. split; auto.
Qed.

(** X2. Two nodes with the same id make [topological_sort] raise its
    cycle error, whether or not the graph has a cycle: the dictionaries
    keep one entry per id and the sorted list is compared with
    [len(nodes)]. *)
Theorem topological_sort_duplicate_ids nodes edges :
  edges_known nodes edges ->
  ~ NoDup (map n_id nodes) ->
  topological_sort nodes edges = Some (Raise (ValueError cycle_message)).
Proof.
  intros Hedges Hdup.
  destruct (edges_known_pairs nodes edges Hedges) as (adj & deg & HB).
  destruct (topological_sort_outcome nodes edges adj deg HB)
    as (out & HK & Hnd & Hsub & _).
  unfold topological_sort. rewrite HB, HK.
  destruct (List.length out =? List.length nodes)%nat eqn:Hlen; [|reflexivity].
  exfalso. apply Nat.eqb_eq in Hlen. apply Hdup.
  apply NoDup_incl_NoDup with (l := out); auto. rewrite length_map. lia.
Qed.

Lemma topological_sort_duplicate_ids_witness :
  topological_sort [node_of "a" "SOURCE"; node_of "a" "LOAD"] []
  = Some (Raise (ValueError cycle_message)).
Proof.
  apply (topological_sort_duplicate_ids
           [node_of "a" "SOURCE"; node_of "a" "LOAD"] []).
  - intros e [].
  - intros H. inversion H as [|x l Hn _]. apply Hn. simpl. auto.
Defined.

(** ** The order among the nodes without inbound edge *)

Lemma relax_appends : forall nbrs deg q deg' q',
  relax nbrs deg q = Ok (deg', q') -> exists new, q' = q ++ new.
Proof.
  induction nbrs as [|n rest IH]; intros deg q deg' q' H; cbn [relax] in H.
  - inversion H; subst. exists []. now rewrite app_nil_r.
  - destruct (dict_item deg (Some n)) as [d|e]; cbn [bind] in H; [|discriminate].
    destruct (d - 1 =? 0)%Z.
    + apply IH in H. destruct H as [new ->]. exists (n :: new).
      now rewrite <- app_assoc.
    + now apply IH in H.
Qed.

Lemma kahn_fifo : forall fuel adj deg q sorted out,
  kahn fuel adj deg q sorted = Some (Ok out) ->
  exists rest, out = sorted ++ q ++ rest.
Proof.
  induction fuel as [|fuel IH]; intros adj deg q sorted out H.
  - destruct q; simpl in H; [|discriminate]. injection H as <-.
    exists []. now rewrite !app_nil_r.
  - destruct q as [|x q]; cbn [kahn] in H.
    + injection H as <-. exists []. now rewrite !app_nil_r.
    + destruct (dict_item adj (Some x)) as [nbrs|e]; cbn [bind] in H; [|discriminate].
      destruct (relax nbrs deg q) as [[deg' q']|e] eqn:HR; [|discriminate].
      apply relax_appends in HR. destruct HR as [new ->].
      apply IH in H. destruct H as [rest ->]. exists (new ++ rest).
      now rewrite <- !app_assoc.
Qed.

Lemma dict_of_nodes_keys_nodup {V} (init : V) nodes :
  NoDup (map n_id nodes) ->
  dict_keys (dict_of_nodes init nodes) = map n_id nodes.
Proof.
  unfold dict_of_nodes.
  assert (H : forall (d : dict V),
             NoDup (dict_keys d ++ map n_id nodes) ->
             dict_keys (fold_left (fun d n => dict_set d (n_id n) init) nodes d)
             = dict_keys d ++ map n_id nodes).
  { induction nodes as [|n rest IH]; intros d Hnd; simpl.
    - now rewrite app_nil_r.
    - simpl in Hnd. rewrite IH.
      + rewrite dict_keys_set_notin.
        * now rewrite <- app_assoc.
        * intros Hin. apply NoDup_remove_2 in Hnd. apply Hnd.
          apply in_or_app. now left.
      + rewrite dict_keys_set_notin.
        * rewrite <- app_assoc. exact Hnd.
        * intros Hin. apply NoDup_remove_2 in Hnd. apply Hnd.
          apply in_or_app. now left. }
  intros Hnd. now rewrite (H [] Hnd).
Qed.

Lemma zero_in_degree_filter (deg : dict Z) :
  zero_in_degree deg
  = filter (fun k => (getZ deg k =? 0)%Z) (dict_keys deg) \/
  ~ NoDup (dict_keys deg).
Proof.
  destruct (ListDec.NoDup_dec string_dec (dict_keys deg)) as [Hnd|Hnd]; auto.
  left. unfold zero_in_degree, dict_keys.
  assert (H : forall l : dict Z, (forall k v, In (k, v) l -> getZ deg k = v) ->
             map fst (filter (fun kv => (snd kv =? 0)%Z) l)
             = filter (fun k => (getZ deg k =? 0)%Z) (map fst l)).
  { induction l as [|[k v] l IH]; intros Hl; simpl; auto.
    rewrite (Hl k v) by (now left).
    destruct (v =? 0)%Z; simpl; rewrite IH; auto;
      intros k' v' Hin; apply Hl; now right. }
  apply H. intros k v Hin. unfold getZ.
  now rewrite (dict_get_pair deg k v Hnd Hin).
Qed.

(** X3. The nodes without inbound edge are executed first, in the order
    in which the pipeline lists them. *)
Theorem topological_sort_sources_first nodes edges order :
  topological_sort nodes edges = Some (Ok order) ->
  exists rest,
    order = filter (fun v => indeg (edge_pairs edges) v =? 0)%nat
                   (map n_id nodes) ++ rest.
Proof.
  intros H. pose proof H as Hs.
  unfold topological_sort in H.
  destruct (build_graph _ _ edges) as [[adj deg]|e] eqn:HB; [|discriminate].
  destruct (topological_sort_outcome nodes edges adj deg HB)
    as (out & HK & Hnd & Hsub & _).
  rewrite HK in H.
  destruct (List.length out =? List.length nodes)%nat eqn:Hlen;
    simpl in H; [|discriminate].
  injection H as <-. apply Nat.eqb_eq in Hlen.
  assert (Hids : NoDup (map n_id nodes)).
  { apply NoDup_incl_NoDup with (l := out); auto. rewrite length_map. lia. }
  apply kahn_fifo in HK. simpl in HK. destruct HK as [rest HK].
  exists rest. rewrite HK at 1. f_equal.
  pose proof (build_graph_spec _ _ _ _ _ HB) as (_ & B2 & _ & _ & B5).
  rewrite (dict_of_nodes_keys_nodup 0%Z nodes Hids) in B2.
  destruct (zero_in_degree_filter deg) as [->|Hn];
    [|exfalso; apply Hn; now rewrite B2].
  rewrite B2. apply filter_ext. intros k. rewrite B5.
  assert (H0 : getZ (dict_of_nodes 0%Z nodes) k = 0%Z).
  { unfold getZ. destruct (dict_get (dict_of_nodes 0%Z nodes) k) eqn:Hg; auto.
    now apply (@dict_of_nodes_keys Z 0%Z nodes) in Hg. }
  rewrite H0. simpl.
  destruct (indeg (edge_pairs edges) k) eqn:Hi; simpl; auto.
Qed.

Lemma topological_sort_sound_witness :
  NoDup (map n_id chain_nodes) /\
  edges_known chain_nodes chain_edges /\
  acyclic (edge_pairs chain_edges) /\
  Permutation ["a"; "b"; "c"] (map n_id chain_nodes) /\
  (forall u v, In (u, v) (edge_pairs chain_edges) ->
               before ["a"; "b"; "c"] u v).
Proof.
  apply (topological_sort_sound chain_nodes chain_edges ["a"; "b"; "c"]).
  reflexivity.
Defined.

Lemma topological_sort_sources_first_witness :
  exists rest,
    ["b"; "a"; "c"]
    = filter (fun v => indeg (edge_pairs fan_in_edges) v =? 0)%nat
             (map n_id fan_in_nodes) ++ rest.
Proof.
  apply (topological_sort_sources_first fan_in_nodes fan_in_edges
                                        ["b"; "a"; "c"]).
  reflexivity.
Defined.

(** ** The checks of the validator, one by one *)

Lemma str_truthy_Some o :
  str_truthy o = true <-> exists s, o = Some s /\ s <> EmptyString.
Proof.
  destruct o as [s|]; simpl.
  - rewrite negb_true_iff, String.eqb_neq. split.
    + intros H. now exists s.
    + intros (s' & [= <-] & H). exact H.
  - split; [discriminate|]. intros (s & H & _). discriminate.
Qed.

Lemma edge_errors_of_nil node_ids idx e :
  edge_errors_of node_ids idx e = [] <->
  exists f t, edge_from3 e = Some f /\ edge_to3 e = Some t /\
              f <> EmptyString /\ t <> EmptyString /\
              In f node_ids /\ In t node_ids.
Proof.
  unfold edge_errors_of.
  destruct (str_truthy (edge_from3 e)) eqn:Hf; simpl.
  - destruct (str_truthy (edge_to3 e)) eqn:Ht; simpl.
    + apply str_truthy_Some in Hf. destruct Hf as (f & Hf & Hfn).
      apply str_truthy_Some in Ht. destruct Ht as (t & Ht & Htn).
      rewrite Hf, Ht. split.
      * intros H. apply app_eq_nil in H. destruct H as [H1 H2].
        exists f, t. repeat split; auto.
        -- destruct (mem f node_ids) eqn:Hm; [now apply mem_In|discriminate].
        -- destruct (mem t node_ids) eqn:Hm; [now apply mem_In|discriminate].
      * intros (f' & t' & [= <-] & [= <-] & _ & _ & H1 & H2).
        apply mem_In in H1. apply mem_In in H2. now rewrite H1, H2.
    + split; [discriminate|].
      intros (f & t & _ & Ht' & _ & Htn & _).
      assert (str_truthy (edge_to3 e) = true)
        by (apply str_truthy_Some; eauto).
      congruence.
  - split; [discriminate|].
    intros (f & t & Hf' & _ & Hfn & _).
    assert (str_truthy (edge_from3 e) = true)
      by (apply str_truthy_Some; eauto).
    congruence.
Qed.

Lemma validate_edges_from_nil node_ids : forall edges idx,
  validate_edges_from node_ids idx edges = [] <->
  forall e, In e edges -> edge_errors_of node_ids 0 e = [] .
Proof.
  assert (Hidx : forall e i j, edge_errors_of node_ids i e = [] ->
                               edge_errors_of node_ids j e = []).
  { intros e i j H. apply edge_errors_of_nil. now apply edge_errors_of_nil in H. }
  induction edges as [|edge rest IH]; intros idx; simpl.
  - split; auto. intros _ e [].
  - split.
    + intros H. apply app_eq_nil in H. destruct H as [H1 H2].
      intros e [<-|He]; [now apply (Hidx _ idx)|].
      now apply (IH (S idx)).
    + intros H. rewrite (Hidx edge 0 idx) by (apply H; now left).
      simpl. apply IH. intros e He. apply H. now right.
Qed.

(** X4. [validate_edges] reports nothing exactly when every edge gives,
    under one of the aliases, a non-empty source id and a non-empty
    target id that are both ids of nodes. *)
Theorem validate_edges_accepts nodes edges :
  validate_edges nodes edges = [] <->
  forall e, In e edges -> edge_named nodes e.
Proof.
  unfold validate_edges, edge_named. rewrite validate_edges_from_nil.
  split; intros H e He; apply (edge_errors_of_nil _ 0), H, He.
Qed.

(** *** Orphans *)

Lemma set_add_iff x y s : In x (set_add y s) <-> x = y \/ In x s.
Proof.
  split; [apply set_add_cases|].
  intros [->|H]; [apply set_add_In|now apply set_add_incl].
Qed.

Lemma connection_sets_spec : forall edges inc out inc' out',
  connection_sets edges inc out = (inc', out') ->
  (forall x, In x inc' <-> In x inc \/ has_inbound edges x) /\
  (forall x, In x out' <-> In x out \/ has_outbound edges x).
Proof.
  induction edges as [|edge rest IH]; intros inc out inc' out' H; simpl in H.
  - injection H as <- <-. split; intros x; split; auto;
      intros [H|(e & [] & _)]; auto.
  - apply IH in H. destruct H as [Hi Ho]. split; intros x.
    + rewrite Hi. unfold has_inbound. split.
      * intros [H|(e & He & Ht & Hn)].
        -- destruct (edge_to3 edge) as [t|] eqn:Ht; auto.
           destruct (str_truthy (Some t)) eqn:Htt; auto.
           apply set_add_iff in H. destruct H as [->|H]; auto.
           right. exists edge. repeat split; auto; [now left|].
           apply str_truthy_Some in Htt. destruct Htt as (s & [= <-] & Hs).
           exact Hs.
        -- right. exists e. repeat split; auto. now right.
      * intros [H|(e & [<-|He] & Ht & Hn)].
        -- left. destruct (edge_to3 edge) as [t|]; auto.
           destruct (str_truthy (Some t)); auto. now apply set_add_incl.
        -- left. rewrite Ht.
           assert (Htt : str_truthy (Some x) = true)
             by (apply str_truthy_Some; eauto).
           rewrite Htt. apply set_add_In.
        -- right. now exists e.
    + rewrite Ho. unfold has_outbound. split.
      * intros [H|(e & He & Ht & Hn)].
        -- destruct (edge_from3 edge) as [t|] eqn:Ht; auto.
           destruct (str_truthy (Some t)) eqn:Htt; auto.
           apply set_add_iff in H. destruct H as [->|H]; auto.
           right. exists edge. repeat split; auto; [now left|].
           apply str_truthy_Some in Htt. destruct Htt as (s & [= <-] & Hs).
           exact Hs.
        -- right. exists e. repeat split; auto. now right.
      * intros [H|(e & [<-|He] & Ht & Hn)].
        -- left. destruct (edge_from3 edge) as [t|]; auto.
           destruct (str_truthy (Some t)); auto. now apply set_add_incl.
        -- left. rewrite Ht.
           assert (Htt : str_truthy (Some x) = true)
             by (apply str_truthy_Some; eauto).
           rewrite Htt. apply set_add_In.
        -- right. now exists e.
Qed.

Lemma mem_iff_true x s P : (In x s <-> P) -> (mem x s = true <-> P).
Proof. intros H. now rewrite mem_In. Qed.

Lemma orphan_errors_of_nil edges node inc out :
  (forall x, In x inc <-> has_inbound edges x) ->
  (forall x, In x out <-> has_outbound edges x) ->
  (orphan_errors_of node inc out = [] <-> connected edges node).
Proof.
  intros Hi Ho. unfold orphan_errors_of, connected.
  pose proof (mem_iff_true _ _ _ (Hi (n_id node))) as Mi.
  pose proof (mem_iff_true _ _ _ (Ho (n_id node))) as Mo.
  destruct (type_is node "SOURCE");
    [|destruct (type_is node "LOAD"); [|destruct (type_is node "TRANSFORM")]];
    destruct (mem (n_id node) inc); destruct (mem (n_id node) out); simpl;
    intuition (try discriminate; auto).
Qed.

Lemma flat_map_nil {A B} (f : A -> list B) (l : list A) :
  flat_map f l = [] <-> forall x, In x l -> f x = [].
Proof.
  induction l as [|a l IH]; simpl.
  - split; auto. intros _ x [].
  - split.
    + intros H. apply app_eq_nil in H. destruct H as [H1 H2].
      intros x [<-|Hx]; auto. now apply IH.
    + intros H. rewrite (H a) by now left. simpl. apply IH.
      intros x Hx. apply H. now right.
Qed.

Lemma detect_orphan_nodes_nil nodes edges :
  detect_orphan_nodes nodes edges = [] <->
  forall n, In n nodes -> connected edges n.
Proof.
  unfold detect_orphan_nodes.
  destruct (connection_sets edges [] []) as [inc out] eqn:HC.
  apply connection_sets_spec in HC. destruct HC as [Hi Ho].
  rewrite flat_map_nil.
  assert (Hi' : forall x, In x inc <-> has_inbound edges x).
  { intros x. rewrite Hi. simpl. tauto. }
  assert (Ho' : forall x, In x out <-> has_outbound edges x).
  { intros x. rewrite Ho. simpl. tauto. }
  split; intros H n Hn; apply (orphan_errors_of_nil edges n inc out Hi' Ho'), H, Hn.
Qed.

(** X5. [detect_orphan_nodes] reports nothing exactly when every SOURCE
    node has an outbound edge, every LOAD node an inbound edge, every
    TRANSFORM node both, and every node of another type at least one
    of the two. *)
Theorem detect_orphan_nodes_accepts nodes edges :
  detect_orphan_nodes nodes edges = [] <->
  forall n, In n nodes ->
    (type_is n "SOURCE" = true -> has_outbound edges (n_id n)) /\
    (type_is n "LOAD" = true -> has_inbound edges (n_id n)) /\
    (type_is n "TRANSFORM" = true ->
       has_inbound edges (n_id n) /\ has_outbound edges (n_id n)) /\
    (type_is n "SOURCE" = false -> type_is n "LOAD" = false ->
     type_is n "TRANSFORM" = false ->
       has_inbound edges (n_id n) \/ has_outbound edges (n_id n)).
Proof.
  rewrite detect_orphan_nodes_nil.
  assert (Hexcl : forall n a b, a <> b -> type_is n a = true -> type_is n b = false).
  { intros n a b Hab. unfold type_is. destruct (n_type n) as [t|]; [|discriminate].
    intros H. apply String.eqb_eq in H. subst t. now apply String.eqb_neq. }
  split; intros H n Hn; specialize (H n Hn); unfold connected in *;
    pose proof (Hexcl n "SOURCE" "LOAD") as E1;
    pose proof (Hexcl n "SOURCE" "TRANSFORM") as E2;
    pose proof (Hexcl n "LOAD" "TRANSFORM") as E3;
    destruct (type_is n "SOURCE"); destruct (type_is n "LOAD");
    destruct (type_is n "TRANSFORM");
    try (exfalso; (specialize (E1 ltac:(discriminate) eq_refl)
                   || specialize (E2 ltac:(discriminate) eq_refl)
                   || specialize (E3 ltac:(discriminate) eq_refl));
         discriminate);
    intuition (try discriminate; auto).
Qed.

(** *** The verdict *)

Lemma filter_nonempty {A} (p : A -> bool) (l : list A) :
  filter p l <> [] <-> exists x, In x l /\ p x = true.
Proof.
  split.
  - destruct (filter p l) as [|x r] eqn:H; [congruence|]. intros _.
    exists x. apply filter_In. rewrite H. now left.
  - intros (x & Hx & Hp) H.
    assert (Hin : In x (filter p l)) by (apply filter_In; auto).
    rewrite H in Hin. destruct Hin.
Qed.

Lemma validate_pipeline_structure_nil nodes edges :
  validate_pipeline_structure nodes edges = [] <->
  (exists n, In n nodes /\ type_is n "SOURCE" = true) /\
  (exists n, In n nodes /\ type_is n "LOAD" = true).
Proof.
  unfold validate_pipeline_structure.
  rewrite <- !(filter_nonempty (fun n => type_is n _) nodes).
  destruct (filter (fun n => type_is n "SOURCE") nodes);
    destruct (filter (fun n => type_is n "LOAD") nodes); simpl;
    intuition (try discriminate; try congruence).
Qed.

(** The verdict is "valid" only when each of the five checks has come
    back empty. *)
Lemma validate_pipeline_true pipeline_json errs :
  validate_pipeline pipeline_json = Some (Ok (true, errs)) ->
  let nodes := p_nodes pipeline_json in
  let edges := p_edges pipeline_json in
  errs = [] /\
  detect_cycles nodes edges = Some (Ok []) /\
  detect_orphan_nodes nodes edges = [] /\
  validate_node_configs nodes = [] /\
  validate_edges nodes edges = [] /\
  validate_pipeline_structure nodes edges = [].
Proof.
  intros H nodes edges. unfold validate_pipeline in H.
  fold nodes in H. fold edges in H.
  destruct nodes as [|n0 rest] eqn:Hnodes; [discriminate|].
  rewrite <- Hnodes in *. clear Hnodes n0 rest.
  destruct (detect_cycles nodes edges) as [[cyc|e]|] eqn:HD; try discriminate.
  injection H as Hv He.
  destruct (cyc ++ detect_orphan_nodes nodes edges ++ validate_node_configs nodes
            ++ validate_edges nodes edges
            ++ validate_pipeline_structure nodes edges) eqn:Hall;
    [|discriminate].
  subst errs.
  apply app_eq_nil in Hall. destruct Hall as [Hc Hall].
  apply app_eq_nil in Hall. destruct Hall as [Ho Hall].
  apply app_eq_nil in Hall. destruct Hall as [Hn Hall].
  apply app_eq_nil in Hall. destruct Hall as [Hed Hs].
  subst cyc. auto 10.
Qed.

(** X6. What the verdict "valid" stands for: the error list is empty,
    the graph read with all three aliases has no directed cycle, every
    edge joins two nodes of the pipeline, no node is an orphan, no node
    lacks a required setting, and there is a SOURCE and a LOAD node. *)
Theorem validate_pipeline_valid pipeline_json errs :
  validate_pipeline pipeline_json = Some (Ok (true, errs)) ->
  let nodes := p_nodes pipeline_json in
  let edges := p_edges pipeline_json in
  errs = [] /\
  (forall x, ~ clos_trans_1n string (edge3 edges) x x) /\
  (forall e, In e edges -> edge_named nodes e) /\
  (forall n, In n nodes -> connected edges n) /\
  (forall n, In n nodes -> node_config_errors n = []) /\
  (exists n, In n nodes /\ type_is n "SOURCE" = true) /\
  (exists n, In n nodes /\ type_is n "LOAD" = true).
Proof.
  intros H nodes edges.
  destruct (validate_pipeline_true pipeline_json errs H)
    as (He & HD & Ho & Hn & Hed & Hs).
  fold nodes in HD, Ho, Hn, Hed, Hs. fold edges in HD, Ho, Hed, Hs.
  split; [exact He|]. split; [|split; [|split; [|split]]].
  - intros x Hx.
    destruct (detect_cycles_reports_a_cycle nodes edges x [] Hx HD) as [Hne _].
    now apply Hne.
  - intros e He'. unfold edge_named.
    unfold validate_edges in Hed.
    apply (edge_errors_of_nil _ 0).
    now apply (validate_edges_from_nil (map n_id nodes) edges 0).
  - now apply detect_orphan_nodes_nil.
  - now apply flat_map_nil.
  - now apply (validate_pipeline_structure_nil nodes edges).
Qed.

Lemma validate_pipeline_valid_witness :
  let nodes := p_nodes copy_pipeline in
  let edges := p_edges copy_pipeline in
  @nil string = [] /\
  (forall x, ~ clos_trans_1n string (edge3 edges) x x) /\
  (forall e, In e edges -> edge_named nodes e) /\
  (forall n, In n nodes -> connected edges n) /\
  (forall n, In n nodes -> node_config_errors n = []) /\
  (exists n, In n nodes /\ type_is n "SOURCE" = true) /\
  (exists n, In n nodes /\ type_is n "LOAD" = true).
Proof.
  apply (validate_pipeline_valid copy_pipeline []). reflexivity.
Defined.

(** ** From the verdict to the execution order *)

(** On a graph without cycle the loop of [topological_sort] leaves no
    node id out. *)
Lemma kahn_complete nodes edges adj deg :
  build_graph (dict_of_nodes [] nodes) (dict_of_nodes 0%Z nodes) edges
    = Ok (adj, deg) ->
  acyclic (edge_pairs edges) ->
  exists out,
    kahn (List.length nodes) adj deg (zero_in_degree deg) [] = Some (Ok out) /\
    NoDup out /\
    (forall v, In v out <-> In v (map n_id nodes)) /\
    (forall u v, In (u, v) (edge_pairs edges) -> before out u v).
Proof.
  intros HB Hacyc.
  destruct (topological_sort_outcome nodes edges adj deg HB)
    as (out & HK & Hnd & Hsub & Hord & Hleft).
  assert (Hall : forall v, In v (map n_id nodes) -> In v out).
  { intros v Hv. destruct (in_dec string_dec v out) as [Hin|Hin]; auto.
    exfalso.
    destruct (no_source_cycle (edge_in (edge_pairs edges))
                (fun w => In w (map n_id nodes) /\ ~ In w out)
                (map n_id nodes))
      with (v := v) as [x Hx]; auto.
    - tauto.
    - intros w [Hw Hnw]. destruct (Hleft w Hw Hnw) as (u & Hu & Huk & Hnu).
      exists u. repeat split; auto.
    - now apply Hacyc in Hx. }
  exists out. split; [exact HK|]. split; [exact Hnd|]. split.
  - intros v. split; auto.
  - intros u v Huv. apply Hord; auto. apply Hall.
    apply build_graph_spec in HB. destruct HB as (_ & _ & B3 & _).
    apply B3 in Huv. now apply (@dict_of_nodes_keys Z 0%Z nodes).
Qed.

Lemma py_or_truthy a b : str_truthy a = true -> py_or a b = a.
Proof. unfold py_or. now intros ->. Qed.

(** X7. A pipeline that the validator accepts can be put in execution
    order, provided its node ids are pairwise distinct and its edges
    give their endpoints under from/from_node and to/to_node: the
    order lists every node once and follows every edge. *)
Theorem validated_pipeline_has_order pipeline_json errs :
  validate_pipeline pipeline_json = Some (Ok (true, errs)) ->
  NoDup (map n_id (p_nodes pipeline_json)) ->
  (forall e, In e (p_edges pipeline_json) ->
     str_truthy (edge_from2 e) = true /\ str_truthy (edge_to2 e) = true) ->
  exists order,
    topological_sort (p_nodes pipeline_json) (p_edges pipeline_json)
    = Some (Ok order) /\
    Permutation order (map n_id (p_nodes pipeline_json)) /\
    (forall u v, edge3 (p_edges pipeline_json) u v -> before order u v).
Proof.
  intros Hvalid Hids Hkeys.
  set (nodes := p_nodes pipeline_json) in *.
  set (edges := p_edges pipeline_json) in *.
  destruct (validate_pipeline_true pipeline_json errs Hvalid)
    as (_ & HD & _ & _ & Hed & _).
  fold nodes in HD, Hed. fold edges in HD, Hed.
  assert (Hnamed : forall e, In e edges ->
            exists f t, edge_from2 e = Some f /\ edge_to2 e = Some t /\
                        edge_from3 e = Some f /\ edge_to3 e = Some t /\
                        f <> EmptyString /\ t <> EmptyString /\
                        In f (map n_id nodes) /\ In t (map n_id nodes)).
  { intros e He. destruct (Hkeys e He) as [Hf Ht].
    unfold validate_edges in Hed.
    pose proof (proj1 (validate_edges_from_nil (map n_id nodes) edges 0) Hed e He)
      as Hn. apply edge_errors_of_nil in Hn.
    destruct Hn as (f & t & H1 & H2 & H3 & H4 & H5 & H6).
    exists f, t.
    unfold edge_from3 in H1. fold (edge_from2 e) in H1.
    unfold edge_to3 in H2. fold (edge_to2 e) in H2.
    rewrite (py_or_truthy _ (e_source e) Hf) in H1.
    rewrite (py_or_truthy _ (e_target e) Ht) in H2.
    unfold edge_from3, edge_to3. fold (edge_from2 e). fold (edge_to2 e).
    rewrite (py_or_truthy _ (e_source e) Hf), (py_or_truthy _ (e_target e) Ht).
    auto 10. }
  assert (Hknown : edges_known nodes edges).
  { intros e He. destruct (Hnamed e He) as (f & t & H1 & H2 & _ & _ & _ & _ & H3 & H4).
    exists f, t. auto. }
  assert (Hpairs : forall u v, In (u, v) (edge_pairs edges) <-> edge3 edges u v).
  { intros u v. split.
    - intros Hin.
      assert (Hex : exists e, In e edges /\ edge_pair e = Some (u, v)).
      { clear -Hin. induction edges as [|e r IH]; simpl in Hin; [destruct Hin|].
        destruct (edge_pair e) as [p|] eqn:Hp.
        - destruct Hin as [->|Hin].
          + exists e. split; auto. now left.
          + destruct (IH Hin) as (e' & He' & Hp'). exists e'. split; auto. now right.
        - destruct (IH Hin) as (e' & He' & Hp'). exists e'. split; auto. now right. }
      destruct Hex as (e & He & Hp).
      destruct (Hnamed e He) as (f & t & H1 & H2 & H3 & H4 & H5 & H6 & _).
      unfold edge_pair in Hp. rewrite H1, H2 in Hp. injection Hp as <- <-.
      exists e. auto 10.
    - intros (e & He & H3 & H4 & _).
      destruct (Hnamed e He) as (f & t & H1 & H2 & H3' & H4' & _).
      assert (f = u) by congruence. assert (t = v) by congruence. subst f t.
      clear -He H1 H2. induction edges as [|e' r IH]; [destruct He|].
      simpl. destruct He as [->|He].
      + unfold edge_pair. rewrite H1, H2. now left.
      + destruct (edge_pair e'); [right|]; auto. }
  assert (Hacyc : acyclic (edge_pairs edges)).
  { intros x Hx.
    assert (Hx3 : clos_trans_1n string (edge3 edges) x x).
    { apply (clos_trans_1n_incl (edge_in (edge_pairs edges))); auto.
      intros u v Huv. now apply Hpairs. }
    destruct (detect_cycles_reports_a_cycle nodes edges x [] Hx3 HD) as [Hne _].
    now apply Hne. }
  destruct (edges_known_pairs nodes edges Hknown) as (adj & deg & HB).
  destruct (kahn_complete nodes edges adj deg HB Hacyc)
    as (out & HK & Hnd & Hin & Hbefore).
  assert (Hperm : Permutation out (map n_id nodes)).
  { apply NoDup_Permutation; auto. }
  exists out. split; [|split; auto].
  - unfold topological_sort. rewrite HB, HK.
    apply Permutation_length in Hperm. rewrite length_map in Hperm.
    now rewrite Hperm, Nat.eqb_refl.
  - intros u v Huv. now apply Hbefore, Hpairs.
Qed.

Lemma validated_pipeline_has_order_witness :
  exists order,
    topological_sort (p_nodes copy_pipeline) (p_edges copy_pipeline)
    = Some (Ok order) /\
    Permutation order (map n_id (p_nodes copy_pipeline)) /\
    (forall u v, edge3 (p_edges copy_pipeline) u v -> before order u v).
Proof.
  apply (validated_pipeline_has_order copy_pipeline []).
  - reflexivity.
  - repeat constructor; simpl; intuition discriminate.
  - intros e [<-|[]]. split; reflexivity.
Defined.

(** ** What a completed step leaves in the run state *)

Lemma execute_source_node_ok (ext : Externals) node run_id st df st' :
  execute_source_node node run_id st = (Ok df, st') ->
  exists rec, st' = with_log st [rec] /\ info_record run_id (n_id node) rec.
Proof.
  unfold execute_source_node, bindM, lift, log_node_execution, ret.
  destruct (node_subtype node) as [subtype|e0]; [|discriminate].
  destruct (node_config node) as [config|e0]; [|discriminate].
  match goal with
  | |- context [match ?x with Ok _ => _ | Raise _ => _ end] =>
      destruct x as [df0|e0]
  end; intros [= <- <-].
  eexists. split; [reflexivity|]. repeat split.
Qed.

Lemma execute_transform_node_ok (ext : Externals)
    node input_df run_id ctx st df st' :
  execute_transform_node node input_df run_id ctx st = (Ok df, st') ->
  exists rec, st' = with_log st [rec] /\ info_record run_id (n_id node) rec.
Proof.
  unfold execute_transform_node, bindM, lift, try_except,
    log_node_execution, ret, raise.
  destruct (node_subtype node) as [subtype|e0]; [|discriminate].
  destruct (node_config node) as [config|e0]; [|discriminate].
  destruct (validate_transform_schema node input_df) as [[]|e0]; [|discriminate].
  destruct (transform_body subtype config input_df ctx) as [[df' message]|e0];
    intros [= <- <-].
  eexists. split; [reflexivity|]. repeat split.
Qed.

Lemma execute_load_node_ok (ext : Externals)
    node input_df run_id pipeline_name st p st' :
  execute_load_node node input_df run_id pipeline_name st = (Ok p, st') ->
  exists rec, st' = with_log st [rec] /\ info_record run_id (n_id node) rec.
Proof.
  unfold execute_load_node, bindM, lift, log_node_execution, ret.
  destruct (node_subtype node) as [subtype|e0]; [|discriminate].
  destruct (node_config node) as [config|e0]; [|discriminate].
  match goal with
  | |- context [match ?x with Ok _ => _ | Raise _ => _ end] =>
      destruct x as [[p0 message]|e0]
  end; intros [= <- <-].
  eexists. split; [reflexivity|]. repeat split.
Qed.

(** A step that completes writes one INFO record; a SOURCE or TRANSFORM
    node stores its frame, a LOAD node adds its output path. *)
Lemma node_body_ok (ext : Externals)
    edges run_id pipeline_name node_id node ntype st st' :
  node_body edges run_id pipeline_name node_id node ntype st = (Ok tt, st') ->
  exists rec,
    run_log st' = run_log st ++ [rec] /\
    info_record run_id (n_id node) rec /\
    ((ntype <> "LOAD" /\ stores_frame node_id st st') \/
     (ntype = "LOAD" /\ adds_output st st')).
Proof.
  intros H. unfold node_body in H.
  destruct (ntype =? "SOURCE") eqn:HS.
  { apply String.eqb_eq in HS. subst ntype.
    unfold bindM in H.
    destruct (execute_source_node node run_id st) as [[df|e] s1] eqn:Hs;
      [|discriminate].
    apply execute_source_node_ok in Hs. destruct Hs as (rec & -> & Hrec).
    unfold set_result in H. injection H as <-.
    exists rec. simpl. repeat split; try apply Hrec.
    left. split; [discriminate|]. exists df. simpl. auto. }
  destruct (ntype =? "TRANSFORM") eqn:HT.
  { apply String.eqb_eq in HT. subst ntype.
    unfold bindM at 1 in H.
    destruct (primary_input edges node_id "Transform" st) as [r s1] eqn:Hp.
    pose proof (primary_input_state _ _ _ _ _ _ _ Hp) as ->.
    destruct r as [[incoming_edges input_df]|e0]; [|discriminate].
    unfold bindM, get_results in H.
    match type of H with
    | context [execute_transform_node ?n _ _ _ _] => set (node' := n) in H
    end.
    assert (Hid' : n_id node' = n_id node).
    { unfold node'. destruct incoming_edges as [|? [|? ?]]; auto.
      destruct (subtype_is node "JOIN"); auto. }
    destruct (execute_transform_node node' input_df run_id (results st) st)
      as [[df|e] s1] eqn:Ht; [|discriminate].
    apply execute_transform_node_ok in Ht. destruct Ht as (rec & -> & Hrec).
    unfold set_result in H. injection H as <-. rewrite Hid' in Hrec.
    exists rec. simpl. repeat split; try apply Hrec.
    left. split; [discriminate|]. exists df. simpl. auto. }
  destruct (ntype =? "LOAD") eqn:HL.
  { apply String.eqb_eq in HL. subst ntype.
    unfold bindM at 1 in H.
    destruct (primary_input edges node_id "Load" st) as [r s1] eqn:Hp.
    pose proof (primary_input_state _ _ _ _ _ _ _ Hp) as ->.
    destruct r as [[incoming_edges input_df]|e0]; [|discriminate].
    unfold bindM in H.
    destruct (execute_load_node node input_df run_id pipeline_name st)
      as [[p|e] s1] eqn:Hl; [|discriminate].
    apply execute_load_node_ok in Hl. destruct Hl as (rec & -> & Hrec).
    unfold append_output in H. injection H as <-.
    exists rec. simpl. repeat split; try apply Hrec.
    right. split; auto. exists p. simpl. auto. }
  discriminate.
Qed.

(** The node found under an id carries that id. *)
Lemma node_map_of_id nodes : forall node_id node,
  dict_get (node_map_of nodes) node_id = Some node -> n_id node = node_id.
Proof.
  unfold node_map_of.
  assert (H : forall (d : dict Node),
             (forall k n, dict_get d k = Some n -> n_id n = k) ->
             forall k n,
               dict_get (fold_left (fun d n => dict_set d (n_id n) n) nodes d) k
               = Some n -> n_id n = k).
  { induction nodes as [|x rest IH]; intros d Hd k n; simpl; [apply Hd|].
    apply IH. intros k' n' Hg.
    destruct (string_dec (n_id x) k') as [<-|Hne].
    - rewrite dict_get_set_same in Hg. now injection Hg as <-.
    - rewrite dict_get_set_other in Hg by exact Hne. now apply Hd. }
  apply H. intros k n. discriminate.
Qed.

Lemma execute_node_ok (ext : Externals)
    nodes edges run_id pipeline_name node_id st st' :
  execute_node (node_map_of nodes) edges run_id pipeline_name node_id st
  = (Ok tt, st') ->
  exists rec ntype,
    type_of (node_map_of nodes) node_id = Some ntype /\
    run_log st' = run_log st ++ [rec] /\ info_record run_id node_id rec /\
    ((ntype <> "LOAD" /\ stores_frame node_id st st') \/
     (ntype = "LOAD" /\ adds_output st st')).
Proof.
  unfold execute_node, bindM, lift, dict_item, try_except, type_of.
  destruct (dict_get (node_map_of nodes) node_id) as [node|] eqn:Hn;
    [|discriminate].
  unfold node_type. destruct (n_type node) as [ntype|]; [|discriminate].
  destruct (node_body edges run_id pipeline_name node_id node ntype st)
    as [[[]|e] s1] eqn:Hb; [|discriminate].
  intros [= <-].
  destruct (node_body_ok _ _ _ _ _ _ _ _ _ Hb) as (rec & H1 & H2 & H3).
  rewrite (node_map_of_id _ _ _ Hn) in H2.
  exists rec, ntype. auto.
Qed.

Lemma execute_nodes_ok (ext : Externals) nodes edges run_id pipeline_name :
  forall order st st',
    execute_nodes (node_map_of nodes) edges run_id pipeline_name order st
    = (Ok tt, st') ->
    (exists recs, run_log st' = run_log st ++ recs /\
                  Forall2 (info_record run_id) order recs) /\
    (forall id, In id (dict_keys (results st')) <->
                In id (dict_keys (results st)) \/
                (In id order /\ is_load (node_map_of nodes) id = false)) /\
    (exists paths,
       output_paths st' = output_paths st ++ paths /\
       List.length paths
       = List.length (filter (is_load (node_map_of nodes)) order)).
Proof.
  induction order as [|x rest IH]; intros st st' H; simpl in H.
  - unfold ret in H. injection H as <-. split; [|split].
    + exists []. split; [now rewrite app_nil_r|constructor].
    + intros id. simpl. tauto.
    + exists []. split; [now rewrite app_nil_r|reflexivity].
  - unfold bindM in H.
    destruct (execute_node (node_map_of nodes) edges run_id pipeline_name x st)
      as [[[]|e] s1] eqn:Hx; [|discriminate].
    apply execute_node_ok in Hx.
    destruct Hx as (rec & ntype & Hty & Hlog & Hrec & Hkind).
    destruct (IH s1 st' H) as ((recs & Hl & Hr) & Hres & (paths & Hp & Hlen)).
    assert (Hload : is_load (node_map_of nodes) x = (ntype =? "LOAD")).
    { unfold is_load. now rewrite Hty. }
    split; [|split].
    + exists (rec :: recs). split.
      * rewrite Hl, Hlog. now rewrite <- app_assoc.
      * now constructor.
    + intros id. rewrite Hres. simpl.
      destruct Hkind as [[Hne (df & Hd & _)]|[-> (p & Hd & _)]]; rewrite Hd.
      * assert (Hx : is_load (node_map_of nodes) x = false).
        { rewrite Hload. now apply String.eqb_neq. }
        destruct (in_dec string_dec x (dict_keys (results st))) as [Hin|Hin].
        -- rewrite dict_keys_set_in by exact Hin.
           split; [tauto|]. intros [?|[[<-|?] ?]]; auto.
        -- rewrite dict_keys_set_notin by exact Hin. rewrite in_app_iff. simpl.
           split.
           ++ intros [[?|[<-|[]]]|[? ?]]; auto.
           ++ intros [?|[[<-|?] ?]]; auto.
      * assert (Hx : is_load (node_map_of nodes) x = true) by now rewrite Hload.
        split; [tauto|]. intros [?|[[<-|?] Hf]]; auto. congruence.
    + destruct Hkind as [[Hne (df & _ & Hd)]|[-> (p & _ & Hd)]].
      * exists paths. rewrite Hp, Hd. split; auto.
        cbn [filter]. rewrite Hload. apply String.eqb_neq in Hne.
        now rewrite Hne.
      * exists (p :: paths). rewrite Hp, Hd, <- app_assoc. split; auto.
        cbn [filter]. rewrite Hload. simpl. now rewrite Hlen.
Qed.

(** ** A run that completes *)

Lemma topological_sort_permutation nodes edges order :
  topological_sort nodes edges = Some (Ok order) ->
  NoDup (map n_id nodes) /\ Permutation order (map n_id nodes).
Proof.
  unfold topological_sort. intros H.
  destruct (build_graph _ _ edges) as [[adj deg]|e] eqn:HB; [|discriminate].
  destruct (topological_sort_outcome nodes edges adj deg HB)
    as (out & HK & Hnd & Hsub & _).
  rewrite HK in H.
  destruct (List.length out =? List.length nodes)%nat eqn:Hlen;
    simpl in H; [|discriminate].
  injection H as <-. apply Nat.eqb_eq in Hlen.
  assert (Hids : NoDup (map n_id nodes)).
  { apply NoDup_incl_NoDup with (l := out); auto. rewrite length_map. lia. }
  split; auto. apply NoDup_Permutation; auto. intros v. split; auto.
  apply NoDup_length_incl; auto. rewrite length_map. lia.
Qed.

Lemma node_map_of_get nodes :
  NoDup (map n_id nodes) ->
  forall n, In n nodes -> dict_get (node_map_of nodes) (n_id n) = Some n.
Proof.
  unfold node_map_of.
  assert (H : forall (d : dict Node) n,
             NoDup (map n_id nodes) ->
             (In n nodes \/
              (dict_get d (n_id n) = Some n /\ ~ In (n_id n) (map n_id nodes))) ->
             dict_get (fold_left (fun d n => dict_set d (n_id n) n) nodes d)
                      (n_id n) = Some n).
  { induction nodes as [|x rest IH]; intros d n Hnd Hn; simpl.
    - destruct Hn as [[]|[Hn _]]. exact Hn.
    - inversion Hnd as [|? ? Hx Hnd']; subst. apply IH; auto.
      destruct Hn as [[->|Hn]|[Hg Hni]].
      + right. split; [apply dict_get_set_same|exact Hx].
      + now left.
      + right. simpl in Hni. split.
        * rewrite dict_get_set_other; auto.
        * intros Hin. apply Hni. now right. }
  intros Hnd n Hn. apply H; auto.
Qed.

Lemma Permutation_filter_length {A} (f : A -> bool) (l l' : list A) :
  Permutation l l' -> List.length (filter f l) = List.length (filter f l').
Proof.
  induction 1; simpl; auto.
  - destruct (f x); simpl; auto.
  - destruct (f x); destruct (f y); simpl; auto.
  - congruence.
Qed.

Lemma filter_map_length {A B} (g : A -> B) (f : B -> bool) (l : list A) :
  List.length (filter f (map g l))
  = List.length (filter (fun a => f (g a)) l).
Proof.
  induction l as [|a l IH]; simpl; auto.
  destruct (f (g a)); simpl; auto.
Qed.

Lemma last_Some_None {A} (l : list A) :
  last (map Some l) None = None <-> l = [].
Proof.
  split; [|now intros ->].
  induction l as [|a l IH]; auto. intros H. exfalso.
  destruct l as [|b l]; [discriminate|].
  assert (b :: l = []) by (apply IH; exact H). discriminate.
Qed.

Lemma filter_length_zero {A} (f : A -> bool) (l : list A) :
  List.length (filter f l) = 0 <-> forall x, In x l -> f x = false.
Proof.
  induction l as [|a l IH]; simpl.
  - split; auto. intros _ x [].
  - destruct (f a) eqn:Ha; simpl.
    + split; [discriminate|]. intros H. specialize (H a (or_introl eq_refl)).
      congruence.
    + rewrite IH. split.
      * intros H x [<-|Hx]; auto.
      * intros H x Hx. apply H. now right.
Qed.

(** X11. A run that completes has written exactly one INFO record per
    node, in execution order, after the records the log held before;
    each carries the id of the run and of its node. *)
Theorem completed_run_log (ext : Externals)
    pipeline_json run_id pipeline_name log out st :
  execute_pipeline pipeline_json run_id pipeline_name log = Some (Ok out, st) ->
  exists order recs,
    topological_sort (p_nodes pipeline_json) (p_edges pipeline_json)
    = Some (Ok order) /\
    run_log st = log ++ recs /\
    Forall2 (info_record run_id) order recs.
Proof.
  unfold execute_pipeline. intros H.
  destruct (topological_sort (p_nodes pipeline_json) (p_edges pipeline_json))
    as [[order|e]|]; try discriminate.
  - unfold bindM in H.
    destruct (execute_nodes (node_map_of (p_nodes pipeline_json))
                (p_edges pipeline_json) run_id pipeline_name order
                (mkState [] [] log)) as [[[]|e] s1] eqn:Hx; [|discriminate].
    injection H as _ <-.
    destruct (execute_nodes_ok _ _ _ _ _ _ _ _ Hx) as ((recs & Hl & Hr) & _).
    exists order, recs. auto.
  - destruct e; discriminate.
Qed.

(** X12. After a run that completes, the frames kept are those of the
    nodes that are not LOAD nodes, there is one output path per LOAD
    node, and the value returned is the last of these paths: it is
    [None] exactly when the pipeline has no LOAD node. *)
Theorem completed_run_outputs (ext : Externals)
    pipeline_json run_id pipeline_name log out st :
  execute_pipeline pipeline_json run_id pipeline_name log = Some (Ok out, st) ->
  let nodes := p_nodes pipeline_json in
  (forall n, In n nodes ->
     (In (n_id n) (dict_keys (results st)) <-> type_is n "LOAD" = false)) /\
  List.length (output_paths st)
  = List.length (filter (fun n => type_is n "LOAD") nodes) /\
  out = last (map Some (output_paths st)) None /\
  (out = None <-> forall n, In n nodes -> type_is n "LOAD" = false).
Proof.
  intros H nodes. unfold execute_pipeline in H. fold nodes in H.
  destruct (topological_sort nodes (p_edges pipeline_json))
    as [[order|e]|] eqn:HT; try discriminate; [|destruct e; discriminate].
  destruct (topological_sort_permutation _ _ _ HT) as [Hnd Hperm].
  unfold bindM in H.
  destruct (execute_nodes (node_map_of nodes)
              (p_edges pipeline_json) run_id pipeline_name order
              (mkState [] [] log)) as [[[]|e] s1] eqn:Hx; [|discriminate].
  injection H as <- <-.
  destruct (execute_nodes_ok _ _ _ _ _ _ _ _ Hx)
    as (_ & Hres & (paths & Hp & Hlen)).
  simpl in Hres, Hp. subst paths.
  assert (Hload : forall n, In n nodes ->
            is_load (node_map_of nodes) (n_id n) = type_is n "LOAD").
  { intros n Hn. unfold is_load, type_of, type_is.
    now rewrite (node_map_of_get nodes Hnd n Hn). }
  assert (Hcount : List.length (output_paths s1)
                   = List.length (filter (fun n => type_is n "LOAD") nodes)).
  { rewrite Hlen.
    rewrite (Permutation_filter_length _ _ _ Hperm), filter_map_length.
    f_equal. apply filter_ext_in. exact Hload. }
  split; [|split; [exact Hcount|split; [reflexivity|]]].
  - intros n Hn. rewrite Hres, <- (Hload n Hn). split.
    + intros [[]|[_ Hl]]. exact Hl.
    + intros Hl. right. split; auto.
      apply (Permutation_in _ (Permutation_sym Hperm)). now apply in_map.
  - rewrite last_Some_None, <- length_zero_iff_nil, Hcount.
    apply filter_length_zero.
Qed.

Lemma completed_run_log_witness :
  exists order recs,
    topological_sort (p_nodes copy_pipeline) (p_edges copy_pipeline)
    = Some (Ok order) /\
    run_log copy_run_state = [] ++ recs /\
    Forall2 (info_record 7) order recs.
Proof.
  apply (completed_run_log (in_memory sample_files) copy_pipeline 7 None []
                           (Some "out.csv") copy_run_state).
  reflexivity.
Defined.

Lemma completed_run_outputs_witness :
  let nodes := p_nodes copy_pipeline in
  (forall n, In n nodes ->
     (In (n_id n) (dict_keys (results copy_run_state))
      <-> type_is n "LOAD" = false)) /\
  List.length (output_paths copy_run_state)
  = List.length (filter (fun n => type_is n "LOAD") nodes) /\
  Some "out.csv" = last (map Some (output_paths copy_run_state)) None /\
  (Some "out.csv" = None <-> forall n, In n nodes -> type_is n "LOAD" = false).
Proof.
  apply (completed_run_outputs (in_memory sample_files) copy_pipeline 7 None []
                               (Some "out.csv") copy_run_state).
  reflexivity.
Defined.

(** ** A run that stops before its first node *)

Lemma build_graph_raises : forall edges adj deg e,
  build_graph adj deg edges = Raise e -> exists k, e = KeyError k.
Proof.
  induction edges as [|edge rest IH]; intros adj deg e H; cbn [build_graph] in H.
  - discriminate.
  - unfold dict_item in H.
    destruct (edge_from2 edge) as [f|]; cbn [bind] in H;
      [|injection H as <-; eauto].
    destruct (dict_get adj f) as [l|]; cbn [bind] in H;
      [|injection H as <-; eauto].
    destruct (edge_to2 edge) as [t|]; cbn [bind] in H;
      [|injection H as <-; eauto].
    destruct (dict_get deg t) as [d|]; cbn [bind] in H;
      [|injection H as <-; eauto].
    now apply IH in H.
Qed.

Lemma topological_sort_unknown nodes edges :
  ~ edges_known nodes edges ->
  exists k, topological_sort nodes edges = Some (Raise (KeyError k)).
Proof.
  intros Hn. unfold topological_sort.
  destruct (build_graph _ _ edges) as [[adj deg]|e] eqn:HB.
  - exfalso. apply Hn. intros e He.
    destruct (build_graph_known _ _ _ _ _ HB e He) as (f & t & Hf & Ht & Hfk & Htk).
    exists f, t. repeat split; auto.
    + now apply (@dict_of_nodes_keys (list string) [] nodes).
    + now apply (@dict_of_nodes_keys Z 0%Z nodes).
  - apply build_graph_raises in HB. destruct HB as [k ->]. now exists k.
Qed.

(** X13. An edge that does not give, under from/from_node and
    to/to_node, the ids of two nodes stops the run with [KeyError]
    before any node is executed, and nothing is written to the log. *)
Theorem run_with_unknown_endpoint (ext : Externals)
    pipeline_json run_id pipeline_name log :
  ~ edges_known (p_nodes pipeline_json) (p_edges pipeline_json) ->
  exists k,
    execute_pipeline pipeline_json run_id pipeline_name log
    = Some (Raise (KeyError k), mkState [] [] log).
Proof.
  intros Hn. destruct (topological_sort_unknown _ _ Hn) as [k Hk].
  exists k. unfold execute_pipeline. now rewrite Hk.
Qed.

Lemma run_with_unknown_endpoint_witness :
  exists k,
    @execute_pipeline (in_memory [])
      (mkPipeline pair_nodes [edge_st "a" "b"]) 7 None []
    = Some (Raise (KeyError k), mkState [] [] []).
Proof.
  apply (run_with_unknown_endpoint (in_memory [])
           (mkPipeline pair_nodes [edge_st "a" "b"]) 7 None []).
  intros H. destruct (H (edge_st "a" "b")) as (f & t & Hf & _).
  - now left.
  - discriminate.
Defined.

(** X14. On a graph with a directed cycle, whose edges name nodes,
    [topological_sort] raises its cycle error and [execute_pipeline]
    passes it on after writing one ERROR record that names no node; no
    node is executed. *)
Theorem run_with_cycle (ext : Externals)
    pipeline_json run_id pipeline_name log x :
  edges_known (p_nodes pipeline_json) (p_edges pipeline_json) ->
  reach (edge_pairs (p_edges pipeline_json)) x x ->
  execute_pipeline pipeline_json run_id pipeline_name log
  = Some (Raise (ValueError cycle_message),
          mkState [] []
            (log ++ [mkLog run_id None ERROR
                           ("Pipeline validation failed: " +++ cycle_message)
                           None None])).
Proof.
  intros Hk Hc. unfold execute_pipeline.
  now rewrite (topological_sort_cycle _ _ x Hk Hc).
Qed.

Lemma run_with_cycle_witness :
  @execute_pipeline (in_memory [])
    (mkPipeline tail_cycle_nodes tail_cycle_edges) 7 None []
  = Some (Raise (ValueError cycle_message),
          mkState [] []
            ([] ++ [mkLog 7 None ERROR
                          ("Pipeline validation failed: " +++ cycle_message)
                          None None])).
Proof.
  apply (run_with_cycle (in_memory [])
           (mkPipeline tail_cycle_nodes tail_cycle_edges) 7 None [] "a").
  - intros e [<-|[<-|[<-|[]]]]; simpl.
    + exists "a", "b". simpl. tauto.
    + exists "b", "a". simpl. tauto.
    + exists "c", "a". simpl. tauto.
  - apply Relation_Operators.t1n_trans with "b".
    + unfold edge_in. simpl. auto.
    + apply Relation_Operators.t1n_step. unfold edge_in. simpl. auto.
Defined.

(** ** FILTER *)

Lemma df_mask_rows df mask :
  df_columns (df_mask df mask) = df_columns df /\
  incl (df_rows (df_mask df mask)) (df_rows df) /\
  df_len (df_mask df mask) <= df_len df.
Proof.
  unfold df_mask, df_len. simpl. split; [reflexivity|]. split.
  - intros row Hrow. apply in_map_iff in Hrow.
    destruct Hrow as ([b r] & <- & Hin). apply filter_In in Hin.
    destruct Hin as [Hin _]. now apply in_combine_r in Hin.
  - rewrite length_map.
    etransitivity; [apply filter_length_le|].
    rewrite length_combine. apply Nat.le_min_r.
Qed.

Lemma compare_filter_mask (ext : Externals) op df column value df' :
  compare_filter op df column value = Ok df' ->
  exists mask, df' = df_mask df mask.
Proof.
  unfold compare_filter.
  destruct (df_getitem df column) as [series|e]; cbn [bind]; [|discriminate].
  destruct (series_compare op series value) as [mask|e]; cbn [bind];
    [|discriminate].
  intros [= <-]. now exists mask.
Qed.

Lemma filter_transform_mask (ext : Externals) config df df' message :
  filter_transform config df = Ok (df', message) ->
  exists mask, df' = df_mask df mask.
Proof.
  intros H. unfold filter_transform in H.
  match type of H with
  | bind ?X _ = _ => destruct X as [d|e] eqn:HX
  end; cbn [bind] in H; [|discriminate].
  injection H as <- _.
  repeat match type of HX with
  | (if ?b then _ else _) = _ =>
      destruct b; [now apply compare_filter_mask in HX|]
  end.
  destruct (is_str (cfg_get config "operator") "contains"); [|discriminate].
  destruct (df_getitem df (cfg_get config "column")) as [series|e];
    cbn [bind] in HX; [|discriminate].
  destruct (str_contains (py_str (cfg_get config "value")) false series)
    as [mask|e]; cbn [bind] in HX; [|discriminate].
  injection HX as <-. now exists mask.
Qed.

(** X16. FILTER only removes rows: the frame a FILTER node returns has
    the columns of its input, each of its rows is a row of the input,
    and it has no more rows than the input. *)
Theorem filter_only_removes_rows (ext : Externals)
    node input_df run_id ctx st df st' :
  n_subtype node = Some "FILTER" ->
  execute_transform_node node input_df run_id ctx st = (Ok df, st') ->
  (exists mask, df = df_mask input_df mask) /\
  df_columns df = df_columns input_df /\
  incl (df_rows df) (df_rows input_df) /\
  df_len df <= df_len input_df.
Proof.
  intros Hsub. unfold execute_transform_node, bindM, lift, try_except,
    log_node_execution, ret, raise, node_subtype. rewrite Hsub.
  destruct (node_config node) as [config|e0]; [|discriminate].
  destruct (validate_transform_schema node input_df) as [[]|e0]; [|discriminate].
  unfold transform_body. simpl.
  destruct (filter_transform config input_df) as [[df' message]|e0] eqn:HF;
    intros [= <- _].
  apply filter_transform_mask in HF. destruct HF as [mask ->].
  split; [now exists mask|]. apply df_mask_rows.
Qed.

Lemma filter_only_removes_rows_witness :
  (exists mask, mkDF ["name"] [[CStr "alice"]] = df_mask names_frame mask) /\
  df_columns (mkDF ["name"] [[CStr "alice"]]) = df_columns names_frame /\
  incl (df_rows (mkDF ["name"] [[CStr "alice"]])) (df_rows names_frame) /\
  df_len (mkDF ["name"] [[CStr "alice"]]) <= df_len names_frame.
Proof.
  apply (filter_only_removes_rows (in_memory []) contains_node names_frame 7 []
           (mkState [] [] []) (mkDF ["name"] [[CStr "alice"]])
           (mkState [] []
              [mkLog 7 (Some "f") INFO "Filtered by name contains li"
                     (Some 3) (Some 1)]));
    reflexivity.
Defined.

(** X17. A FILTER node whose configuration gives no column passes the
    schema check and then fails on [df[None]]: the transform raises
    [KeyError(None)] and logs it, whatever the frame and the operator. *)
Theorem filter_without_column (ext : Externals)
    node config op input_df run_id ctx st :
  n_subtype node = Some "FILTER" ->
  n_config node = Some config ->
  cfg_get config "column" = VNone ->
  cfg_get config "operator" = VStr op ->
  In op filter_operators ->
  execute_transform_node node input_df run_id ctx st
  = (Raise (KeyError VNone),
     with_log st [mkLog run_id (Some (n_id node)) ERROR
                        "Transform failed: None"
                        (Some (df_len input_df)) None]).
Proof.
  intros Hsub Hcfg Hcol Hop Hin.
  unfold execute_transform_node, bindM, lift, try_except,
    log_node_execution, ret, raise, node_subtype, node_config.
  rewrite Hsub, Hcfg.
  unfold validate_transform_schema, node_subtype, node_config.
  rewrite Hsub, Hcfg. cbn [bind]. simpl String.eqb. cbv iota.
  rewrite Hcol. cbn [truthy].
  unfold transform_body. simpl String.eqb. cbv iota.
  unfold filter_transform, compare_filter. rewrite Hcol, Hop.
  unfold filter_operators in Hin. simpl in Hin.
  decompose [or] Hin; subst; try contradiction; reflexivity.
Qed.

Lemma filter_without_column_witness :
  @execute_transform_node (in_memory []) no_column_filter names_frame 7 []
                          (mkState [] [] [])
  = (Raise (KeyError VNone),
     with_log (mkState [] [] [])
       [mkLog 7 (Some (n_id no_column_filter)) ERROR
              "Transform failed: None" (Some (df_len names_frame)) None]).
Proof.
  apply (filter_without_column (in_memory []) no_column_filter
           [("operator", VStr "=="); ("value", VInt 1)] "==").
  - reflexivity.
  - reflexivity.
  - reflexivity.
  - reflexivity.
  - simpl. auto.
Defined.

(** ** JOIN *)

(** X18. A JOIN node with two or more inbound edges merges the frame of
    its first inbound edge (left) with the frame of its second inbound
    edge (right): the id behind the second edge replaces whatever
    [right_node_id] the configuration gave. *)
Theorem join_sides_follow_edge_order (ext : Externals)
    edges run_id pipeline_name node_id node config
    first second others fl fr L R l r st :
  incoming edges node_id = first :: second :: others ->
  n_subtype node = Some "JOIN" ->
  n_config node = Some config ->
  edge_from3 first = Some fl -> edge_from3 second = Some fr ->
  fr <> EmptyString ->
  dict_get (results st) fl = Some L ->
  dict_get (results st) fr = Some R ->
  cfg_get config "left_on" = VStr l -> l <> EmptyString ->
  cfg_get config "right_on" = VStr r -> r <> EmptyString ->
  In l (df_columns L) -> In r (df_columns R) ->
  let config' := dict_set config "right_node_id" (VStr fr) in
  node_body edges run_id pipeline_name node_id node "TRANSFORM" st
  = match pd_merge L R config' with
    | Ok df =>
        (Ok tt,
         mkState (dict_set (results st) node_id df) (output_paths st)
           (run_log st
            ++ [mkLog run_id (Some (n_id node)) INFO
                  ("Joined with " +++ fr +++ " on " +++ l +++ "=" +++ r
                   +++ " ("
                   +++ py_str (cfg_get_default config' "join_type"
                                               (VStr "inner"))
                   +++ " join)")
                  (Some (df_len L)) (Some (df_len df))]))
    | Raise e =>
        (Raise e,
         with_log st [mkLog run_id (Some (n_id node)) ERROR
                            ("Transform failed: " +++ exn_str e)
                            (Some (df_len L)) None])
    end.
Proof.
  intros Hinc Hsub Hcfg Hfl Hfr Hfrn HL HR Hl Hln Hr Hrn HlL HrR config'.
  assert (Hother : forall k, k <> "right_node_id" ->
            cfg_get config' k = cfg_get config k).
  { intros k Hk. unfold cfg_get, config'.
    rewrite dict_get_set_other; auto. }
  assert (Hright : cfg_get config' "right_node_id" = VStr fr).
  { unfold cfg_get, config'. now rewrite dict_get_set_same. }
  apply String.eqb_neq in Hln, Hrn, Hfrn.
  apply mem_In in HlL, HrR.
  unfold node_body. cbn [String.eqb Ascii.eqb Bool.eqb].
  unfold primary_input. rewrite Hinc.
  unfold bindM, get_results, lift, ret, dict_item. rewrite Hfl, HL.
  unfold subtype_is. rewrite Hsub. cbn [String.eqb Ascii.eqb Bool.eqb].
  unfold with_right_node, config_of. rewrite Hcfg, Hfr. cbn [opt_val].
  fold config'.
  unfold execute_transform_node, node_subtype, node_config, bindM, lift.
  cbn [n_subtype n_config n_id]. rewrite Hsub.
  unfold validate_transform_schema, node_subtype, node_config.
  cbn [n_subtype n_config n_id bind]. rewrite ?Hsub.
  cbn [bind String.eqb Ascii.eqb Bool.eqb].
  unfold transform_body. cbn [String.eqb Ascii.eqb Bool.eqb].
  unfold join_transform.
  rewrite (Hother "left_on"), (Hother "right_on") by discriminate.
  rewrite Hl, Hr, Hright. cbn [truthy]. rewrite Hln, Hrn, Hfrn. cbn [negb].
  rewrite HR. unfold col_in. cbn [bind]. rewrite HlL, HrR. cbn [negb].
  unfold try_except, bindM, lift, log_node_execution, ret, raise, set_result,
    with_log.
  destruct (pd_merge L R config') as [df|e]; cbn [bind]; reflexivity.
Qed.

Lemma join_sides_follow_edge_order_witness :
  let config' :=
    dict_set [("left_on", VStr "name"); ("right_on", VStr "name");
              ("right_node_id", VStr "L")] "right_node_id" (VStr "R") in
  @node_body (in_memory []) join_edges 7 None "J" join_node "TRANSFORM"
             join_state
  = match @pd_merge (in_memory []) names_frame names_frame config' with
    | Ok df =>
        (Ok tt,
         mkState (dict_set (results join_state) "J" df)
           (output_paths join_state)
           (run_log join_state
            ++ [mkLog 7 (Some (n_id join_node)) INFO
                  ("Joined with " +++ "R" +++ " on " +++ "name" +++ "="
                   +++ "name" +++ " ("
                   +++ py_str (cfg_get_default config' "join_type"
                                               (VStr "inner"))
                   +++ " join)")
                  (Some (df_len names_frame)) (Some (df_len df))]))
    | Raise e =>
        (Raise e,
         with_log join_state
           [mkLog 7 (Some (n_id join_node)) ERROR
                  ("Transform failed: " +++ exn_str e)
                  (Some (df_len names_frame)) None])
    end.
Proof.
  apply (join_sides_follow_edge_order (in_memory []) join_edges 7 None "J"
           join_node
           [("left_on", VStr "name"); ("right_on", VStr "name");
            ("right_node_id", VStr "L")]
           (edge_ft "L" "J") (edge_ft "R" "J") [] "L" "R"
           names_frame names_frame "name" "name" join_state);
    try reflexivity; try discriminate; simpl; auto.
Defined.

(** ** The log over a whole run *)

Lemma node_body_raise_log (ext : Externals)
    edges run_id pipeline_name node_id node ntype st e st' :
  node_body edges run_id pipeline_name node_id node ntype st = (Raise e, st') ->
  exists recs, st' = with_log st recs /\
               Forall (fun r => log_run_id r = run_id) recs.
Proof.
  assert (Hnil : with_log st [] = st).
  { destruct st. unfold with_log. simpl. now rewrite app_nil_r. }
  unfold node_body.
  destruct (ntype =? "SOURCE").
  { unfold bindM. destruct (execute_source_node node run_id st) as [r s1] eqn:Hs.
    apply execute_source_node_state in Hs.
    destruct Hs as [(df & rec & -> & -> & _)|(e0 & -> & ->)].
    - unfold set_result. discriminate.
    - intros [= <- <-]. exists []. split; auto. }
  destruct (ntype =? "TRANSFORM").
  { unfold bindM at 1.
    destruct (primary_input edges node_id "Transform" st) as [r s1] eqn:Hp.
    pose proof (primary_input_state _ _ _ _ _ _ _ Hp) as ->.
    destruct r as [[incoming_edges input_df]|e0];
      [|intros [= <- <-]; exists []; split; auto].
    unfold bindM, get_results.
    match goal with
    | |- context [execute_transform_node ?n _ _ _ _] => set (node' := n)
    end.
    destruct (execute_transform_node node' input_df run_id (results st) st)
      as [r s1] eqn:Ht.
    apply execute_transform_node_state in Ht.
    destruct Ht as [(df & rec & -> & -> & _)|[(e0 & -> & ->)|(e0 & -> & ->)]].
    - unfold set_result. discriminate.
    - intros [= <- <-]. exists []. split; auto.
    - intros [= <- <-]. eexists. split; [reflexivity|].
      constructor; [reflexivity|constructor]. }
  destruct (ntype =? "LOAD").
  { unfold bindM at 1.
    destruct (primary_input edges node_id "Load" st) as [r s1] eqn:Hp.
    pose proof (primary_input_state _ _ _ _ _ _ _ Hp) as ->.
    destruct r as [[incoming_edges input_df]|e0];
      [|intros [= <- <-]; exists []; split; auto].
    unfold bindM.
    destruct (execute_load_node node input_df run_id pipeline_name st)
      as [r s1] eqn:Hl.
    apply execute_load_node_state in Hl.
    destruct Hl as [(p & rec & -> & -> & _)|(e0 & -> & ->)].
    - unfold append_output. discriminate.
    - intros [= <- <-]. exists []. split; auto. }
  unfold raise. intros [= <- <-]. exists []. split; auto.
Qed.

Lemma node_body_log (ext : Externals)
    edges run_id pipeline_name node_id node ntype st r st' :
  node_body edges run_id pipeline_name node_id node ntype st = (r, st') ->
  exists recs, run_log st' = run_log st ++ recs /\
               Forall (fun r => log_run_id r = run_id) recs.
Proof.
  intros H. destruct r as [[]|e].
  - destruct (node_body_ok _ _ _ _ _ _ _ _ _ H)
      as (rec & Hl & (Hr & _ & _) & _).
    exists [rec]. split; auto.
  - destruct (node_body_raise_log _ _ _ _ _ _ _ _ _ _ H) as (recs & -> & Hr).
    exists recs. split; auto.
Qed.

Lemma execute_node_log (ext : Externals)
    node_map edges run_id pipeline_name node_id st r st' :
  execute_node node_map edges run_id pipeline_name node_id st = (r, st') ->
  exists recs, run_log st' = run_log st ++ recs /\
               Forall (fun r => log_run_id r = run_id) recs.
Proof.
  unfold execute_node, bindM, lift, try_except, log_node_execution, raise.
  destruct (dict_item node_map (Some node_id)) as [node|e0];
    [|intros [= <- <-]; exists []; split; [now rewrite app_nil_r|constructor]].
  destruct (node_type node) as [ntype|e0];
    [|intros [= <- <-]; exists []; split; [now rewrite app_nil_r|constructor]].
  destruct (node_body edges run_id pipeline_name node_id node ntype st)
    as [[[]|e] s1] eqn:Hb; intros [= <- <-];
    destruct (node_body_log _ _ _ _ _ _ _ _ _ _ Hb) as (recs & Hl & Hr).
  - exists recs. auto.
  - eexists (recs ++ [_]). simpl. rewrite Hl, <- app_assoc. split; [reflexivity|].
    apply Forall_app. split; auto.
Qed.

Lemma execute_nodes_log (ext : Externals)
    node_map edges run_id pipeline_name : forall order st r st',
  execute_nodes node_map edges run_id pipeline_name order st = (r, st') ->
  exists recs, run_log st' = run_log st ++ recs /\
               Forall (fun r => log_run_id r = run_id) recs.
Proof.
  induction order as [|x rest IH]; intros st r st' H; simpl in H.
  - injection H as <- <-. exists []. split; [now rewrite app_nil_r|constructor].
  - unfold bindM in H.
    destruct (execute_node node_map edges run_id pipeline_name x st)
      as [r1 s1] eqn:Hx.
    destruct (execute_node_log _ _ _ _ _ _ _ _ _ Hx) as (recs1 & Hl1 & Hr1).
    destruct r1 as [[]|e].
    + destruct (IH _ _ _ H) as (recs2 & Hl2 & Hr2).
      exists (recs1 ++ recs2). rewrite Hl2, Hl1, <- app_assoc. split; auto.
      apply Forall_app. auto.
    + injection H as <- <-. exists recs1. auto.
Qed.

(** X15. Whatever the outcome of a run, the records the log held before
    are kept, in place, and every record added carries the id of the
    run. *)
Theorem run_log_only_grows (ext : Externals)
    pipeline_json run_id pipeline_name log r st :
  execute_pipeline pipeline_json run_id pipeline_name log = Some (r, st) ->
  exists recs, run_log st = log ++ recs /\
               Forall (fun rec => log_run_id rec = run_id) recs.
Proof.
  unfold execute_pipeline.
  destruct (topological_sort (p_nodes pipeline_json) (p_edges pipeline_json))
    as [[order|e]|]; [| |discriminate].
  - unfold bindM.
    destruct (execute_nodes (node_map_of (p_nodes pipeline_json))
                (p_edges pipeline_json) run_id pipeline_name order
                (mkState [] [] log)) as [r1 s1] eqn:Hx.
    destruct (execute_nodes_log _ _ _ _ _ _ _ _ _ Hx) as (recs & Hl & Hr).
    destruct r1 as [[]|e]; intros [= <- <-]; exists recs; auto.
  - destruct e; intros [= <- <-];
      try (exists []; split; [now rewrite app_nil_r|constructor]).
    eexists [_]. split; [reflexivity|]. constructor; [reflexivity|constructor].
Qed.

Lemma run_log_only_grows_witness :
  exists recs, run_log copy_run_state = [] ++ recs /\
               Forall (fun rec => log_run_id rec = 7%Z) recs.
Proof.
  apply (run_log_only_grows (in_memory sample_files) copy_pipeline 7 None []
                            (Ok (Some "out.csv")) copy_run_state).
  reflexivity.
Defined.

(** ** File names *)

(** The cases of the repository's own test of [sanitize_filename]. *)
Example sanitize_filename_tests :
  sanitize_filename "normal_file.csv" = "normal_file.csv" /\
  sanitize_filename "../../../etc/passwd" = "passwd" /\
  sanitize_filename "file with spaces.csv" = "file_with_spaces.csv" /\
  sanitize_filename "file@#$%special.csv" = "file____special.csv".
Proof. repeat split; reflexivity. Qed.

Lemma rfind_from_last sub s : forall i found,
  rfind_from sub s i found
  = match last_index sub s with
    | Some k => (i + Z.of_nat k)%Z
    | None => found
    end.
Proof.
  induction s as [|c rest IH]; intros i found; simpl; auto.
  rewrite IH. destruct (last_index sub rest) as [k|].
  - lia.
  - destruct (Ascii.eqb c sub); simpl; auto. lia.
Qed.

Lemma no_slash_last s : no_slash s = true <-> last_index "/" s = None.
Proof.
  unfold no_slash. induction s as [|c rest IH]; simpl.
  - tauto.
  - rewrite andb_true_iff, IH, negb_true_iff.
    destruct (last_index "/" rest); destruct (Ascii.eqb c "/");
      intuition discriminate.
Qed.

Lemma basename_last p :
  basename p = match last_index "/" p with
               | Some k => slice_from (S k) p
               | None => p
               end.
Proof.
  unfold basename, rfind. rewrite rfind_from_last.
  destruct (last_index "/" p) as [k|]; [|reflexivity].
  replace (Z.to_nat (0 + Z.of_nat k + 1)) with (S k) by lia. reflexivity.
Qed.

Lemma basename_cons c rest :
  basename (String c rest)
  = if no_slash rest
    then if Ascii.eqb c "/" then rest else String c rest
    else basename rest.
Proof.
  rewrite !basename_last. simpl.
  destruct (no_slash rest) eqn:Hn.
  - apply no_slash_last in Hn. rewrite Hn.
    destruct (Ascii.eqb c "/"); reflexivity.
  - destruct (last_index "/" rest) as [k|] eqn:Hl; [reflexivity|].
    apply no_slash_last in Hl. congruence.
Qed.

Lemma basename_no_slash p : no_slash (basename p) = true.
Proof.
  induction p as [|c rest IH]; [reflexivity|].
  rewrite basename_cons. destruct (no_slash rest) eqn:Hn; auto.
  destruct (Ascii.eqb c "/") eqn:Hc; auto.
  unfold no_slash in *. simpl. now rewrite Hc, Hn.
Qed.

Lemma basename_of_name p : no_slash p = true -> basename p = p.
Proof.
  intros H. rewrite basename_last. apply no_slash_last in H. now rewrite H.
Qed.

Lemma String_length_slice : forall i s,
  String.length (slice_from i s) <= String.length s.
Proof.
  induction i as [|i IH]; intros s; simpl; auto.
  destruct s as [|c rest]; simpl; auto.
Qed.

Lemma basename_length p : String.length (basename p) <= String.length p.
Proof.
  rewrite basename_last. destruct (last_index "/" p); auto.
  apply String_length_slice.
Qed.




Lemma safe_underscore : is_safe_char "_" = true.
Proof. reflexivity. Qed.

Lemma safe_not_slash c : is_safe_char c = true -> Ascii.eqb c "/" = false.
Proof.
  intros H. destruct (Ascii.eqb c "/") eqn:Hc; auto.
  apply Ascii.eqb_eq in Hc. subst c. discriminate.
Qed.

Lemma safe_chars_safe s : all_chars is_safe_char (safe_chars s) = true.
Proof.
  induction s as [|c rest IH]; cbn [safe_chars all_chars]; auto.
  destruct (is_safe_char c) eqn:Hc; cbn [all_chars];
    rewrite ?Hc, ?safe_underscore, IH; auto.
Qed.

Lemma safe_chars_length s : String.length (safe_chars s) = String.length s.
Proof. induction s as [|c rest IH]; simpl; auto. Qed.

Lemma safe_chars_fixed s :
  safe_chars s = s <-> all_chars is_safe_char s = true.
Proof.
  induction s as [|c rest IH]; simpl; [tauto|].
  rewrite andb_true_iff, <- IH. split.
  - intros H. injection H as Hc Hr. split; auto.
    destruct (is_safe_char c) eqn:Hs; auto. subst c. discriminate.
  - intros [Hc Hr]. now rewrite Hc, Hr.
Qed.

Lemma safe_no_slash s : all_chars is_safe_char s = true -> no_slash s = true.
Proof.
  unfold no_slash. induction s as [|c rest IH]; simpl; auto.
  rewrite andb_true_iff. intros [Hc Hr].
  now rewrite (safe_not_slash c Hc), IH.
Qed.

(** X22. [sanitize_filename] returns a name made only of alphanumeric
    characters, '-', '_' and '.', so without any '/', and as long as
    the last component of its argument. *)
Theorem sanitize_filename_safe filename :
  all_chars is_safe_char (sanitize_filename filename) = true /\
  no_slash (sanitize_filename filename) = true /\
  String.length (sanitize_filename filename)
  = String.length (basename filename) /\
  String.length (sanitize_filename filename) <= String.length filename.
Proof.
  unfold sanitize_filename.
  pose proof (safe_chars_safe (basename filename)) as Hs.
  pose proof (safe_chars_length (basename filename)) as Hl.
  pose proof (basename_length filename) as Hb.
  repeat split; auto.
  - now apply safe_no_slash.
  - lia.
Qed.

(** X23. [sanitize_filename] leaves a name as it is exactly when the
    name is made of safe characters only, and sanitising twice is
    the same as sanitising once. *)
Theorem sanitize_filename_fixed filename :
  (sanitize_filename filename = filename <->
   all_chars is_safe_char filename = true) /\
  sanitize_filename (sanitize_filename filename) = sanitize_filename filename.
Proof.
  assert (Hfix : forall f, all_chars is_safe_char f = true ->
                           sanitize_filename f = f).
  { intros f Hf. unfold sanitize_filename.
    rewrite (basename_of_name f (safe_no_slash f Hf)).
    now apply safe_chars_fixed. }
  split; [split|].
  - intros H. rewrite <- H. unfold sanitize_filename. apply safe_chars_safe.
  - apply Hfix.
  - apply Hfix. unfold sanitize_filename. apply safe_chars_safe.
Qed.



Lemma append_empty_r a : a +++ EmptyString = a.
Proof. induction a as [|x a IH]; simpl; auto. now rewrite IH. Qed.



(** ** The two schema checks *)

Lemma nonempty_nil {A} (l : list A) : nonempty l = false -> l = [].
Proof. destruct l; [reflexivity|discriminate]. Qed.




(** ** The worker task *)

Lemma row_get_set_same {A} id (a : A) rows :
  row_get id rows <> None -> row_get id (row_set id a rows) = Some a.
Proof.
  induction rows as [|[k a'] rest IH]; simpl; [congruence|].
  destruct (k =? id)%Z eqn:Hk; simpl; rewrite Hk; auto.
Qed.

Lemma row_get_set_other {A} id id' (a : A) rows :
  id <> id' -> row_get id' (row_set id a rows) = row_get id' rows.
Proof.
  intros Hne. induction rows as [|[k a'] rest IH]; simpl; auto.
  destruct (k =? id)%Z eqn:Hk; simpl.
  - apply Z.eqb_eq in Hk. subst k.
    assert (Hf : (id =? id')%Z = false) by now apply Z.eqb_neq.
    now rewrite Hf.
  - destruct (k =? id')%Z; auto.
Qed.

(** X26. A task that finds its run never leaves it PENDING or RUNNING:
    when the pipeline has run to its end the run is SUCCESS with the
    output path as result location, and in every other case (no such
    pipeline, or an exception out of [execute_pipeline]) the run is
    FAILED with the text of the exception, which is raised again.
    Either way the last log record says so, and no other run and no
    pipeline is touched. *)
Theorem task_ends_run (ext : Externals) run_id pipeline_id db run r db' :
  row_get run_id (db_runs db) = Some run ->
  run_pipeline_task run_id pipeline_id db = Some (r, db') ->
  (forall id, id <> run_id ->
     row_get id (db_runs db') = row_get id (db_runs db)) /\
  db_pipelines db' = db_pipelines db /\
  exists earlier,
    match r with
    | Ok output =>
        row_get run_id (db_runs db')
        = Some (mkRun SUCCESS output (error_message run)) /\
        db_logs db'
        = earlier ++ [mkLog run_id None INFO
                        ("Pipeline completed successfully. Output: "
                         +++ py_str (opt_val output)) None None]
    | Raise e =>
        row_get run_id (db_runs db')
        = Some (mkRun FAILED (result_location run) (Some (exn_str e))) /\
        db_logs db'
        = earlier ++ [mkLog run_id None ERROR
                        ("Pipeline execution failed: " +++ exn_str e)
                        None None]
    end.
Proof.
  intros Hrun. unfold run_pipeline_task, task_body. rewrite Hrun.
  assert (Hex : row_get run_id (db_runs db) <> None) by congruence.
  set (running := mkRun RUNNING (result_location run) (error_message run)).
  assert (Hr1 : row_get run_id (row_set run_id running (db_runs db))
                = Some running).
  { now apply row_get_set_same. }
  assert (Hkeep : forall (a b : PipelineRun) id, id <> run_id ->
            row_get id (row_set run_id a (row_set run_id b (db_runs db)))
            = row_get id (db_runs db)).
  { intros a b id Hne. rewrite !row_get_set_other; auto. }
  assert (Hset : forall (a b : PipelineRun),
            row_get run_id (row_set run_id a (row_set run_id b (db_runs db)))
            = Some a).
  { intros a b. apply row_get_set_same. rewrite row_get_set_same; congruence. }
  destruct (row_get pipeline_id (db_pipelines (set_run run_id running db)))
    as [pipeline|].
  - destruct (execute_pipeline (pipeline_json pipeline) run_id None _)
      as [[[output|e] st]|]; [| |discriminate].
    + intros [= <- <-]. simpl. split; [|split; [reflexivity|]].
      * intros id Hne. now apply Hkeep.
      * exists (run_log st). split; [apply Hset|reflexivity].
    + intros [= <- <-]. simpl. rewrite Hr1.
      simpl. split; [|split; [reflexivity|]].
      * intros id Hne. now apply Hkeep.
      * exists (run_log st). split; [apply Hset|reflexivity].
  - intros [= <- <-]. simpl. rewrite Hr1. simpl.
    split; [|split; [reflexivity|]].
    + intros id Hne. now apply Hkeep.
    + exists (db_logs db). split; [apply Hset|reflexivity].
Qed.


Lemma task_ends_run_witness :
  (forall id, id <> 7%Z ->
     row_get id (db_runs sample_db_after) = row_get id (db_runs sample_db)) /\
  db_pipelines sample_db_after = db_pipelines sample_db /\
  exists earlier,
    row_get 7%Z (db_runs sample_db_after)
    = Some (mkRun SUCCESS (Some "out.csv")
                  (error_message (mkRun PENDING None None))) /\
    db_logs sample_db_after
    = earlier ++ [mkLog 7 None INFO
                    ("Pipeline completed successfully. Output: "
                     +++ py_str (opt_val (Some "out.csv"))) None None].
Proof.
  apply (task_ends_run (in_memory sample_files) 7 1 sample_db
           (mkRun PENDING None None) (Ok (Some "out.csv")) sample_db_after);
    reflexivity.
Defined.

(** ** The search on a graph without cycle *)


Section DfsAcyclic.
Variable adjacency : dict (list string).
Local Abbreviation R := (adj_edge adjacency).
Hypothesis Hacyc : forall x, ~ clos_trans_1n string R x x.



End DfsAcyclic.





(** ** More on the checks and on single steps *)



(** X27. A node that gives no type stops the run with [KeyError('type')]
    once the nodes before it have been executed, and, the lookup being
    outside the [try] of the loop, without any ERROR record. *)
Theorem node_without_type_fails_unlogged (ext : Externals)
    pipeline_json run_id pipeline_name log pre node_id rest node st :
  topological_sort (p_nodes pipeline_json) (p_edges pipeline_json)
  = Some (Ok (pre ++ node_id :: rest)) ->
  execute_nodes (node_map_of (p_nodes pipeline_json))
                (p_edges pipeline_json) run_id pipeline_name pre
                (mkState [] [] log)
  = (Ok tt, st) ->
  dict_get (node_map_of (p_nodes pipeline_json)) node_id = Some node ->
  n_type node = None ->
  execute_pipeline pipeline_json run_id pipeline_name log
  = Some (Raise (KeyError (VStr "type")), st).
Proof.
  intros Hsort Hpre Hnode Htype. unfold execute_pipeline. rewrite Hsort.
  unfold bindM at 1.
  rewrite (execute_nodes_app _ _ _ _ _ _ _ _ _ Hpre).
  simpl. unfold bindM at 1. unfold execute_node.
  unfold bindM, lift, dict_item, node_type.
  now rewrite Hnode, Htype.
Qed.

Lemma node_without_type_fails_unlogged_witness :
  @execute_pipeline (in_memory sample_files) untyped_pipeline 7 None []
  = Some (Raise (KeyError (VStr "type")), after_source_state).
Proof.
  apply (node_without_type_fails_unlogged (in_memory sample_files)
           untyped_pipeline 7 None [] ["a"] "n" []
           (mkNode "n" None (Some "CSV_LOAD") (Some []))
           after_source_state); reflexivity.
Defined.



(** ** File extensions *)

Lemma slice_to_from : forall i s, slice_to i s +++ slice_from i s = s.
Proof.
  induction i as [|i IH]; intros s; simpl; auto.
  destruct s as [|c rest]; simpl; auto. now rewrite IH.
Qed.

Lemma slice_from_from : forall i j s,
  slice_from j (slice_from i s) = slice_from (i + j) s.
Proof.
  induction i as [|i IH]; intros j s; simpl; auto.
  destruct s as [|c rest]; simpl; auto. now destruct j.
Qed.

Lemma last_index_slice_none sub : forall i s,
  last_index sub s = None -> last_index sub (slice_from i s) = None.
Proof.
  induction i as [|i IH]; intros s H; simpl; auto.
  destruct s as [|c rest]; simpl in *; auto.
  apply IH. destruct (last_index sub rest); [discriminate|reflexivity].
Qed.

Lemma last_index_slice_before sub : forall i s k,
  last_index sub s = Some k -> k < i -> last_index sub (slice_from i s) = None.
Proof.
  induction i as [|i IH]; intros s k H Hlt; [lia|].
  destruct s as [|c rest]; simpl in *; auto.
  destruct (last_index sub rest) as [k'|] eqn:Hr.
  - injection H as <-. apply (IH rest k'); auto. lia.
  - now apply last_index_slice_none.
Qed.

Lemma last_index_slice_after sub : forall i s k,
  last_index sub s = Some k -> i <= k ->
  last_index sub (slice_from i s) = Some (k - i).
Proof.
  induction i as [|i IH]; intros s k H Hle; simpl.
  - now rewrite Nat.sub_0_r.
  - destruct s as [|c rest]; simpl in *; [discriminate|].
    destruct (last_index sub rest) as [k'|] eqn:Hr.
    + injection H as <-. simpl. apply IH; auto. lia.
    + destruct (Ascii.eqb c sub); [|discriminate]. injection H as <-. lia.
Qed.

Lemma last_index_length sub : forall s k,
  last_index sub s = Some k -> k < String.length s.
Proof.
  induction s as [|c rest IH]; intros k H; simpl in *; [discriminate|].
  destruct (last_index sub rest) as [k'|].
  - injection H as <-. specialize (IH k' eq_refl). lia.
  - destruct (Ascii.eqb c sub); [|discriminate]. injection H as <-. lia.
Qed.

Lemma get_slice_from : forall i s c,
  String.get i s = Some c ->
  slice_from i s = String c (slice_from (S i) s).
Proof.
  induction i as [|i IH]; intros s c H; destruct s as [|a rest];
    simpl in *; try discriminate.
  - now injection H as <-.
  - now apply IH.
Qed.

Lemma get_Some : forall i s, i < String.length s -> exists c, String.get i s = Some c.
Proof.
  induction i as [|i IH]; intros s H; destruct s as [|a rest];
    simpl in *; try lia; eauto.
  apply IH. lia.
Qed.

Lemma skip_dots_spec : forall n p filenameIndex dotIndex,
  filenameIndex + n = dotIndex -> dotIndex <= String.length p ->
  skip_dots n p filenameIndex dotIndex
  = if all_chars is_dot (slice_to n (slice_from filenameIndex p))
    then (p, EmptyString)
    else (slice_to dotIndex p, slice_from dotIndex p).
Proof.
  induction n as [|n IH]; intros p fi d Hd Hlen; simpl; auto.
  destruct (get_Some fi p) as [c Hc]; [lia|].
  rewrite Hc, (get_slice_from fi p c Hc). simpl. unfold is_dot at 1.
  destruct (Ascii.eqb c "."); simpl; auto.
  apply IH; auto. lia.
Qed.

Lemma rfind_last p sub :
  rfind p sub = match last_index sub p with
                | Some k => Z.of_nat k
                | None => (-1)%Z
                end.
Proof.
  unfold rfind. rewrite rfind_from_last. now destruct (last_index sub p).
Qed.

Lemma last_index_char sub : forall s k,
  last_index sub s = Some k -> String.get k s = Some sub.
Proof.
  induction s as [|c rest IH]; intros k H; simpl in *; [discriminate|].
  destruct (last_index sub rest) as [k'|].
  - injection H as <-. now apply IH.
  - destruct (Ascii.eqb c sub) eqn:Hc; [|discriminate]. injection H as <-.
    apply Ascii.eqb_eq in Hc. now subst.
Qed.

(** The extension [os.path.splitext] finds is that of the last
    component. *)
Lemma splitext_ext p : snd (splitext p) = ext_of (basename p).
Proof.
  unfold splitext, ext_of. rewrite !rfind_last, basename_last.
  destruct (last_index "." p) as [k|] eqn:Hd.
  - pose proof (last_index_length _ _ _ Hd) as Hk.
    destruct (last_index "/" p) as [m|] eqn:Hs.
    + assert (Hkm : k <> m).
      { intros ->. apply last_index_char in Hd, Hs. congruence. }
      destruct (Z.of_nat k >? Z.of_nat m)%Z eqn:Hgt.
      * assert (Hlt : m < k) by lia.
        rewrite (last_index_slice_after "." (S m) p k Hd) by lia.
        replace (Z.to_nat (Z.of_nat k - (Z.of_nat m + 1))) with (k - S m) by lia.
        replace (Z.to_nat (Z.of_nat m + 1)) with (S m) by lia.
        rewrite Nat2Z.id.
        rewrite skip_dots_spec by lia.
        destruct (all_chars is_dot (slice_to (k - S m) (slice_from (S m) p)));
          cbn [snd]; auto.
        rewrite slice_from_from. f_equal. lia.
      * rewrite (last_index_slice_before "." (S m) p k Hd) by lia. reflexivity.
    + assert (Hgt : (Z.of_nat k >? -1)%Z = true) by lia.
      rewrite Hgt, Hd.
      replace (Z.to_nat (Z.of_nat k - (-1 + 1))) with k by lia.
      replace (Z.to_nat (-1 + 1)) with 0 by lia.
      rewrite Nat2Z.id.
      rewrite skip_dots_spec; [|reflexivity|now apply Nat.lt_le_incl].
      cbn [slice_from].
      destruct (all_chars is_dot (slice_to k p)); reflexivity.
  - destruct (last_index "/" p) as [m|] eqn:Hs.
    + assert (Hgt : (-1 >? Z.of_nat m)%Z = false).
      { rewrite Z.gtb_ltb. apply Z.ltb_ge. lia. }
      rewrite Hgt. cbn [snd].
      now rewrite (last_index_slice_none "." (S m) p Hd).
    + cbn [snd]. now rewrite Hd.
Qed.

Lemma ext_of_shape name :
  ext_of name = EmptyString \/
  exists stem e,
    name = stem +++ String "." e /\ ext_of name = String "." e /\
    all_chars is_dot stem = false /\ last_index "." e = None.
Proof.
  unfold ext_of. destruct (last_index "." name) as [k|] eqn:Hd; auto.
  destruct (all_chars is_dot (slice_to k name)) eqn:Hdots; auto.
  right. pose proof (last_index_char _ _ _ Hd) as Hc.
  pose proof (get_slice_from k name "." Hc) as Hs.
  exists (slice_to k name), (slice_from (S k) name).
  split; [|split; [|split]]; auto.
  - rewrite <- Hs. symmetry. apply slice_to_from.
  - apply (last_index_slice_before "." (S k) name k Hd). lia.
Qed.

Lemma ext_of_stem stem e :
  all_chars is_dot stem = false -> last_index "." e = None ->
  no_slash (stem +++ String "." e) = true ->
  ext_of (stem +++ String "." e) = String "." e.
Proof.
  intros Hstem He _.
  assert (Hl : last_index "." (stem +++ String "." e)
               = Some (String.length stem)).
  { clear Hstem. induction stem as [|c rest IH]; simpl.
    - now rewrite He.
    - now rewrite IH. }
  assert (Hto : slice_to (String.length stem) (stem +++ String "." e) = stem).
  { clear. induction stem as [|c rest IH]; simpl; auto. now rewrite IH. }
  assert (Hfrom : slice_from (String.length stem) (stem +++ String "." e)
                  = String "." e).
  { clear. induction stem as [|c rest IH]; simpl; auto. }
  unfold ext_of. now rewrite Hl, Hto, Hstem, Hfrom.
Qed.

(** X29. With the empty string not among the allowed extensions,
    [validate_file_extension] accepts a filename exactly when its last
    component is a stem, holding something other than dots, followed
    by a dot and a dot-free ending whose lower-case form, with the
    dot, is an allowed extension. *)
Theorem validate_file_extension_accepts filename allowed_extensions :
  ~ In EmptyString allowed_extensions ->
  (validate_file_extension filename allowed_extensions = true <->
   exists stem e,
     basename filename = stem +++ String "." e /\
     all_chars is_dot stem = false /\
     last_index "." e = None /\
     In (lower (String "." e)) allowed_extensions).
Proof.
  intros Hempty. unfold validate_file_extension.
  rewrite mem_In, splitext_ext. split.
  - intros Hin. destruct (ext_of_shape (basename filename))
      as [H0|(stem & e & Hname & Hext & Hstem & He)].
    + rewrite H0 in Hin. simpl in Hin. contradiction.
    + exists stem, e. rewrite Hext in Hin. auto.
  - intros (stem & e & Hname & Hstem & He & Hin).
    rewrite Hname, ext_of_stem; auto.
    rewrite <- Hname. apply basename_no_slash.
Qed.

Lemma validate_file_extension_accepts_witness :
  validate_file_extension "up/data.CSV" ALLOWED_EXTENSIONS = true <->
  exists stem e,
    basename "up/data.CSV" = stem +++ String "." e /\
    all_chars is_dot stem = false /\
    last_index "." e = None /\
    In (lower (String "." e)) ALLOWED_EXTENSIONS.
Proof.
  apply (validate_file_extension_accepts "up/data.CSV" ALLOWED_EXTENSIONS).
  unfold ALLOWED_EXTENSIONS. simpl. intuition discriminate.
Defined.

Lemma safe_char_dot c :
  Ascii.eqb (if is_safe_char c then c else "_"%char) "." = Ascii.eqb c ".".
Proof.
  destruct (is_safe_char c) eqn:Hc; auto.
  destruct (Ascii.eqb c ".") eqn:Hd; auto.
  apply Ascii.eqb_eq in Hd. subst c. discriminate.
Qed.

Lemma last_index_safe_chars s :
  last_index "." (safe_chars s) = last_index "." s.
Proof.
  induction s as [|c rest IH]; simpl; auto.
  now rewrite IH, safe_char_dot.
Qed.

Lemma slice_to_safe_chars : forall i s,
  slice_to i (safe_chars s) = safe_chars (slice_to i s).
Proof.
  induction i as [|i IH]; intros s; simpl; auto.
  destruct s as [|c rest]; simpl; auto. now rewrite IH.
Qed.

Lemma slice_from_safe_chars : forall i s,
  slice_from i (safe_chars s) = safe_chars (slice_from i s).
Proof.
  induction i as [|i IH]; intros s; simpl; auto.
  destruct s as [|c rest]; simpl; auto.
Qed.

Lemma all_dots_safe_chars s :
  all_chars is_dot (safe_chars s) = all_chars is_dot s.
Proof.
  induction s as [|c rest IH]; simpl; auto.
  unfold is_dot at 1 3. now rewrite safe_char_dot, IH.
Qed.

Lemma ext_of_safe_chars s : ext_of (safe_chars s) = safe_chars (ext_of s).
Proof.
  unfold ext_of. rewrite last_index_safe_chars.
  destruct (last_index "." s) as [k|]; auto.
  rewrite slice_to_safe_chars, all_dots_safe_chars, slice_from_safe_chars.
  now destruct (all_chars is_dot (slice_to k s)).
Qed.

Lemma safe_lower_char c :
  is_safe_char (lower_char c) = true -> is_safe_char c = true.
Proof.
  destruct c as [[] [] [] [] [] [] [] []]; vm_compute; auto.
Qed.

Lemma safe_lower s :
  all_chars is_safe_char (lower s) = true -> all_chars is_safe_char s = true.
Proof.
  induction s as [|c rest IH]; cbn [lower all_chars]; auto.
  rewrite !andb_true_iff. intros [H1 H2]. split; auto.
  now apply safe_lower_char.
Qed.

(** X30. When the allowed extensions are made of safe characters, a
    filename that [validate_file_extension] accepts is stored by
    [save_upload_file] under the very extension that was checked:
    sanitising the name changes nothing in it. *)
Theorem stored_extension_is_validated filename allowed_extensions :
  (forall a, In a allowed_extensions -> all_chars is_safe_char a = true) ->
  validate_file_extension filename allowed_extensions = true ->
  stored_extension filename = snd (splitext filename) /\
  In (lower (stored_extension filename)) allowed_extensions.
Proof.
  intros Hsafe Hok. unfold validate_file_extension in Hok.
  apply mem_In in Hok.
  assert (Heq : stored_extension filename = snd (splitext filename)).
  { unfold stored_extension. rewrite !splitext_ext.
    unfold sanitize_filename.
    rewrite (basename_of_name (safe_chars (basename filename))).
    - rewrite ext_of_safe_chars. apply safe_chars_fixed.
      rewrite <- splitext_ext. apply safe_lower. now apply Hsafe.
    - apply safe_no_slash, safe_chars_safe. }
  split; auto. now rewrite Heq.
Qed.

Lemma stored_extension_is_validated_witness :
  stored_extension "my report.XLSX" = snd (splitext "my report.XLSX") /\
  In (lower (stored_extension "my report.XLSX")) ALLOWED_EXTENSIONS.
Proof.
  apply (stored_extension_is_validated "my report.XLSX" ALLOWED_EXTENSIONS).
  - intros a [<-|[<-|[<-|[<-|[]]]]]; reflexivity.
  - reflexivity.
Defined.
